(** * Apptainer OCI launcher: process spec, reverse id maps, CDI devices, delete

    A shallow embedding of the OCI launcher's pure and stateful helpers
    ([getProcessArgs], [getProcessEnv], [getReverseUserMaps], [OciDelete],
    [addCDIDevices]) together with the properties the design document states
    about them. *)

From stdpp Require Import base numbers option list strings gmap fin_maps.
From Stdlib Require Import ZArith Lia Ascii Sorting.Sorted Sorting.Permutation.

(* ===================================================================== *)
(** ** User-namespace id mapper ([getReverseUserMaps]) *)
(* ===================================================================== *)

Module IDMap.

Local Open Scope Z_scope.

(** [uint32] values are integers in [[0, 2^32)]; arithmetic wraps around. *)
Definition uint32_modulus : Z := 2 ^ 32.

Definition wrap32 (z : Z) : Z := z mod uint32_modulus.

Definition is_uint32 (z : Z) : Prop := 0 <= z < uint32_modulus.

Definition add32 (a b : Z) : Z := wrap32 (a + b).

Definition sub32 (a b : Z) : Z := wrap32 (a - b).

(** [specs.LinuxIDMapping]: three [uint32] fields. *)
Record LinuxIDMapping := mkMapping {
  ContainerID : Z;
  HostID : Z;
  Size : Z
}.

(** The two subordinate-id files a range may be looked up in. *)
Inductive IDFile := SubUIDFile | SubGIDFile.

(** Errors [getReverseUserMaps] can return: a failed range lookup (the error
    of [fakeroot.GetIDRange], passed through unchanged) or the formatted
    "subuid range size (%d) must be at least 65536" error, which the source
    uses for the subuid and for the subgid range alike. *)
Inductive MapError (E : Type) :=
  | LookupFailed (e : E)
  | RangeTooSmall (size : Z).

Arguments LookupFailed {E} e.
Arguments RangeTooSmall {E} size.

(** The three results of the Go function: [(uidMap, gidMap, err)]; a nil
    slice is the empty list and a nil error is [None]. *)
Definition MapsResult (E : Type) : Type :=
  (list LinuxIDMapping * list LinuxIDMapping * option (MapError E))%type.

(** The mapping literal of either branch, identical for uid and gid
    (lines 150-181 and 183-214). *)
Definition reverseMap (id size : Z) : list LinuxIDMapping :=
  if id <? size then
    [ mkMapping 0 1 id;
      mkMapping id 0 1;
      mkMapping (add32 id 1) (add32 id 1) (sub32 size id) ]
  else
    [ mkMapping 0 1 size;
      mkMapping id 0 1 ].

Section Lookup.

(** [fakeroot.GetIDRange] reads the host's subordinate-id registry; it is a
    parameter of the model. On success it returns a range as a
    [LinuxIDMapping] whose [Size] is what the function inspects. *)
Context {E : Type}.
Variable GetIDRange : IDFile -> Z -> LinuxIDMapping + E.

(** [getReverseUserMaps], with [os.Getuid()] and [os.Getgid()] as [uid] and
    [gid]. Both lookups are keyed by [uid], as in the source. *)
Definition getReverseUserMaps (uid gid : Z) : MapsResult E :=
  match GetIDRange SubUIDFile uid with
  | inr e => ([], [], Some (LookupFailed e))
  | inl subuidRange =>
    if Size subuidRange <? 65536 then
      ([], [], Some (RangeTooSmall (Size subuidRange)))
    else
      match GetIDRange SubGIDFile uid with
      | inr e => ([], [], Some (LookupFailed e))
      | inl subgidRange =>
        if Size subgidRange <? 65536 then
          ([], [], Some (RangeTooSmall (Size subgidRange)))
        else
          (reverseMap uid (Size subuidRange),
           reverseMap gid (Size subgidRange),
           None)
      end
  end.

End Lookup.

(** *** Reading a mapping *)

(** Container-side membership of one range: [ContainerID <= c < ContainerID + Size]. *)
Definition in_container_range (c : Z) (r : LinuxIDMapping) : bool :=
  (ContainerID r <=? c) && (c <? ContainerID r + Size r).

(** Host-side membership of one range. *)
Definition in_host_range (h : Z) (r : LinuxIDMapping) : bool :=
  (HostID r <=? h) && (h <? HostID r + Size r).

(** The container id [c] seen through the mapping: the host-side id of the
    first range that holds [c]. *)
Fixpoint decode (m : list LinuxIDMapping) (c : Z) : option Z :=
  match m with
  | [] => None
  | r :: m' =>
    if in_container_range c r then Some (HostID r + (c - ContainerID r))
    else decode m' c
  end.

(** How many ranges of the mapping hold the container id [c]. *)
Definition container_hits (m : list LinuxIDMapping) (c : Z) : nat :=
  length (List.filter (in_container_range c) m).

Definition host_hits (m : list LinuxIDMapping) (h : Z) : nat :=
  length (List.filter (in_host_range h) m).

(** Pairwise disjoint container-side ranges: no id lies in two ranges. *)
Definition container_disjoint (m : list LinuxIDMapping) : Prop :=
  forall c, (container_hits m c <= 1)%nat.

Definition host_disjoint (m : list LinuxIDMapping) : Prop :=
  forall h, (host_hits m h <= 1)%nat.

(** The union of the container-side ranges, as a predicate. *)
Definition container_covers (m : list LinuxIDMapping) (c : Z) : Prop :=
  exists r, In r m /\ in_container_range c r = true.

(** The union of the container-side ranges is exactly the set [P]. *)
Definition container_union_is (m : list LinuxIDMapping) (P : Z -> Prop) : Prop :=
  forall c, container_covers m c <-> P c.

(** What holds of a mapping built for host id [id] and a subordinate range
    of [size] ids: disjoint container-side ranges; their union, which is
    [[0, size]] (that is [size + 1] ids) when [id < size] and [[0, size)]
    plus [id] itself otherwise; container id 0 is mapped, and to host id 1
    unless the host id is 0. *)
Definition mapping_partition (id size : Z) (m : list LinuxIDMapping) : Prop :=
  container_disjoint m /\
  (id < size -> container_union_is m (fun c => 0 <= c < size + 1)) /\
  (size <= id -> container_union_is m (fun c => 0 <= c < size \/ c = id)) /\
  container_covers m 0 /\
  (0 < id -> decode m 0 = Some 1).

(** The ranges the function builds, written without [uint32] wrap-around:
    three when [id < size], the last one being container
    [[id+1, size+1)] from host [[id+1, size+1)], and two otherwise. *)
Definition mapping_shape (id size : Z) (m : list LinuxIDMapping) : Prop :=
  (id < size ->
     m = [ mkMapping 0 1 id; mkMapping id 0 1;
           mkMapping (id + 1) (id + 1) (size - id) ]) /\
  (size <= id ->
     m = [ mkMapping 0 1 size; mkMapping id 0 1 ]).

(** The mapping as the design document words it: the third range of the
    three-range case ends at [rangeSize]. Only used to compare with
    [reverseMap]. *)
Definition documented_reverseMap (id size : Z) : list LinuxIDMapping :=
  if id <? size then
    [ mkMapping 0 1 id;
      mkMapping id 0 1;
      mkMapping (id + 1) (id + 1) (size - (id + 1)) ]
  else
    [ mkMapping 0 1 size;
      mkMapping id 0 1 ].

(** The union of the host-side ranges, as a predicate. *)
Definition host_covers (m : list LinuxIDMapping) (h : Z) : Prop :=
  exists r, In r m /\ in_host_range h r = true.

(** A range that fits [uint32] arithmetic: its three fields are [uint32]
    values and neither side runs past the last [uint32] id. *)
Definition range_fits (r : LinuxIDMapping) : Prop :=
  is_uint32 (ContainerID r) /\ is_uint32 (HostID r) /\ is_uint32 (Size r) /\
  ContainerID r + Size r <= uint32_modulus /\
  HostID r + Size r <= uint32_modulus.

(** A fixed registry for the examples: user 1001 owns 65536 subordinate
    uids and gids starting at 100000. *)
Definition sample_registry (f : IDFile) (u : Z) : LinuxIDMapping + string :=
  if u =? 1001 then inl (mkMapping 0 100000 65536)
  else inr "no mapping entry"%string.

(** A registry whose subgid range is one short of the minimum. *)
Definition short_gid_registry (f : IDFile) (u : Z) : LinuxIDMapping + string :=
  match f with
  | SubUIDFile => inl (mkMapping 0 100000 65536)
  | SubGIDFile => inl (mkMapping 0 100000 65535)
  end.

End IDMap.

(* ===================================================================== *)
(** ** Go's [strings] functions used by the launcher *)
(* ===================================================================== *)

Module GoStrings.

Local Open Scope string_scope.

(** [strings.HasPrefix(s, p)]. *)
Fixpoint HasPrefix (s p : string) : bool :=
  match p, s with
  | EmptyString, _ => true
  | String _ _, EmptyString => false
  | String b p', String a s' => Ascii.eqb a b && HasPrefix s' p'
  end.

(** [s[n:]] for [n <= len(s)]. *)
Fixpoint drop_chars (n : nat) (s : string) : string :=
  match n, s with
  | O, _ => s
  | S _, EmptyString => EmptyString
  | S n', String _ s' => drop_chars n' s'
  end.

(** [strings.TrimPrefix(s, p)]: [s] without the leading [p], or [s] itself. *)
Definition TrimPrefix (s p : string) : string :=
  if HasPrefix s p then drop_chars (String.length p) s else s.

(** [strings.Contains(s, sub)]: [sub] occurs at some position of [s]. *)
Fixpoint Contains (s sub : string) : bool :=
  HasPrefix s sub ||
  match s with
  | EmptyString => false
  | String _ s' => Contains s' sub
  end.

(** The number of positions of [s] at which [sub] occurs. *)
Fixpoint occurrences (s sub : string) : nat :=
  (if HasPrefix s sub then 1 else 0) +
  match s with
  | EmptyString => 0
  | String _ s' => occurrences s' sub
  end.

(** [strings.SplitN(s, "=", 2)]: [None] stands for a result of length 1
    (no "=" in [s]), [Some (k, v)] for the two parts around the first "=". *)
Fixpoint SplitN_eq (s : string) : option (string * string) :=
  match s with
  | EmptyString => None
  | String a s' =>
    if Ascii.eqb a "="%char then Some (EmptyString, s')
    else match SplitN_eq s' with
         | Some (k, v) => Some (String a k, v)
         | None => None
         end
  end.

(** [s[len(s)-1]] when [s] is not empty. *)
Fixpoint last_char (s : string) : option Ascii.ascii :=
  match s with
  | EmptyString => None
  | String a EmptyString => Some a
  | String _ s' => last_char s'
  end.

(** The character [c] does not occur in [s]. *)
Fixpoint lacks (c : Ascii.ascii) (s : string) : bool :=
  match s with
  | EmptyString => true
  | String a s' => negb (Ascii.eqb a c) && lacks c s'
  end.

End GoStrings.

(* ===================================================================== *)
(** ** Process spec builder ([getProcessArgs], [getProcessEnv], [getProcess]) *)
(* ===================================================================== *)

Module Process.

Import GoStrings.
Local Open Scope string_scope.

(** The fields of [imgspecv1.Image] the builder reads. *)
Record ImageConfig := mkImageConfig {
  Entrypoint : list string;
  Cmd : list string;
  Env : list string
}.

Record Image := mkImage { Config : ImageConfig }.

Definition apptainerLibs : string := "/.singularity.d/libs".

(** [getProcessArgs] (lines 75-93). [append] on slices is list
    concatenation. *)
Definition getProcessArgs (imageSpec : Image) (process : string)
    (args : list string) : list string :=
  let processArgs :=
    if negb (String.eqb process "") then [process]
    else Entrypoint (Config imageSpec) in
  if (0 <? length args)%nat then
    processArgs ++ args
  else
    if String.eqb process "" then processArgs ++ Cmd (Config imageSpec)
    else processArgs.

(** Modelled from the spec: [SetProcessEnv] of the launcher's [generate]
    package, which is not among the sources. The design document says that
    later writes overwrite earlier ones key-for-key and that the order is the
    first-seen order: the entry of [k] is overwritten in place when there is
    one and [k=v] is appended otherwise. *)
Fixpoint SetProcessEnv (k v : string) (env : list string) : list string :=
  match env with
  | [] => [k ++ "=" ++ v]
  | e :: env' =>
    if HasPrefix e (k ++ "=") then (k ++ "=" ++ v) :: env'
    else e :: SetProcessEnv k v env'
  end.

(** The local variables of [getProcessEnv] together with the environment
    held by the generator [g]. *)
Record EnvState := mkEnvState {
  path : string;
  appendPath : string;
  prependPath : string;
  ldLibraryPath : string;
  genEnv : list string
}.

(** One iteration of the first loop (lines 233-244), over the image ENV. *)
Definition scanImageEntry (st : EnvState) (env : string) : EnvState :=
  match SplitN_eq env with
  | None => st
  | Some (k, v) =>
    let st1 :=
      if String.eqb k "PATH"
      then mkEnvState v (appendPath st) (prependPath st) (ldLibraryPath st) (genEnv st)
      else st in
    if String.eqb k "LD_LIBRARY_PATH"
    then mkEnvState (path st1) (appendPath st1) (prependPath st1) v (genEnv st1)
    else st1
  end.

(** One iteration of the second loop (lines 247-260), over the runtime map. *)
Definition applyRuntimeEntry (st : EnvState) (kv : string * string) : EnvState :=
  let '(k, v) := kv in
  if String.eqb k "PATH" then
    mkEnvState v (appendPath st) (prependPath st) (ldLibraryPath st) (genEnv st)
  else if String.eqb k "APPEND_PATH" then
    mkEnvState (path st) v (prependPath st) (ldLibraryPath st) (genEnv st)
  else if String.eqb k "PREPEND_PATH" then
    mkEnvState (path st) (appendPath st) v (ldLibraryPath st) (genEnv st)
  else if String.eqb k "LD_LIBRARY_PATH" then
    mkEnvState (path st) (appendPath st) (prependPath st) v (genEnv st)
  else
    mkEnvState (path st) (appendPath st) (prependPath st) (ldLibraryPath st)
               (SetProcessEnv k v (genEnv st)).

(** Lines 263-268: the PATH after APPEND_PATH and PREPEND_PATH. *)
Definition composePath (path appendPath prependPath : string) : string :=
  let path1 := if String.eqb appendPath "" then path
               else path ++ ":" ++ appendPath in
  if String.eqb prependPath "" then path1
  else prependPath ++ ":" ++ path1.

(** Lines 274-276: LD_LIBRARY_PATH with the library directory ensured. *)
Definition ensureLibs (ldLibraryPath : string) : string :=
  if Contains ldLibraryPath apptainerLibs then ldLibraryPath
  else TrimPrefix (ldLibraryPath ++ ":" ++ apptainerLibs) ":".

(** The state after both loops, the runtime map being ranged over in the
    order [kvs]. *)
Definition envAfterLoops (imageEnv : list string)
    (kvs : list (string * string)) : EnvState :=
  let st0 := mkEnvState "" "" "" "" imageEnv in
  let st1 := fold_left scanImageEntry imageEnv st0 in
  fold_left applyRuntimeEntry kvs st1.

(** [getProcessEnv] (lines 222-280) for a given iteration order [kvs] of
    [range runtimeEnv]. *)
Definition getProcessEnv_ranged (imageSpec : Image)
    (kvs : list (string * string)) : list string :=
  let st := envAfterLoops (Env (Config imageSpec)) kvs in
  let path := composePath (path st) (appendPath st) (prependPath st) in
  let env1 := if String.eqb path "" then genEnv st
              else SetProcessEnv "PATH" path (genEnv st) in
  SetProcessEnv "LD_LIBRARY_PATH" (ensureLibs (ldLibraryPath st)) env1.

(** Go ranges over a map in an unspecified order: any sequence holding each
    binding of the map once is a possible order. *)
Definition range_order (m : gmap string string)
    (kvs : list (string * string)) : Prop :=
  kvs ≡ₚ map_to_list m.

(** [getProcessEnv], the order of [range runtimeEnv] being chosen by
    [rangeOf]. *)
Definition getProcessEnv (rangeOf : gmap string string -> list (string * string))
    (imageSpec : Image) (runtimeEnv : gmap string string) : list string :=
  getProcessEnv_ranged imageSpec (rangeOf runtimeEnv).

(** A choice of order for every map. *)
Definition range_policy
    (rangeOf : gmap string string -> list (string * string)) : Prop :=
  forall m, range_order m (rangeOf m).

(** What follows is used to state what [getProcessEnv] computes and is
    written without its loops. *)

(** The value an entry gives to the name [k]: what stands behind [k=], when
    the entry starts with it. *)
Definition declares (k e : string) : option string :=
  if HasPrefix e (k ++ "=")
  then Some (drop_chars (String.length (k ++ "=")) e)
  else None.

(** The value of the last entry of [env] named [k], found from the end of
    the list: an entry counts only when no entry behind it names [k]. *)
Fixpoint lastDeclared (k : string) (env : list string) : option string :=
  match env with
  | [] => None
  | e :: env' =>
    match lastDeclared k env' with
    | Some v => Some v
    | None => declares k e
    end
  end.

(** The entries of [env] named [k], in their order. *)
Definition named (k : string) (env : list string) : list string :=
  List.filter (fun e => HasPrefix e (k ++ "=")) env.

(** The value of PATH before APPEND_PATH and PREPEND_PATH are applied: the
    runtime PATH when there is one, else the last PATH of the image ENV,
    else the empty string. *)
Definition basePath (imageEnv : list string)
    (runtimeEnv : gmap string string) : string :=
  match runtimeEnv !! "PATH" with
  | Some v => v
  | None => default "" (lastDeclared "PATH" imageEnv)
  end.

(** The value of LD_LIBRARY_PATH before the library directory is ensured:
    the runtime value when there is one, else the last one of the image ENV,
    else the empty string. *)
Definition baseLdLibraryPath (imageEnv : list string)
    (runtimeEnv : gmap string string) : string :=
  match runtimeEnv !! "LD_LIBRARY_PATH" with
  | Some v => v
  | None => default "" (lastDeclared "LD_LIBRARY_PATH" imageEnv)
  end.

(** The directories a search path names: its parts between the colons, as
    [strings.Split(value, ":")] gives them. *)
Fixpoint searchPath (value : string) : list string :=
  match value with
  | EmptyString => [EmptyString]
  | String a value' =>
    if Ascii.eqb a ":"%char then EmptyString :: searchPath value'
    else String a (hd EmptyString (searchPath value')) :: tl (searchPath value')
  end.

(** How many times the search path [value] names the directory [dir]. *)
Definition timesNamed (dir value : string) : nat :=
  length (List.filter (String.eqb dir) (searchPath value)).

(** The PATH as the design document words it: the non-empty segments among
    PREPEND_PATH, the base PATH and APPEND_PATH, joined by ":". Only used to
    compare with [composePath]. *)
Definition documentedPath (prependPath base appendPath : string) : string :=
  String.concat ":"
    (List.filter (fun s => negb (String.eqb s ""))
                 [prependPath; base; appendPath]).

(** The four keys the second loop does not hand to [SetProcessEnv]. *)
Definition special_key (k : string) : bool :=
  String.eqb k "PATH" || String.eqb k "APPEND_PATH" ||
  String.eqb k "PREPEND_PATH" || String.eqb k "LD_LIBRARY_PATH".

(** Every key of the map is free of "=", as the name of an environment
    variable is. *)
Definition keys_lack_eq (m : gmap string string) : bool :=
  forallb (fun kv => lacks "="%char (fst kv)) (map_to_list m).

(** *** [getProcess] and the sources of the runtime environment *)

(** [specs.User] and [specs.Process], with the fields the builder sets. *)
Record User := mkUser { UID : Z; GID : Z }.

Record ProcessSpec := mkProcess {
  PArgs : list string;
  PCwd : string;
  PEnv : list string;
  PUser : User;
  PTerminal : bool
}.

(** The launcher options read here ([l.cfg]). *)
Record Options := mkOptions {
  EnvFile : string;
  CfgEnv : gmap string string;
  Fakeroot : bool
}.

(** What the builder asks of the host. [Err] is the type of the errors the
    collaborators return. *)
Record Host (Err : Type) := mkHost {
  Environ : list string;                      (* os.Environ() *)
  ReadFile : string -> string + Err;          (* os.ReadFile *)
  EvaluateEnv : string -> list string + Err;  (* interpreter.EvaluateEnv *)
  CurrentOriginalDir : string + Err;          (* user.CurrentOriginal().Dir *)
  Getuid : Z;
  Getgid : Z;
  StdinIsTerminal : bool;                     (* term.IsTerminal(Stdin) *)
  rangeOf : gmap string string -> list (string * string)
}.

Arguments Environ {Err} _.
Arguments ReadFile {Err} _ _.
Arguments EvaluateEnv {Err} _ _.
Arguments CurrentOriginalDir {Err} _.
Arguments Getuid {Err} _.
Arguments Getgid {Err} _.
Arguments StdinIsTerminal {Err} _.
Arguments rangeOf {Err} _ _.

(** The errors of [getProcess]: the two wrapped errors of [envFileMap] and
    the error of the user lookup, passed through. *)
Inductive ProcessError (Err : Type) :=
  | CouldNotReadEnvFile (f : string) (e : Err)
  | WhileProcessingEnvFile (f : string) (e : Err)
  | UserLookupFailed (e : Err).

Arguments CouldNotReadEnvFile {Err} f e.
Arguments WhileProcessingEnvFile {Err} f e.
Arguments UserLookupFailed {Err} e.

Section Launcher.

(** [env.ApptainerPrefix] and [env.ApptainerEnvPrefix] are constants of a
    package that is not among the sources; they are parameters here. *)
Variable ApptainerPrefix : string.
Variable ApptainerEnvPrefix : string.

Context {Err : Type}.
Variable host : Host Err.

(** [defaultEnv] (lines 283-288). *)
Definition defaultEnv (image bundle : string) : gmap string string :=
  <[ApptainerPrefix ++ "NAME" := image]>
    (<[ApptainerPrefix ++ "CONTAINER" := bundle]> ∅).

(** Modelled from the spec: [mergeMap] is not among the sources. The design
    document says that later sources overwrite earlier ones key-for-key: the
    bindings of [b] are written over those of [a]. *)
Definition mergeMap (a b : gmap string string) : gmap string string :=
  b ∪ a.

(** One iteration of the loop of [apptainerEnvMap] (lines 294-304). *)
Definition apptainerEnvEntry (m : gmap string string) (envVar : string)
    : gmap string string :=
  if negb (HasPrefix envVar ApptainerEnvPrefix) then m
  else match SplitN_eq envVar with
       | None => m
       | Some (k0, v) => <[TrimPrefix k0 ApptainerEnvPrefix := v]> m
       end.

(** [apptainerEnvMap] (lines 291-307). *)
Definition apptainerEnvMap : gmap string string :=
  fold_left apptainerEnvEntry (Environ host) ∅.

(** The variables the shell interpreter sets by itself (lines 331-336). *)
Definition shell_artifact (k : string) : bool :=
  String.eqb k "GID" || String.eqb k "HOME" || String.eqb k "IFS" ||
  String.eqb k "OPTIND" || String.eqb k "PWD" || String.eqb k "UID".

(** One iteration of the loop of [envFileMap] (lines 325-340). *)
Definition envFileEntry (m : gmap string string) (envVar : string)
    : gmap string string :=
  match SplitN_eq envVar with
  | None => m
  | Some (k, v) => if shell_artifact k then m else <[k := v]> m
  end.

(** [envFileMap] (lines 310-343): the map and the error, as in Go. *)
Definition envFileMap (f : string)
    : gmap string string * option (ProcessError Err) :=
  match ReadFile host f with
  | inr e => (∅, Some (CouldNotReadEnvFile f e))
  | inl content =>
    match EvaluateEnv host content with
    | inr e => (∅, Some (WhileProcessingEnvFile f e))
    | inl env => (fold_left envFileEntry env ∅, None)
    end
  end.

(** [getProcessTerminal] (lines 65-71). *)
Definition getProcessTerminal : bool :=
  if StdinIsTerminal host then true else false.

(** [getProcessUser] (lines 98-109). *)
Definition getProcessUser (cfg : Options) : User :=
  if Fakeroot cfg then mkUser 0 0
  else mkUser (Getuid host) (Getgid host).

(** [getProcessCwd] (lines 113-123). *)
Definition getProcessCwd (cfg : Options) : string + ProcessError Err :=
  if Fakeroot cfg then inl "/root"
  else match CurrentOriginalDir host with
       | inr e => inr (UserLookupFailed e)
       | inl dir => inl dir
       end.

(** Lines 34-46 of [getProcess]: the runtime environment, or the error of
    the environment file. *)
Definition runtimeEnvOf (cfg : Options) (image bundle : string)
    : gmap string string + ProcessError Err :=
  let rtEnv := defaultEnv image bundle in
  let rtEnv := mergeMap rtEnv apptainerEnvMap in
  if negb (String.eqb (EnvFile cfg) "") then
    match envFileMap (EnvFile cfg) with
    | (_, Some err) => inr err
    | (e, None) => inl (mergeMap (mergeMap rtEnv e) (CfgEnv cfg))
    end
  else inl (mergeMap rtEnv (CfgEnv cfg)).

(** [getProcess] (lines 31-62). *)
Definition getProcess (cfg : Options) (imgSpec : Image)
    (image bundle process : string) (args : list string)
    : ProcessSpec + ProcessError Err :=
  match runtimeEnvOf cfg image bundle with
  | inr err => inr err
  | inl rtEnv =>
    match getProcessCwd cfg with
    | inr err => inr err
    | inl cwd =>
      inl (mkProcess (getProcessArgs imgSpec process args)
                     cwd
                     (getProcessEnv (rangeOf host) imgSpec rtEnv)
                     (getProcessUser cfg)
                     getProcessTerminal)
    end
  end.

(** The bindings the environment file contributes: none without a file. *)
Definition envFileBindings (cfg : Options) : gmap string string :=
  if String.eqb (EnvFile cfg) "" then ∅ else fst (envFileMap (EnvFile cfg)).

(** The value of [k] after the three later sources have been written over
    the default [d], the highest source first. *)
Definition overridden (cfg : Options) (k d : string) : string :=
  match CfgEnv cfg !! k with
  | Some v => v
  | None =>
    match envFileBindings cfg !! k with
    | Some v => v
    | None =>
      match apptainerEnvMap !! k with
      | Some v => v
      | None => d
      end
    end
  end.

End Launcher.

(** The binding one variable of the calling environment contributes to
    [apptainerEnvMap] (lines 295-303), if any. *)
Definition prefixedBinding (envprefix envVar : string)
    : option (string * string) :=
  if HasPrefix envVar envprefix then
    match SplitN_eq envVar with
    | Some (k0, v) => Some (TrimPrefix k0 envprefix, v)
    | None => None
    end
  else None.

(** The binding one line of the evaluated environment file contributes to
    [envFileMap] (lines 326-339), if any. *)
Definition fileBinding (envVar : string) : option (string * string) :=
  match SplitN_eq envVar with
  | Some (k, v) => if shell_artifact k then None else Some (k, v)
  | None => None
  end.

(** [l] ends with a last entry that binds [k], and binds it to [v]. *)
Definition last_binding (b : string -> option (string * string))
    (l : list string) (k v : string) : Prop :=
  exists (l1 : list string) (e : string) (l2 : list string),
    l = (l1 ++ e :: l2)%list /\ b e = Some (k, v) /\
    Forall (fun e' => forall v', b e' <> Some (k, v')) l2.

(** The value of [k] in the highest of the four sources of the runtime
    environment that binds it: explicit overrides, environment file,
    prefixed variables, defaults. *)
Definition sourceValue {Err : Type} (prefix envprefix : string)
    (host : Host Err) (cfg : Options) (image bundle k : string)
    : option string :=
  match CfgEnv cfg !! k with
  | Some v => Some v
  | None =>
    match envFileBindings host cfg !! k with
    | Some v => Some v
    | None =>
      match apptainerEnvMap envprefix host !! k with
      | Some v => Some v
      | None => defaultEnv prefix image bundle !! k
      end
    end
  end.

(** The environment without its first entry named [k]: the entry a write
    of [k] overwrites. *)
Fixpoint dropEntry (k : string) (env : list string) : list string :=
  match env with
  | [] => []
  | e :: env' =>
    if HasPrefix e (k ++ "=") then env' else e :: dropEntry k env'
  end.

(** A sequence of writes, first to last. *)
Definition writeAll (kvs : list (string * string)) (env : list string)
    : list string :=
  fold_left (fun env kv => SetProcessEnv (fst kv) (snd kv) env) kvs env.

(** The entries of the environment that a sequence of writes leaves. *)
Definition keptEntries (kvs : list (string * string)) (env : list string)
    : list string :=
  fold_left (fun env kv => dropEntry (fst kv) env) kvs env.

(** The writes [getProcessEnv] makes, in order, when the map is ranged over
    in the order [kvs]: the keys that are not special, then PATH when it is
    not empty, then LD_LIBRARY_PATH. *)
Definition writesOf (imageSpec : Image) (kvs : list (string * string))
    : list (string * string) :=
  let st := envAfterLoops (Env (Config imageSpec)) kvs in
  let path := composePath (path st) (appendPath st) (prependPath st) in
  List.filter (fun kv => negb (special_key (fst kv))) kvs ++
  (if String.eqb path "" then [] else [("PATH", path)]) ++
  [("LD_LIBRARY_PATH", ensureLibs (ldLibraryPath st))].

(** The entry a binding writes. *)
Definition entryOf (kv : string * string) : string :=
  fst kv ++ "=" ++ snd kv.

(** Bindings with pairwise different names, each free of "=". *)
Definition clean_bindings (kvs : list (string * string)) : Prop :=
  NoDup kvs.*1 /\ Forall (fun kv => lacks "="%char (fst kv) = true) kvs.

(** A host for the examples: one prefixed variable in the calling
    environment, no readable environment file, a home directory. *)
Definition sample_host : Host string :=
  mkHost string
    ["APPTAINERENV_FOO=bar"; "SHELL=/bin/sh"]
    (fun _ => inr "no such file")
    (fun _ => inl [])
    (inl "/home/user")
    1001 1001 false
    map_to_list.

Definition sample_options : Options := mkOptions "" (<["BAZ" := "1"]> ∅) false.

(** A host and options that override nothing: no prefixed variable, no
    environment file, no explicit override. *)
Definition bare_host : Host string :=
  mkHost string
    ["SHELL=/bin/sh"]
    (fun _ => inr "no such file")
    (fun _ => inl [])
    (inl "/home/user")
    1001 1001 false
    map_to_list.

Definition bare_options : Options := mkOptions "" ∅ false.

End Process.

(* ===================================================================== *)
(** ** CDI device injector ([addCDIDevices]) *)
(* ===================================================================== *)

Module CDI.

Local Open Scope string_scope.

(** [specs.LinuxDevice] and [specs.Mount]. *)
Record LinuxDevice := mkDevice {
  DevPath : string;
  DevType : string;
  Major : Z;
  Minor : Z;
  FileMode : option Z;
  DevUID : option Z;
  DevGID : option Z
}.

Record Mount := mkMount {
  Source : string;
  Destination : string;
  MountType : string;
  MountOptions : list string
}.

(** What one resolved device contributes. *)
Record ContainerEdits := mkEdits {
  EditEnv : list string;
  EditDevices : list LinuxDevice;
  EditMounts : list Mount
}.

(** The parts of [specs.Spec] the injector changes. *)
Record Spec := mkSpec {
  ProcessEnv : list string;
  Devices : list LinuxDevice;
  Mounts : list Mount
}.

Inductive CDIError := DeviceNotFound (name : string).

(** [minimalSpec()] of the test: nothing mounted, no device, no variable. *)
Definition minimalSpec : Spec := mkSpec [] [] [].

(** The order of [mountsList.Less] in the test: by destination, as strings. *)
Definition dest_le (a b : Mount) : Prop :=
  String.leb (Destination a) (Destination b) = true.

Fixpoint insertMount (m : Mount) (l : list Mount) : list Mount :=
  match l with
  | [] => [m]
  | x :: l' =>
    if String.leb (Destination m) (Destination x) then m :: x :: l'
    else x :: insertMount m l'
  end.

(** Modelled from the spec: the destination-path sort of the mounts, which
    the underlying library performs; the library is not among the sources. *)
Definition sortMounts (l : list Mount) : list Mount :=
  foldr insertMount [] l.

(** Modelled from the spec: the edits of a resolved device are merged into
    the spec by concatenation (section 4.4 of the design document: devices
    and mounts of the resolved names are concatenated, variables are
    appended to the process environment, mounts of equal destination stay
    distinct entries). *)
Definition applyEdits (s : Spec) (e : ContainerEdits) : Spec :=
  mkSpec (ProcessEnv s ++ EditEnv e)
         (Devices s ++ EditDevices e)
         (Mounts s ++ EditMounts e).

(** Modelled from the spec: names are resolved in the order given against
    the registry read from the spec directories; the first unknown name
    fails the call with a device-not-found error, the spec keeping what the
    names before it contributed. *)
Fixpoint resolveDevices (reg : gmap string ContainerEdits) (s : Spec)
    (names : list string) : Spec * option CDIError :=
  match names with
  | [] => (s, None)
  | n :: rest =>
    match reg !! n with
    | None => (s, Some (DeviceNotFound n))
    | Some e => resolveDevices reg (applyEdits s e) rest
    end
  end.

(** Modelled from the spec: [addCDIDevices], whose source file is not among
    the sources (only its test is). The spec argument is changed in place:
    the function returns the spec as it is left and the error. On success
    the mounts are sorted by destination. *)
Definition addCDIDevices (reg : gmap string ContainerEdits) (s : Spec)
    (cdiDevices : list string) : Spec * option CDIError :=
  match resolveDevices reg s cdiDevices with
  | (s', Some err) => (s', Some err)
  | (s', None) => (mkSpec (ProcessEnv s') (Devices s') (sortMounts (Mounts s')), None)
  end.

(** The mounts the names contribute, in the order given. *)
Definition contributedMounts (reg : gmap string ContainerEdits)
    (names : list string) : list Mount :=
  concat (map (fun n => match reg !! n with
                        | Some e => EditMounts e
                        | None => []
                        end) names).

(** Every name resolves. *)
Definition all_resolve (reg : gmap string ContainerEdits)
    (names : list string) : Prop :=
  Forall (fun n => is_Some (reg !! n)) names.

(** The registry of the test directory, read off the expectations of
    [Test_addCDIDevice]; the CDI files themselves are not among the
    sources. *)
Definition tmpMount (dest : string) (opts : list string) : Mount :=
  mkMount "/tmp" dest "" opts.

Definition kmsgDevice : ContainerEdits :=
  mkEdits ["FOO=VALID_SPEC"; "BAR=BARVALUE1"]
          [mkDevice "/dev/kmsg" "c" 1 11 None (Some 1000%Z) (Some 1000%Z)]
          [tmpMount "/tmpmountforkmsg" ["rw"]].

Definition tmpmountDevice17 : ContainerEdits :=
  mkEdits ["FOO=VALID_SPEC"; "BAR=BARVALUE1"] []
          [tmpMount "/tmpmount17" ["r"]].

Definition tmpmountDevice1 : ContainerEdits :=
  mkEdits ["ABCD=QWERTY"; "EFGH=ASDFGH"; "IJKL=ZXCVBN"] []
          [tmpMount "/tmpmount1" ["ro"];
           tmpMount "/tmpmount3" ["rbind"; "nosuid"; "nodev"];
           tmpMount "/tmpmount13" ["rw"]].

Definition testRegistry : gmap string ContainerEdits :=
  <["apptainertesting.sylabs.io/device=kmsgDevice" := kmsgDevice]>
  (<["apptainertesting.sylabs.io/device=tmpmountDevice17" := tmpmountDevice17]>
  (<["apptainertesting.sylabs.io/device=tmpmountDevice1" := tmpmountDevice1]> ∅)).

End CDI.

(* ===================================================================== *)
(** ** Runtime lifecycle driver ([OciDelete]) *)
(* ===================================================================== *)

Module Lifecycle.

Local Open Scope string_scope.

(** The effects of [OciDelete] on the outside, in the order they happen. *)
Inductive Call :=
  | RuncExec (bin : string) (args : list string)
  | EvalSymlinks (path : string)
  | Remove (path : string)
  | ReleaseBundle (bundle : string).

(** The local bookkeeping: the symbolic links of the state directories, the
    bundles whose lock is held, and the calls made so far (oldest first). *)
Record World := mkWorld {
  symlinks : gmap string string;
  locks : gset string;
  calls : list Call
}.

(** What the function needs from its surroundings. [RuncStateDir] and
    [bundleLink] are constants of the package and [stateDir] a function of
    it, none of them among the sources; [FindBin] locates the runtime and
    [RuncRun] is the outcome of running it ([None] for exit status 0).
    [TargetExists] tells whether the file a link points to is there, so that
    [filepath.EvalSymlinks] can follow the link, and [RemoveRefused] whether
    the system refuses to remove a path (permissions, a read-only file
    system). *)
Record Surroundings (Err : Type) := mkSurroundings {
  RuncStateDir : string;
  bundleLink : string;
  FindBin : string -> string + Err;
  RuncRun : string -> list string -> option Err;
  stateDir : string -> string + Err;
  Join : string -> string -> string;
  TargetExists : string -> bool;
  RemoveRefused : string -> bool
}.

Arguments RuncStateDir {Err} _.
Arguments bundleLink {Err} _.
Arguments FindBin {Err} _ _.
Arguments RuncRun {Err} _ _ _.
Arguments stateDir {Err} _ _.
Arguments Join {Err} _ _ _.
Arguments TargetExists {Err} _ _.
Arguments RemoveRefused {Err} _ _.

(** The errors of [OciDelete], one per return statement. *)
Inductive DeleteError (Err : Type) :=
  | FindBinFailed (e : Err)
  | WhileCallingRuncDelete (e : Err)
  | WhileComputingStateDir (e : Err)
  | WhileFindingBundleDir (path : string)
  | WhileRemovingBundleSymlink (path : string)
  | ReleaseBundleFailed (bundle : string).

Arguments FindBinFailed {Err} e.
Arguments WhileCallingRuncDelete {Err} e.
Arguments WhileComputingStateDir {Err} e.
Arguments WhileFindingBundleDir {Err} path.
Arguments WhileRemovingBundleSymlink {Err} path.
Arguments ReleaseBundleFailed {Err} bundle.

Definition record (c : Call) (w : World) : World :=
  mkWorld (symlinks w) (locks w) (calls w ++ [c]).

(** What a link of the state directory resolves to: nothing when there is
    no link at [path], and nothing when the link dangles. *)
Definition resolved (targetExists : string -> bool) (path : string)
    (w : World) : option string :=
  match symlinks w !! path with
  | Some target => if targetExists target then Some target else None
  | None => None
  end.

(** [filepath.EvalSymlinks] on a link of the state directory: it fails when
    the link is missing and when what it points to is missing. *)
Definition evalSymlinks (targetExists : string -> bool) (path : string)
    (w : World) : World * option string :=
  (record (EvalSymlinks path) w, resolved targetExists path w).

(** [os.Remove] on a link: it fails when there is nothing to remove and when
    the system refuses; the link is then left as it is. *)
Definition osRemove (refused : string -> bool) (path : string) (w : World)
    : World * bool :=
  let w1 := record (Remove path) w in
  match symlinks w !! path with
  | Some _ =>
    if refused path then (w1, false)
    else (mkWorld (delete path (symlinks w1)) (locks w1) (calls w1), true)
  | None => (w1, false)
  end.

(** Modelled from the spec: [releaseBundle] is not among the sources; it
    releases the lock held on the bundle and fails when none is held. *)
Definition releaseBundle (bundle : string) (w : World) : World * bool :=
  let w1 := record (ReleaseBundle bundle) w in
  if decide (bundle ∈ locks w)
  then (mkWorld (symlinks w1) (locks w1 ∖ {[bundle]}) (calls w1), true)
  else (w1, false).

Section Delete.

Context {Err : Type}.
Variable env : Surroundings Err.

(** The argument vector of line 29. *)
Definition runcArgs (containerID : string) : list string :=
  ["--root"; RuncStateDir env; "delete"; containerID].

(** [OciDelete] (lines 24-63): the world it leaves and the error. *)
Definition OciDelete (containerID : string) (w : World)
    : World * option (DeleteError Err) :=
  match FindBin env "runc" with
  | inr err => (w, Some (FindBinFailed err))
  | inl runc =>
    let w1 := record (RuncExec runc (runcArgs containerID)) w in
    match RuncRun env runc (runcArgs containerID) with
    | Some err => (w1, Some (WhileCallingRuncDelete err))
    | None =>
      match stateDir env containerID with
      | inr err => (w1, Some (WhileComputingStateDir err))
      | inl sd =>
        let bLink := Join env sd (bundleLink env) in
        match evalSymlinks (TargetExists env) bLink w1 with
        | (w2, None) => (w2, Some (WhileFindingBundleDir bLink))
        | (w2, Some bundle) =>
          match osRemove (RemoveRefused env) bLink w2 with
          | (w3, false) => (w3, Some (WhileRemovingBundleSymlink bLink))
          | (w3, true) =>
            match releaseBundle bundle w3 with
            | (w4, false) => (w4, Some (ReleaseBundleFailed bundle))
            | (w4, true) => (w4, None)
            end
          end
        end
      end
    end
  end.

End Delete.

(** Surroundings for the examples: the runtime is found; it fails for the
    container "broken" and succeeds otherwise; the bundle /tmp/gone has been
    deleted behind the back of the runtime, and the state directory of the
    container "pinned" is read-only. *)
Definition sample_surroundings : Surroundings string :=
  mkSurroundings string
    "/run/apptainer-oci"
    "bundle"
    (fun name => inl ("/usr/bin/" ++ name))
    (fun _ args => if bool_decide (args = ["--root"; "/run/apptainer-oci"; "delete"; "broken"])
                   then Some "exit status 1" else None)
    (fun id => inl ("/run/apptainer-oci/state/" ++ id))
    (fun a b => a ++ "/" ++ b)
    (fun target => negb (String.eqb target "/tmp/gone"))
    (fun path => String.eqb path "/run/apptainer-oci/state/pinned/bundle").

(** A world with two containers created, each with its link and lock. *)
Definition sample_world : World :=
  mkWorld
    (<["/run/apptainer-oci/state/c1/bundle" := "/tmp/bundle1"]>
     (<["/run/apptainer-oci/state/broken/bundle" := "/tmp/bundle2"]> ∅))
    ({["/tmp/bundle1"]} ∪ {["/tmp/bundle2"]})
    [].

(** A world with a container whose bundle is gone and one whose link cannot
    be removed. *)
Definition stale_world : World :=
  mkWorld
    (<["/run/apptainer-oci/state/stale/bundle" := "/tmp/gone"]>
     (<["/run/apptainer-oci/state/pinned/bundle" := "/tmp/bundle3"]> ∅))
    ({["/tmp/gone"]} ∪ {["/tmp/bundle3"]})
    [].

End Lifecycle.

(* ===================================================================== *)
(** ** Action commands ([actionPreRun], [replaceURIWithImage],
       [launchContainer]) *)
(* ===================================================================== *)

Module Actions.

Import GoStrings.
Local Open Scope string_scope.

Definition defaultPath : string :=
  "/bin:/usr/bin:/sbin:/usr/sbin:/usr/local/bin:/usr/local/sbin".

(** The package-level flag variables the three functions read or write. *)
Record Flags := mkFlags {
  isCompat : bool;
  isContainAll : bool;
  isWritableTmpfs : bool;
  noInit : bool;
  noUmask : bool;
  noEval : bool;
  hostname : string;
  utsNamespace : bool;
  userNamespace : bool;
  netNamespace : bool;
  pidNamespace : bool;
  ipcNamespace : bool;
  ociRuntime : bool;
  noHTTPS : bool;
  disableCache : bool
}.

(** The five functions that fetch an image. *)
Inductive Handler := HLibrary | HOras | HShub | HOCI | HNet.

(** What the functions do to the outside, in the order it happens. *)
Inductive Effect :=
  | NewCacheHandle (disable : bool)
  | DockerCredentials
  | LibraryClientConfig (libraryURI : string)
  | Pull (h : Handler) (pullFrom : string).

(** The state of the process: the flags, its environment ([os.Getenv],
    [os.Setenv]) and the effects so far (oldest first). *)
Record State := mkState {
  flags : Flags;
  environ : gmap string string;
  effects : list Effect
}.

(** An error a handler returns: the error of a collaborator, or the
    wrapped error of [handleOras]. *)
Inductive HandleError (Err : Type) :=
  | Plain (e : Err)
  | WhileCreatingDockerCredentials (e : Err).

Arguments Plain {Err} e.
Arguments WhileCreatingDockerCredentials {Err} e.

(** The calls of [sylog.Fatalf], which end the process. *)
Inductive FatalReason (Err : Type) :=
  | FailedToCreateCacheHandle (e : Err)
  | NilCacheHandle
  | DockerCredentialsFailed (e : Err)
  | UnsupportedTransport (t : string)
  | UnableToHandleURI (uri : string) (e : HandleError Err).

Arguments FailedToCreateCacheHandle {Err} e.
Arguments NilCacheHandle {Err}.
Arguments DockerCredentialsFailed {Err} e.
Arguments UnsupportedTransport {Err} t.
Arguments UnableToHandleURI {Err} uri e.

(** How a call ends: it returns, the process is ended by [sylog.Fatalf], or
    the runtime panics on an index out of range. *)
Inductive Outcome (Err A : Type) :=
  | Returned (a : A)
  | Fatal (r : FatalReason Err)
  | Panic.

Arguments Returned {Err A} a.
Arguments Fatal {Err A} r.
Arguments Panic {Err A}.

(** The collaborators, none of them among the sources: [uri.Split] and the
    transport names of package [uri], [oci.IsSupported], the cache, the
    credentials and the clients that pull. [cacheNew] may return a nil
    handle ([false]); [normalizeLibraryRef] returns the host of the
    reference. Each pull is given the flags it reads. *)
Record Services (Err : Type) := mkServices {
  Split : string -> string * string;
  IsSupported : string -> string;
  Library : string;
  Oras : string;
  Shub : string;
  HTTP : string;
  HTTPS : string;
  cacheNew : gmap string string -> bool -> bool + Err;
  makeDockerCredentials : option Err;
  normalizeLibraryRef : string -> string + Err;
  getLibraryClientConfig : string -> option Err;
  pull : Handler -> string -> Flags -> string + Err
}.

Arguments Split {Err} _ _.
Arguments IsSupported {Err} _ _.
Arguments Library {Err} _.
Arguments Oras {Err} _.
Arguments Shub {Err} _.
Arguments HTTP {Err} _.
Arguments HTTPS {Err} _.
Arguments cacheNew {Err} _ _ _.
Arguments makeDockerCredentials {Err} _.
Arguments normalizeLibraryRef {Err} _ _.
Arguments getLibraryClientConfig {Err} _ _.
Arguments pull {Err} _ _ _ _.

Definition Getenv (st : State) (k : string) : string :=
  default "" (environ st !! k).

Definition Setenv (k v : string) (st : State) : State :=
  mkState (flags st) (<[k := v]> (environ st)) (effects st).

Definition did (e : Effect) (st : State) : State :=
  mkState (flags st) (environ st) (effects st ++ [e]).

Definition setFlags (f : Flags) (st : State) : State :=
  mkState f (environ st) (effects st).

Section Run.

Context {Err : Type}.
Variable svc : Services Err.

(** A handler returns the state it leaves and the image or the error, or
    ends the process. *)
Definition Handled : Type :=
  Outcome Err (State * (string + HandleError Err)).

Definition pulled (h : Handler) (pullFrom : string) (st : State) : Handled :=
  let st1 := did (Pull h pullFrom) st in
  match pull svc h pullFrom (flags st) with
  | inl image => Returned (st1, inl image)
  | inr e => Returned (st1, inr (Plain e))
  end.

(** [handleOCI] (lines 90-105). *)
Definition handleOCI (pullFrom : string) (st : State) : Handled :=
  let st1 := did DockerCredentials st in
  match makeDockerCredentials svc with
  | Some e => Fatal (DockerCredentialsFailed e)
  | None => pulled HOCI pullFrom st1
  end.

(** [handleOras] (lines 107-113). *)
Definition handleOras (pullFrom : string) (st : State) : Handled :=
  let st1 := did DockerCredentials st in
  match makeDockerCredentials svc with
  | Some e => Returned (st1, inr (WhileCreatingDockerCredentials e))
  | None => pulled HOras pullFrom st1
  end.

(** The library URI of lines 122-129. *)
Definition libraryURIOf (f : Flags) (host : string) : string :=
  if negb (String.eqb host "") then
    if noHTTPS f then "http://" ++ host else "https://" ++ host
  else "".

(** [handleLibrary] (lines 115-136). *)
Definition handleLibrary (pullFrom : string) (st : State) : Handled :=
  match normalizeLibraryRef svc pullFrom with
  | inr e => Returned (st, inr (Plain e))
  | inl host =>
    let libraryURI := libraryURIOf (flags st) host in
    let st1 := did (LibraryClientConfig libraryURI) st in
    match getLibraryClientConfig svc libraryURI with
    | Some e => Returned (st1, inr (Plain e))
    | None => pulled HLibrary pullFrom st1
    end
  end.

(** [handleShub] (lines 138-140) and [handleNet] (lines 142-144). *)
Definition handleShub (pullFrom : string) (st : State) : Handled :=
  pulled HShub pullFrom st.

Definition handleNet (pullFrom : string) (st : State) : Handled :=
  pulled HNet pullFrom st.

(** The [switch] of lines 163-178: the cases are tried from the top. *)
Definition dispatch (t pullFrom : string) (st : State) : Handled :=
  if String.eqb t (Library svc) then handleLibrary pullFrom st
  else if String.eqb t (Oras svc) then handleOras pullFrom st
  else if String.eqb t (Shub svc) then handleShub pullFrom st
  else if String.eqb t (IsSupported svc t) then handleOCI pullFrom st
  else if String.eqb t (HTTP svc) then handleNet pullFrom st
  else if String.eqb t (HTTPS svc) then handleNet pullFrom st
  else Fatal (UnsupportedTransport t).

(** [replaceURIWithImage] (lines 146-190), with [getCacheHandle] (lines
    43-54) in place. The slice [args] is changed in place: the function
    gives back the state and the slice as they are left. *)
Definition replaceURIWithImage (st : State) (args : list string)
    : Outcome Err (State * list string) :=
  match args with
  | [] => Panic
  | a0 :: rest =>
    let t := fst (Split svc a0) in
    if String.eqb t "instance" || String.eqb t "" then Returned (st, args)
    else
      let st1 := did (NewCacheHandle (disableCache (flags st))) st in
      match cacheNew svc (environ st) (disableCache (flags st)) with
      | inr e => Fatal (FailedToCreateCacheHandle e)
      | inl false => Fatal NilCacheHandle
      | inl true =>
        match dispatch t a0 st1 with
        | Fatal r => Fatal r
        | Panic => Panic
        | Returned (st2, inr err) => Fatal (UnableToHandleURI a0 err)
        | Returned (st2, inl image) =>
          let image := if ociRuntime (flags st2) then "oci-sif:" ++ image
                       else image in
          Returned (st2, image :: rest)
        end
      end
  end.

(** The flags after the inference of lines 74-85. *)
Definition inferFlags (f : Flags) : Flags :=
  let f1 :=
    if isCompat f then
      mkFlags (isCompat f) true true true true true
              (hostname f) (utsNamespace f) (userNamespace f) (netNamespace f)
              (pidNamespace f) (ipcNamespace f) (ociRuntime f) (noHTTPS f)
              (disableCache f)
    else f in
  if (0 <? String.length (hostname f1))%nat then
    mkFlags (isCompat f1) (isContainAll f1) (isWritableTmpfs f1) (noInit f1)
            (noUmask f1) (noEval f1) (hostname f1) true (userNamespace f1)
            (netNamespace f1) (pidNamespace f1) (ipcNamespace f1)
            (ociRuntime f1) (noHTTPS f1) (disableCache f1)
  else f1.

(** [actionPreRun] (lines 62-88). *)
Definition actionPreRun (st : State) (args : list string)
    : Outcome Err (State * list string) :=
  let userPath := Getenv st "PATH" ++ ":" ++ defaultPath in
  let st1 := Setenv "USER_PATH" userPath st in
  match args with
  | [] => Panic
  | a0 :: _ =>
    let st2 := Setenv "IMAGE_ARG" a0 st1 in
    let st3 := setFlags (inferFlags (flags st2)) st2 in
    replaceURIWithImage st3 args
  end.

End Run.

(** An effect that is not a pull. *)
Definition not_a_pull (e : Effect) : Prop := forall h u, e <> Pull h u.

(** What a handler leaves when it returns an image: the flags and the
    environment as they were, and one pull of [pullFrom] after at most one
    preparing effect. *)
Definition one_pull {Err : Type} (svc : Services Err) (pullFrom : string)
    (st st' : State) (image : string) : Prop :=
  flags st' = flags st /\ environ st' = environ st /\
  exists h pre,
    effects st' = (effects st ++ pre ++ [Pull h pullFrom])%list /\
    Forall not_a_pull pre /\
    pull svc h pullFrom (flags st) = inl image.

(** Services for the examples: the transport is what stands before "://",
    docker is the one supported OCI transport, every pull gives a file under
    /cache. *)
Definition sample_split (s : string) : string * string :=
  if HasPrefix s "docker://" then ("docker", drop_chars 9 s)
  else if HasPrefix s "instance://" then ("instance", drop_chars 11 s)
  else ("", s).

Definition sample_services : Services string :=
  mkServices string
    sample_split
    (fun t => if String.eqb t "docker" then "docker" else "")
    "library" "oras" "shub" "http" "https"
    (fun _ _ => inl true)
    None
    (fun _ => inl "")
    (fun _ => None)
    (fun _ _ _ => inl "/cache/image.sif").

Definition sample_flags : Flags :=
  mkFlags true false false false false false "" false false false false false
          true false false.

Definition sample_state : State :=
  mkState sample_flags (<["PATH" := "/usr/bin"]> ∅) [].

End Actions.

(* ===================================================================== *)
(** ** Properties of the id mapper *)
(* ===================================================================== *)

Module IDMapProps.

Import IDMap.
Local Open Scope Z_scope.

Lemma add32_small (a b : Z) :
  0 <= a + b < uint32_modulus -> add32 a b = a + b.
Proof. intros H. unfold add32, wrap32. now apply Z.mod_small. Qed.

Lemma sub32_small (a b : Z) :
  0 <= a - b < uint32_modulus -> sub32 a b = a - b.
Proof. intros H. unfold sub32, wrap32. now apply Z.mod_small. Qed.

Lemma uint32_modulus_value : uint32_modulus = 4294967296.
Proof. reflexivity. Qed.

(** In the three-range branch no [uint32] operation wraps. *)
Lemma reverseMap_lt (id size : Z) :
  is_uint32 id -> is_uint32 size -> id < size ->
  reverseMap id size =
    [ mkMapping 0 1 id; mkMapping id 0 1;
      mkMapping (id + 1) (id + 1) (size - id) ].
Proof.
  unfold is_uint32. rewrite uint32_modulus_value. intros Hid Hsz Hlt.
  unfold reverseMap.
  destruct (Z.ltb_spec id size) as [_ | Hge]; [| lia].
  rewrite add32_small, sub32_small; rewrite ?uint32_modulus_value; try lia.
  reflexivity.
Qed.

Lemma reverseMap_ge (id size : Z) :
  size <= id ->
  reverseMap id size = [ mkMapping 0 1 size; mkMapping id 0 1 ].
Proof.
  intros Hge. unfold reverseMap.
  destruct (Z.ltb_spec id size) as [Hlt | _]; [lia | reflexivity].
Qed.

Lemma in_container_range_spec (c : Z) (r : LinuxIDMapping) :
  in_container_range c r = true <->
  ContainerID r <= c < ContainerID r + Size r.
Proof.
  unfold in_container_range. rewrite andb_true_iff, Z.leb_le, Z.ltb_lt.
  tauto.
Qed.

Ltac range_cases :=
  repeat match goal with
  | |- context [in_container_range ?c ?r] =>
      let H := fresh "Hin" in
      destruct (in_container_range c r) eqn:H;
      [ apply in_container_range_spec in H
      | apply not_true_iff_false in H; rewrite in_container_range_spec in H ];
      cbn [ContainerID HostID Size] in H
  end.

(** Disjointness of the container-side ranges, both branches. *)
Lemma reverseMap_container_disjoint (id size : Z) :
  is_uint32 id -> is_uint32 size -> container_disjoint (reverseMap id size).
Proof.
  intros Hid Hsz c. unfold container_hits.
  destruct (Z.lt_ge_cases id size) as [Hlt | Hge].
  - rewrite reverseMap_lt by assumption. cbn [List.filter].
    range_cases; cbn [length]; lia.
  - rewrite reverseMap_ge by assumption. cbn [List.filter].
    range_cases; cbn [length]; lia.
Qed.

Lemma in_host_range_spec (h : Z) (r : LinuxIDMapping) :
  in_host_range h r = true <-> HostID r <= h < HostID r + Size r.
Proof.
  unfold in_host_range. rewrite andb_true_iff, Z.leb_le, Z.ltb_lt. tauto.
Qed.

(** The host-side ranges are disjoint as well. *)
Lemma reverseMap_host_disjoint (id size : Z) :
  is_uint32 id -> is_uint32 size -> host_disjoint (reverseMap id size).
Proof.
  intros Hid Hsz h. unfold host_hits.
  destruct (Z.lt_ge_cases id size) as [Hlt | Hge];
    [rewrite reverseMap_lt by assumption | rewrite reverseMap_ge by assumption];
    cbn [List.filter];
    repeat match goal with
    | |- context [in_host_range ?c ?r] =>
        let H := fresh "Hin" in
        destruct (in_host_range c r) eqn:H;
        [ apply in_host_range_spec in H
        | apply not_true_iff_false in H; rewrite in_host_range_spec in H ];
        cbn [ContainerID HostID Size] in H
    end; cbn [length]; unfold is_uint32 in Hid, Hsz; lia.
Qed.

(** Three-range branch: the container side covers [0 .. size] inclusive. *)
Lemma reverseMap_lt_union (id size : Z) :
  is_uint32 id -> is_uint32 size -> id < size ->
  container_union_is (reverseMap id size) (fun c => 0 <= c < size + 1).
Proof.
  intros Hid Hsz Hlt c. rewrite reverseMap_lt by assumption.
  unfold container_covers. split.
  - intros (r & Hr & Hc). apply in_container_range_spec in Hc.
    destruct Hid as [Hid0 _].
    cbn [In] in Hr. destruct Hr as [<- | [<- | [<- | []]]];
      cbn [ContainerID Size] in Hc; lia.
  - intros Hc.
    destruct (Z.lt_trichotomy c id) as [Hl | [He | Hg]].
    + exists (mkMapping 0 1 id). split; [cbn; auto |].
      apply in_container_range_spec. cbn. lia.
    + exists (mkMapping id 0 1). split; [cbn; auto |].
      apply in_container_range_spec. cbn. lia.
    + exists (mkMapping (id + 1) (id + 1) (size - id)). split; [cbn; auto |].
      apply in_container_range_spec. cbn. lia.
Qed.

(** Two-range branch: the container side covers [0 .. size) and [id] itself. *)
Lemma reverseMap_ge_union (id size : Z) :
  0 <= size -> size <= id ->
  container_union_is (reverseMap id size) (fun c => 0 <= c < size \/ c = id).
Proof.
  intros Hsz Hge c. rewrite reverseMap_ge by assumption.
  unfold container_covers. split.
  - intros (r & Hr & Hc). apply in_container_range_spec in Hc.
    cbn [In] in Hr. destruct Hr as [<- | [<- | []]];
      cbn [ContainerID Size] in Hc; lia.
  - intros [Hc | ->].
    + exists (mkMapping 0 1 size). split; [cbn; auto |].
      apply in_container_range_spec. cbn. lia.
    + exists (mkMapping id 0 1). split; [cbn; auto |].
      apply in_container_range_spec. cbn. lia.
Qed.

(** Container id 0 decodes to host id 1 as soon as the host id is not 0. *)
Lemma reverseMap_decode_zero (id size : Z) :
  is_uint32 id -> is_uint32 size -> 0 < id -> 0 < size ->
  decode (reverseMap id size) 0 = Some 1.
Proof.
  intros Hid Hsz Hpos Hsize.
  destruct (Z.lt_ge_cases id size) as [Hlt | Hge].
  - rewrite reverseMap_lt by assumption. cbn [decode].
    range_cases; solve [reflexivity | lia].
  - rewrite reverseMap_ge by assumption. cbn [decode].
    range_cases; solve [reflexivity | lia].
Qed.

(** For host id 0 the first range is empty and container id 0 is host id 0. *)
Lemma reverseMap_decode_zero_root (size : Z) :
  is_uint32 size -> 0 < size -> decode (reverseMap 0 size) 0 = Some 0.
Proof.
  intros Hsz Hpos.
  assert (H0 : is_uint32 0) by (unfold is_uint32; rewrite uint32_modulus_value; lia).
  rewrite (reverseMap_lt 0 size H0 Hsz Hpos).
  cbn [decode]. range_cases; solve [reflexivity | lia].
Qed.

Lemma reverseMap_covers_zero (id size : Z) :
  is_uint32 id -> is_uint32 size -> 0 < size ->
  container_covers (reverseMap id size) 0.
Proof.
  intros Hid Hsz Hpos.
  destruct (Z.lt_ge_cases id size) as [Hlt | Hge].
  - apply (reverseMap_lt_union id size Hid Hsz Hlt). lia.
  - apply (reverseMap_ge_union id size); [lia | assumption |]. left. lia.
Qed.

Lemma reverseMap_partition (id size : Z) :
  is_uint32 id -> is_uint32 size -> 65536 <= size ->
  mapping_partition id size (reverseMap id size).
Proof.
  intros Hid Hsz Hmin. unfold mapping_partition.
  split; [now apply reverseMap_container_disjoint |].
  split; [intros Hlt; now apply reverseMap_lt_union |].
  split; [intros Hge; apply reverseMap_ge_union; lia |].
  split; [apply reverseMap_covers_zero; trivial; lia |].
  intros Hpos. apply reverseMap_decode_zero; trivial; lia.
Qed.

Lemma reverseMap_shape (id size : Z) :
  is_uint32 id -> is_uint32 size -> mapping_shape id size (reverseMap id size).
Proof.
  intros Hid Hsz. split.
  - intros Hlt. now apply reverseMap_lt.
  - intros Hge. now apply reverseMap_ge.
Qed.

(** When both lookups succeed with large enough ranges, the function returns
    the two literal mappings and no error. *)
Lemma getReverseUserMaps_ok {E : Type} (G : IDFile -> Z -> LinuxIDMapping + E)
    (uid gid : Z) (ru rg : LinuxIDMapping) :
  G SubUIDFile uid = inl ru -> G SubGIDFile uid = inl rg ->
  65536 <= Size ru -> 65536 <= Size rg ->
  getReverseUserMaps G uid gid =
    (reverseMap uid (Size ru), reverseMap gid (Size rg), None).
Proof.
  intros Hu Hg Hsu Hsg. unfold getReverseUserMaps. rewrite Hu, Hg.
  destruct (Z.ltb_spec (Size ru) 65536) as [Hlt | _]; [lia |].
  destruct (Z.ltb_spec (Size rg) 65536) as [Hlt | _]; [lia |].
  reflexivity.
Qed.

(** C1 (as amended): for every host uid and gid whose subordinate ranges
    have at least 65536 ids, [getReverseUserMaps] returns a uid and a gid
    mapping, each with pairwise-disjoint container-side ranges that include
    container id 0; the union of the container-side ranges is [[0, size]]
    ([size + 1] ids) when the host id is below the range size, and
    [[0, size)] plus the host id otherwise; container id 0 maps to host id 1
    whenever the host id is not 0. *)
Theorem c1_reverse_maps_partition {E : Type}
    (G : IDFile -> Z -> LinuxIDMapping + E) (uid gid : Z)
    (ru rg : LinuxIDMapping) :
  is_uint32 uid -> is_uint32 gid ->
  is_uint32 (Size ru) -> is_uint32 (Size rg) ->
  G SubUIDFile uid = inl ru -> G SubGIDFile uid = inl rg ->
  65536 <= Size ru -> 65536 <= Size rg ->
  exists um gm,
    getReverseUserMaps G uid gid = (um, gm, None) /\
    mapping_partition uid (Size ru) um /\
    mapping_partition gid (Size rg) gm.
Proof.
  intros Huid Hgid Hru Hrg Hu Hg Hsu Hsg.
  exists (reverseMap uid (Size ru)), (reverseMap gid (Size rg)).
  split; [now apply getReverseUserMaps_ok |].
  split; now apply reverseMap_partition.
Qed.

Lemma c1_reverse_maps_partition_witness :
  exists um gm,
    getReverseUserMaps sample_registry 1001 1001 = (um, gm, None) /\
    mapping_partition 1001 65536 um /\
    mapping_partition 1001 65536 gm.
Proof.
  apply (c1_reverse_maps_partition sample_registry 1001 1001
           (mkMapping 0 100000 65536) (mkMapping 0 100000 65536));
    try reflexivity; unfold is_uint32, uint32_modulus; simpl; lia.
Defined.

(** C1 as stated fails at its own example: for host uid 1001 and a range of
    65536 ids, container id 65536 lies in the uid mapping although it is
    outside [[0, 65536)]; and for host uid 0 container id 0 decodes to host
    id 0, not 1. *)
Lemma c1_union_counterexample :
  (exists gm,
     getReverseUserMaps sample_registry 1001 1001 =
       ([ mkMapping 0 1 1001; mkMapping 1001 0 1;
          mkMapping 1002 1002 64535 ], gm, None)) /\
  decode [ mkMapping 0 1 1001; mkMapping 1001 0 1;
           mkMapping 1002 1002 64535 ] 65536 = Some 65536 /\
  container_covers [ mkMapping 0 1 1001; mkMapping 1001 0 1;
                     mkMapping 1002 1002 64535 ] 65536 /\
  ~ (0 <= 65536 < 65536) /\
  reverseMap 0 65536 =
    [ mkMapping 0 1 0; mkMapping 0 0 1; mkMapping 1 1 65536 ] /\
  decode (reverseMap 0 65536) 0 = Some 0.
Proof.
  split; [eexists; reflexivity |].
  split; [reflexivity |].
  split.
  - exists (mkMapping 1002 1002 64535). split; [cbn; auto | reflexivity].
  - split; [lia |]. split; reflexivity.
Qed.

(** C2 (as amended): with ranges of at least 65536 ids, each mapping has
    exactly three ranges when the host id is below the range size, namely
    container [[0, id)] from host [[1, 1+id)], container [[id, id+1)] from
    host [[0, 1)] and container [[id+1, size+1)] from host [[id+1, size+1)]
    (a range of [size - id] ids), and exactly two ranges otherwise, namely
    container [[0, size)] from host [[1, 1+size)] and container
    [[id, id+1)] from host [[0, 1)]. *)
Theorem c2_reverse_maps_shape {E : Type}
    (G : IDFile -> Z -> LinuxIDMapping + E) (uid gid : Z)
    (ru rg : LinuxIDMapping) :
  is_uint32 uid -> is_uint32 gid ->
  is_uint32 (Size ru) -> is_uint32 (Size rg) ->
  G SubUIDFile uid = inl ru -> G SubGIDFile uid = inl rg ->
  65536 <= Size ru -> 65536 <= Size rg ->
  exists um gm,
    getReverseUserMaps G uid gid = (um, gm, None) /\
    mapping_shape uid (Size ru) um /\
    mapping_shape gid (Size rg) gm.
Proof.
  intros Huid Hgid Hru Hrg Hu Hg Hsu Hsg.
  exists (reverseMap uid (Size ru)), (reverseMap gid (Size rg)).
  split; [now apply getReverseUserMaps_ok |].
  split; now apply reverseMap_shape.
Qed.

Lemma c2_reverse_maps_shape_witness :
  exists um gm,
    getReverseUserMaps sample_registry 1001 70000 = (um, gm, None) /\
    mapping_shape 1001 65536 um /\
    mapping_shape 70000 65536 gm.
Proof.
  apply (c2_reverse_maps_shape sample_registry 1001 70000
           (mkMapping 0 100000 65536) (mkMapping 0 100000 65536));
    try reflexivity; unfold is_uint32, uint32_modulus; simpl; lia.
Defined.

(** C2 as stated fails for host id 1001 and range size 65536: the third
    range the code builds has 64535 ids and ends at container id 65537,
    where the documented range [[1002, 65536)] has 64534 ids. *)
Lemma c2_third_range_counterexample :
  reverseMap 1001 65536 =
    [ mkMapping 0 1 1001; mkMapping 1001 0 1; mkMapping 1002 1002 64535 ] /\
  documented_reverseMap 1001 65536 =
    [ mkMapping 0 1 1001; mkMapping 1001 0 1; mkMapping 1002 1002 64534 ] /\
  reverseMap 1001 65536 <> documented_reverseMap 1001 65536 /\
  fst (fst (getReverseUserMaps sample_registry 1001 1001)) =
    reverseMap 1001 65536.
Proof.
  split; [reflexivity |]. split; [reflexivity |].
  split; [| reflexivity].
  intros Heq. vm_compute in Heq. discriminate Heq.
Qed.

(** C3: whenever the subuid range, or (the subuid range being found) the
    subgid range, has fewer than 65536 ids, [getReverseUserMaps] returns the
    range-too-small error and two nil mappings, whatever the uid and gid:
    the size checks come before the mappings are built. *)
Theorem c3_range_too_small {E : Type}
    (G : IDFile -> Z -> LinuxIDMapping + E) (uid gid : Z)
    (ru : LinuxIDMapping) :
  G SubUIDFile uid = inl ru ->
  (Size ru < 65536 \/
   exists rg, G SubGIDFile uid = inl rg /\ Size rg < 65536) ->
  exists n, n < 65536 /\
    getReverseUserMaps G uid gid = ([], [], Some (RangeTooSmall n)).
Proof.
  intros Hu Hsmall. unfold getReverseUserMaps. rewrite Hu.
  destruct (Z.ltb_spec (Size ru) 65536) as [Hlt | Hge].
  - exists (Size ru). split; [assumption | reflexivity].
  - destruct Hsmall as [Hlt | (rg & Hg & Hlt)]; [lia |].
    rewrite Hg.
    destruct (Z.ltb_spec (Size rg) 65536) as [_ | Hge']; [| lia].
    exists (Size rg). split; [assumption | reflexivity].
Qed.

Lemma c3_range_too_small_witness :
  exists n, n < 65536 /\
    getReverseUserMaps short_gid_registry 1001 1001 =
      ([], [], Some (RangeTooSmall n)).
Proof.
  apply (c3_range_too_small short_gid_registry 1001 1001
           (mkMapping 0 100000 65536)).
  - reflexivity.
  - right. exists (mkMapping 0 100000 65535). split; [reflexivity | simpl; lia].
Defined.

(** The boundary value of the design document: a range of 65535 ids. *)
Example range_65535_rejected :
  getReverseUserMaps short_gid_registry 1001 1001 =
    ([], [], Some (RangeTooSmall 65535)).
Proof. reflexivity. Qed.

End IDMapProps.

(* ===================================================================== *)
(** ** Properties of the string functions *)
(* ===================================================================== *)

Module GoStringsProps.

Import GoStrings.
Local Open Scope string_scope.
Local Arguments Ascii.eqb : simpl never.

Lemma HasPrefix_nil_r (s : string) : HasPrefix s "" = true.
Proof. destruct s; reflexivity. Qed.

Lemma HasPrefix_app (p s : string) : HasPrefix (p ++ s) p = true.
Proof.
  induction p as [| a p IH]; simpl.
  - apply HasPrefix_nil_r.
  - rewrite Ascii.eqb_refl. exact IH.
Qed.

Lemma HasPrefix_app_l (s t p : string) :
  HasPrefix s p = true -> HasPrefix (s ++ t) p = true.
Proof.
  revert p. induction s as [| a s IH]; intros [| b p] H; simpl in *;
    try reflexivity; try discriminate.
  - apply HasPrefix_nil_r.
  - apply andb_true_iff in H as [Hab Hsp].
    rewrite Hab. simpl. now apply IH.
Qed.

(** A pattern free of [c] cannot reach across an occurrence of [c]. *)
Lemma HasPrefix_across (c : ascii) (s t sub : string) :
  lacks c sub = true ->
  HasPrefix (s ++ String c t) sub = HasPrefix s sub.
Proof.
  revert sub. induction s as [| a s IH]; intros [| b sub] Hl; simpl in *;
    try reflexivity.
  - apply andb_true_iff in Hl as [Hb _].
    apply negb_true_iff in Hb.
    now rewrite Ascii.eqb_sym, Hb.
  - apply andb_true_iff in Hl as [_ Hl].
    destruct (Ascii.eqb a b); simpl; [now apply IH | reflexivity].
Qed.

Lemma occurrences_across (c : ascii) (s sub : string) :
  lacks c sub = true -> sub <> "" ->
  occurrences (s ++ String c sub) sub =
    (occurrences s sub + occurrences sub sub)%nat.
Proof.
  intros Hl Hne. induction s as [| a s IH].
  - change ("" ++ String c sub) with (String c sub).
    cbn [occurrences].
    replace (HasPrefix (String c sub) sub) with (HasPrefix "" sub)
      by (symmetry; apply (HasPrefix_across c "" sub sub Hl)).
    destruct sub as [| b sub]; [contradiction | reflexivity].
  - change (String a s ++ String c sub) with (String a (s ++ String c sub)).
    cbn [occurrences].
    change (String a (s ++ String c sub)) with (String a s ++ String c sub).
    rewrite (HasPrefix_across c (String a s) sub sub Hl), IH. lia.
Qed.

Lemma occurrences_skip (c : ascii) (s sub : string) :
  lacks c sub = true -> sub <> "" ->
  occurrences (String c s) sub = occurrences s sub.
Proof.
  intros Hl Hne. cbn [occurrences].
  destruct sub as [| b sub]; [contradiction |].
  simpl in Hl. apply andb_true_iff in Hl as [Hb _].
  apply negb_true_iff in Hb. cbn [HasPrefix].
  now rewrite Ascii.eqb_sym, Hb.
Qed.

Lemma Contains_occurrences (s sub : string) :
  Contains s sub = true <-> (0 < occurrences s sub)%nat.
Proof.
  induction s as [| a s IH]; cbn [Contains occurrences].
  - destruct (HasPrefix "" sub); simpl; split; intros; try lia; congruence.
  - destruct (HasPrefix (String a s) sub); simpl.
    + split; intros; [lia | reflexivity].
    + exact IH.
Qed.

Lemma Contains_false_occurrences (s sub : string) :
  Contains s sub = false <-> occurrences s sub = 0%nat.
Proof.
  rewrite <- not_true_iff_false, Contains_occurrences. lia.
Qed.

Lemma append_assoc (s t u : string) : (s ++ t) ++ u = s ++ t ++ u.
Proof.
  induction s as [| a s IH]; [reflexivity |].
  change (String a ((s ++ t) ++ u) = String a (s ++ t ++ u)). now rewrite IH.
Qed.

Lemma append_nil_r (s : string) : s ++ "" = s.
Proof.
  induction s as [| a s IH]; [reflexivity |].
  change (String a (s ++ "") = String a s). now rewrite IH.
Qed.

(** [TrimPrefix s ":"] drops one leading colon. *)
Lemma TrimPrefix_char (c : ascii) (s : string) :
  TrimPrefix s (String c "") =
    match s with
    | String a s' => if Ascii.eqb a c then s' else s
    | "" => ""
    end.
Proof.
  unfold TrimPrefix. destruct s as [| a s]; simpl; [reflexivity |].
  destruct (Ascii.eqb a c); simpl; [| reflexivity].
  rewrite HasPrefix_nil_r. reflexivity.
Qed.

Lemma lacks_app (c : ascii) (s t : string) :
  lacks c (s ++ t) = lacks c s && lacks c t.
Proof.
  induction s as [| a s IH]; simpl; [reflexivity |].
  rewrite IH. now rewrite andb_assoc.
Qed.

Lemma lacks_drop_chars (c : ascii) (n : nat) (s : string) :
  lacks c s = true -> lacks c (drop_chars n s) = true.
Proof.
  revert s. induction n as [| n IH]; intros [| a s] H; simpl in *; trivial.
  apply andb_true_iff in H as [_ H]. now apply IH.
Qed.

Lemma lacks_TrimPrefix (c : ascii) (s p : string) :
  lacks c s = true -> lacks c (TrimPrefix s p) = true.
Proof.
  intros H. unfold TrimPrefix.
  destruct (HasPrefix s p); [now apply lacks_drop_chars | assumption].
Qed.

(** The first part of a split holds no "=". *)
Lemma SplitN_eq_key (s k v : string) :
  SplitN_eq s = Some (k, v) -> lacks "="%char k = true.
Proof.
  revert k v. induction s as [| a s IH]; intros k v H; simpl in H.
  - discriminate.
  - destruct (Ascii.eqb a "="%char) eqn:Ha.
    + injection H as <- _. reflexivity.
    + destruct (SplitN_eq s) as [[k' v'] |]; [| discriminate].
      injection H as <- <-. simpl. rewrite Ha. simpl. now apply (IH k' v').
Qed.

Lemma SplitN_eq_join (k v : string) :
  lacks "="%char k = true -> SplitN_eq (k ++ "=" ++ v) = Some (k, v).
Proof.
  induction k as [| a k IH]; intros H; simpl in *.
  - reflexivity.
  - apply andb_true_iff in H as [Ha H].
    apply negb_true_iff in Ha. rewrite Ha.
    change (SplitN_eq (k ++ String "=" v)) with (SplitN_eq (k ++ "=" ++ v)).
    now rewrite IH.
Qed.

(** Two names free of "=" are equal as soon as the entry of one starts with
    the other followed by "=". *)
Lemma key_prefix_inj (k k' v : string) :
  lacks "="%char k = true -> lacks "="%char k' = true ->
  HasPrefix (k ++ "=" ++ v) (k' ++ "=") = true -> k = k'.
Proof.
  revert k'. induction k as [| a k IH]; intros [| b k'] Hk Hk' H;
    simpl in *.
  - reflexivity.
  - apply andb_true_iff in H as [Hab _].
    apply andb_true_iff in Hk' as [Hb _].
    apply Ascii.eqb_eq in Hab. subst b.
    now rewrite Ascii.eqb_refl in Hb.
  - apply andb_true_iff in H as [Hab _].
    apply andb_true_iff in Hk as [Ha _].
    now rewrite Hab in Ha.
  - apply andb_true_iff in H as [Hab H].
    apply andb_true_iff in Hk as [_ Hk].
    apply andb_true_iff in Hk' as [_ Hk'].
    apply Ascii.eqb_eq in Hab. subst b. f_equal. now apply IH.
Qed.

(** Go's [<=] on strings is transitive. *)
Lemma drop_chars_app (p s : string) : drop_chars (String.length p) (p ++ s) = s.
Proof. induction p as [| a p IH]; [reflexivity | exact IH]. Qed.

Lemma TrimPrefix_app (p s : string) : TrimPrefix (p ++ s) p = s.
Proof. unfold TrimPrefix. now rewrite HasPrefix_app, drop_chars_app. Qed.

(** A string with the prefix [p] is [p] followed by the rest. *)
Lemma HasPrefix_split (s p : string) :
  HasPrefix s p = true -> s = p ++ drop_chars (String.length p) s.
Proof.
  revert s. induction p as [| b p IH]; intros [| a s] H;
    cbn [HasPrefix] in H; try discriminate; try reflexivity.
  apply andb_true_iff in H as [Hab H]. apply Ascii.eqb_eq in Hab. subst b.
  change (String a p ++ drop_chars (String.length (String a p)) (String a s))
    with (String a (p ++ drop_chars (String.length p) s)).
  f_equal. now apply IH.
Qed.

(** The two parts around the first "=" give the string back. *)
Lemma SplitN_eq_inv (s k v : string) :
  SplitN_eq s = Some (k, v) -> s = k ++ "=" ++ v.
Proof.
  revert k v. induction s as [| a s IH]; intros k v H; cbn [SplitN_eq] in H;
    [discriminate |].
  destruct (Ascii.eqb_spec a "="%char) as [-> | Hne].
  - now injection H as <- <-.
  - destruct (SplitN_eq s) as [[k0 v0] |]; [| discriminate].
    injection H as <- <-.
    change (String a k0 ++ "=" ++ v0) with (String a (k0 ++ "=" ++ v0)).
    f_equal. now apply IH.
Qed.

(** An entry [k=v] starts with [K=] exactly when [k] is [K]. *)
Lemma entry_named (K k v : string) :
  lacks "="%char K = true -> lacks "="%char k = true ->
  HasPrefix (k ++ "=" ++ v) (K ++ "=") = String.eqb k K.
Proof.
  intros HK Hk. destruct (String.eqb_spec k K) as [-> | Hne].
  - rewrite <- append_assoc. apply HasPrefix_app.
  - destruct (HasPrefix (k ++ "=" ++ v) (K ++ "=")) eqn:H; [| reflexivity].
    contradiction Hne. now apply (key_prefix_inj k K v).
Qed.

(** A string without "=" starts with no [K=]. *)
Lemma SplitN_eq_None_named (s K : string) :
  lacks "="%char K = true -> SplitN_eq s = None ->
  HasPrefix s (K ++ "=") = false.
Proof.
  intros HK Hs. destruct (HasPrefix s (K ++ "=")) eqn:H; [| reflexivity].
  apply HasPrefix_split in H. rewrite append_assoc in H.
  rewrite H, (SplitN_eq_join K _ HK) in Hs. discriminate Hs.
Qed.

Lemma compare_not_Gt_trans (s1 s2 s3 : string) :
  String.compare s1 s2 <> Gt -> String.compare s2 s3 <> Gt ->
  String.compare s1 s3 <> Gt.
Proof.
  revert s2 s3. induction s1 as [| c1 s1 IH]; intros [| c2 s2] [| c3 s3];
    cbn [String.compare]; try congruence.
  unfold Ascii.compare.
  destruct (N.compare_spec (N_of_ascii c1) (N_of_ascii c2)) as [E12 | L12 | G12];
    destruct (N.compare_spec (N_of_ascii c2) (N_of_ascii c3)) as [E23 | L23 | G23];
    destruct (N.compare_spec (N_of_ascii c1) (N_of_ascii c3)) as [E13 | L13 | G13];
    try congruence; try lia.
  apply IH.
Qed.

Lemma leb_trans (s1 s2 s3 : string) :
  String.leb s1 s2 = true -> String.leb s2 s3 = true ->
  String.leb s1 s3 = true.
Proof.
  unfold String.leb. intros H12 H23.
  pose proof (compare_not_Gt_trans s1 s2 s3) as H.
  destruct (String.compare s1 s2), (String.compare s2 s3),
    (String.compare s1 s3); try reflexivity; try discriminate;
    exfalso; apply H; congruence.
Qed.

End GoStringsProps.

(* ===================================================================== *)
(** ** Properties of the process spec builder *)
(* ===================================================================== *)

Module ProcessProps.

Import GoStrings GoStringsProps Process.
Local Open Scope string_scope.
Local Arguments Ascii.eqb : simpl never.
Local Arguments String.eqb : simpl never.

(** *** Arguments *)

(** C6: for every image spec, process string and trailing arguments, argv
    starts with the single process token when the process string is not
    empty and as the image entrypoint otherwise; non-empty trailing
    arguments are appended; the image cmd is appended exactly when the
    trailing arguments are empty and the process string is empty, and is
    otherwise left out. *)
Theorem c6_process_args (imageSpec : Image) (process : string)
    (args : list string) :
  let start := if String.eqb process "" then Entrypoint (Config imageSpec)
               else [process] in
  let argv := getProcessArgs imageSpec process args in
  (process <> "" -> exists rest, argv = process :: rest) /\
  (process = "" ->
     exists rest, argv = (Entrypoint (Config imageSpec) ++ rest)%list) /\
  (args <> [] -> argv = (start ++ args)%list) /\
  (args = [] -> process = "" ->
     argv = (Entrypoint (Config imageSpec) ++ Cmd (Config imageSpec))%list) /\
  (args = [] -> process <> "" -> argv = [process]).
Proof.
  cbv zeta. unfold getProcessArgs.
  destruct (String.eqb_spec process "") as [-> | Hp]; cbn [negb].
  - split; [intros H; now contradiction H |].
    destruct args as [| a args]; cbn [length Nat.ltb Nat.leb].
    + repeat split; try congruence. eauto.
    + repeat split; try congruence. eauto.
  - split.
    { destruct args as [| a args]; cbn [length Nat.ltb Nat.leb]; eauto. }
    split; [intros H; now contradiction Hp |].
    destruct args as [| a args]; cbn [length Nat.ltb Nat.leb];
      repeat split; congruence.
Qed.

(** The three argument-resolution examples of the design document. *)
Example args_explicit_process :
  getProcessArgs (mkImage (mkImageConfig [] ["echo"; "hi"] [])) "bash" []
  = ["bash"].
Proof. reflexivity. Qed.

Example args_entrypoint_cmd :
  getProcessArgs (mkImage (mkImageConfig ["/e"] ["a"; "b"] [])) "" []
  = ["/e"; "a"; "b"].
Proof. reflexivity. Qed.

Example args_user_args_drop_cmd :
  getProcessArgs (mkImage (mkImageConfig ["/e"] ["a"] [])) "" ["x"]
  = ["/e"; "x"].
Proof. reflexivity. Qed.

(** *** [SetProcessEnv] *)

Lemma SetProcessEnv_In (k v : string) (env : list string) :
  In (k ++ "=" ++ v) (SetProcessEnv k v env).
Proof.
  induction env as [| e env IH]; cbn [SetProcessEnv].
  - now left.
  - destruct (HasPrefix e (k ++ "=")); [now left | right; exact IH].
Qed.

Lemma SetProcessEnv_entries (k v e : string) (env : list string) :
  In e (SetProcessEnv k v env) -> e = k ++ "=" ++ v \/ In e env.
Proof.
  induction env as [| e0 env IH]; cbn [SetProcessEnv].
  - intros [<- | []]. now left.
  - destruct (HasPrefix e0 (k ++ "=")).
    + intros [<- | H]; [now left | right; now right].
    + intros [<- | H]; [right; now left |].
      destruct (IH H) as [-> | H']; [now left | right; now right].
Qed.

Lemma SetProcessEnv_preserve (k v e : string) (env : list string) :
  In e env -> HasPrefix e (k ++ "=") = false ->
  In e (SetProcessEnv k v env).
Proof.
  intros Hin Hpre. induction env as [| e0 env IH]; [destruct Hin |].
  cbn [SetProcessEnv]. destruct Hin as [-> | Hin].
  - rewrite Hpre. now left.
  - destruct (HasPrefix e0 (k ++ "=")); right; [assumption | now apply IH].
Qed.

(** An entry of another name survives a write. *)
Lemma SetProcessEnv_other (k v k' v' : string) (env : list string) :
  lacks "="%char k = true -> lacks "="%char k' = true -> k <> k' ->
  In (k ++ "=" ++ v) env -> In (k ++ "=" ++ v) (SetProcessEnv k' v' env).
Proof.
  intros Hk Hk' Hne Hin. apply SetProcessEnv_preserve; [assumption |].
  destruct (HasPrefix (k ++ "=" ++ v) (k' ++ "=")) eqn:H; [| reflexivity].
  contradiction Hne. now apply (key_prefix_inj k k' v).
Qed.

(** *** The two loops of [getProcessEnv] *)

Lemma scan_entry_fields (st : EnvState) (e : string) :
  genEnv (scanImageEntry st e) = genEnv st /\
  appendPath (scanImageEntry st e) = appendPath st /\
  prependPath (scanImageEntry st e) = prependPath st.
Proof.
  unfold scanImageEntry. destruct (SplitN_eq e) as [[k v] |]; [| auto].
  destruct (String.eqb k "PATH"), (String.eqb k "LD_LIBRARY_PATH"); auto.
Qed.

Lemma scan_fields (envs : list string) (st : EnvState) :
  genEnv (fold_left scanImageEntry envs st) = genEnv st /\
  appendPath (fold_left scanImageEntry envs st) = appendPath st /\
  prependPath (fold_left scanImageEntry envs st) = prependPath st.
Proof.
  revert st. induction envs as [| e envs IH]; intros st; cbn [fold_left].
  - auto.
  - destruct (IH (scanImageEntry st e)) as (-> & -> & ->).
    apply scan_entry_fields.
Qed.

(** The PATH and LD_LIBRARY_PATH found by the first loop depend on the
    image ENV and on their own initial values only. *)
Lemma scan_path_ld (envs : list string) (st st' : EnvState) :
  path st = path st' -> ldLibraryPath st = ldLibraryPath st' ->
  path (fold_left scanImageEntry envs st) =
    path (fold_left scanImageEntry envs st') /\
  ldLibraryPath (fold_left scanImageEntry envs st) =
    ldLibraryPath (fold_left scanImageEntry envs st').
Proof.
  revert st st'. induction envs as [| e envs IH]; intros st st' Hp Hl;
    cbn [fold_left]; [auto |].
  apply IH; unfold scanImageEntry;
    destruct (SplitN_eq e) as [[k v] |]; trivial;
    destruct (String.eqb k "PATH"), (String.eqb k "LD_LIBRARY_PATH");
    cbn [path ldLibraryPath]; trivial.
Qed.

Lemma special_key_false (k : string) :
  special_key k = false ->
  k <> "PATH" /\ k <> "APPEND_PATH" /\ k <> "PREPEND_PATH" /\
  k <> "LD_LIBRARY_PATH".
Proof.
  unfold special_key. intros H.
  repeat (apply orb_false_iff in H as [H ?]).
  repeat split; intros ->; discriminate.
Qed.

Lemma apply_nonspecial (st : EnvState) (k v : string) :
  special_key k = false ->
  applyRuntimeEntry st (k, v) =
    mkEnvState (path st) (appendPath st) (prependPath st) (ldLibraryPath st)
               (SetProcessEnv k v (genEnv st)).
Proof.
  unfold special_key, applyRuntimeEntry. intros H.
  repeat (apply orb_false_iff in H as [H ?]).
  repeat match goal with E : String.eqb _ _ = false |- _ => rewrite E; clear E end.
  reflexivity.
Qed.

Lemma apply_special_genEnv (st : EnvState) (k v : string) :
  special_key k = true -> genEnv (applyRuntimeEntry st (k, v)) = genEnv st.
Proof.
  unfold special_key, applyRuntimeEntry. intros H.
  destruct (String.eqb k "PATH"); [reflexivity |].
  destruct (String.eqb k "APPEND_PATH"); [reflexivity |].
  destruct (String.eqb k "PREPEND_PATH"); [reflexivity |].
  destruct (String.eqb k "LD_LIBRARY_PATH"); [reflexivity | discriminate].
Qed.

(** Every entry the second loop leaves in the generator was there before
    or is the write of a key that is not special. *)
Lemma apply_loop_entries (kvs : list (string * string)) (st : EnvState)
    (e : string) :
  In e (genEnv (fold_left applyRuntimeEntry kvs st)) ->
  In e (genEnv st) \/
  exists k v, (k, v) ∈ kvs /\ special_key k = false /\ e = k ++ "=" ++ v.
Proof.
  revert st. induction kvs as [| [k v] kvs IH]; intros st; cbn [fold_left].
  - now left.
  - intros H. destruct (IH _ H) as [Hin | (k' & v' & Hk & Hs & ->)].
    + destruct (special_key k) eqn:Hs.
      * left. now rewrite apply_special_genEnv in Hin.
      * rewrite apply_nonspecial in Hin by assumption. cbn [genEnv] in Hin.
        apply SetProcessEnv_entries in Hin as [-> | Hin]; [| now left].
        right. exists k, v. split; [apply list_elem_of_here | auto].
    + right. exists k', v'. split; [now apply list_elem_of_further | auto].
Qed.

(** An entry survives the loop when no written key is a prefix of it. *)
Lemma apply_loop_preserve (kvs : list (string * string)) (st : EnvState)
    (e : string) :
  In e (genEnv st) ->
  (forall k v, (k, v) ∈ kvs -> HasPrefix e (k ++ "=") = false) ->
  In e (genEnv (fold_left applyRuntimeEntry kvs st)).
Proof.
  revert st. induction kvs as [| [k v] kvs IH]; intros st Hin Hpre;
    cbn [fold_left]; [assumption |].
  apply IH.
  - destruct (special_key k) eqn:Hs.
    + now rewrite apply_special_genEnv.
    + rewrite apply_nonspecial by assumption. cbn [genEnv].
      apply SetProcessEnv_preserve; [assumption |].
      apply (Hpre k v). apply list_elem_of_here.
  - intros k' v' Hk. apply (Hpre k' v'). now apply list_elem_of_further.
Qed.

(** The write of a key that is not special is in the generator after the
    loop. *)
Lemma apply_loop_written (kvs : list (string * string)) (st : EnvState)
    (k v : string) :
  NoDup kvs.*1 ->
  (forall k' v', (k', v') ∈ kvs -> lacks "="%char k' = true) ->
  (k, v) ∈ kvs -> special_key k = false ->
  In (k ++ "=" ++ v) (genEnv (fold_left applyRuntimeEntry kvs st)).
Proof.
  revert st. induction kvs as [| [k0 v0] kvs IH]; intros st Hnd Hkeys Hin Hs.
  - now apply elem_of_nil in Hin.
  - cbn [fold_left]. rewrite fmap_cons in Hnd. cbn [fst] in Hnd.
    apply NoDup_cons in Hnd as [Hfresh Hnd].
    apply elem_of_cons in Hin as [Heq | Hin].
    + injection Heq as <- <-.
      apply apply_loop_preserve.
      * rewrite apply_nonspecial by assumption. cbn [genEnv].
        apply SetProcessEnv_In.
      * intros k' v' Hk'.
        destruct (HasPrefix (k ++ "=" ++ v) (k' ++ "=")) eqn:Hp; [| reflexivity].
        apply key_prefix_inj in Hp.
        -- subst k'. contradiction Hfresh.
           apply list_elem_of_fmap. exists (k, v'). split; [reflexivity | assumption].
        -- apply (Hkeys k v). apply list_elem_of_here.
        -- apply (Hkeys k' v'). now apply list_elem_of_further.
    + apply IH; trivial.
      intros k' v' Hk'. apply (Hkeys k' v'). now apply list_elem_of_further.
Qed.

(** What one iteration of the second loop does to the four variables. *)
Lemma apply_entry_fields (st : EnvState) (k v : string) :
  path (applyRuntimeEntry st (k, v)) =
    (if String.eqb k "PATH" then v else path st) /\
  appendPath (applyRuntimeEntry st (k, v)) =
    (if String.eqb k "APPEND_PATH" then v else appendPath st) /\
  prependPath (applyRuntimeEntry st (k, v)) =
    (if String.eqb k "PREPEND_PATH" then v else prependPath st) /\
  ldLibraryPath (applyRuntimeEntry st (k, v)) =
    (if String.eqb k "LD_LIBRARY_PATH" then v else ldLibraryPath st).
Proof.
  unfold applyRuntimeEntry.
  destruct (String.eqb_spec k "PATH") as [-> | H1]; [repeat split |].
  destruct (String.eqb_spec k "APPEND_PATH") as [-> | H2]; [repeat split |].
  destruct (String.eqb_spec k "PREPEND_PATH") as [-> | H3]; [repeat split |].
  destruct (String.eqb_spec k "LD_LIBRARY_PATH") as [-> | H4]; repeat split.
Qed.

(** A variable that each iteration sets from the key [K] alone holds, after
    the loop, the binding of [K] when there is one. *)
Lemma loop_field (f : EnvState -> string) (K : string) :
  (forall st k v,
     f (applyRuntimeEntry st (k, v)) = if String.eqb k K then v else f st) ->
  forall (kvs : list (string * string)) (st : EnvState),
    NoDup kvs.*1 ->
    f (fold_left applyRuntimeEntry kvs st) =
      default (f st) ((list_to_map kvs : gmap string string) !! K).
Proof.
  intros Hstep kvs. induction kvs as [| [k v] kvs IH]; intros st Hnd.
  - reflexivity.
  - cbn [fold_left]. rewrite fmap_cons in Hnd. cbn [fst] in Hnd.
    apply NoDup_cons in Hnd as [Hfresh Hnd].
    rewrite (IH _ Hnd), Hstep. cbn [list_to_map foldr uncurry].
    destruct (String.eqb_spec k K) as [-> | Hne].
    + rewrite lookup_insert_eq.
      now rewrite (not_elem_of_list_to_map_1 _ _ Hfresh).
    + now rewrite lookup_insert_ne.
Qed.

(** A possible order of a map determines the map. *)
Lemma range_order_NoDup (m : gmap string string)
    (kvs : list (string * string)) :
  range_order m kvs -> NoDup kvs.*1.
Proof.
  unfold range_order. intros Hp. rewrite Hp. apply NoDup_fst_map_to_list.
Qed.

Lemma range_order_map (m : gmap string string)
    (kvs : list (string * string)) :
  range_order m kvs -> list_to_map kvs = m.
Proof.
  intros Hp. rewrite <- (list_to_map_to_list m).
  apply list_to_map_proper; [now apply (range_order_NoDup m) | exact Hp].
Qed.

Lemma range_order_elem (m : gmap string string)
    (kvs : list (string * string)) (k v : string) :
  range_order m kvs -> ((k, v) ∈ kvs <-> m !! k = Some v).
Proof.
  unfold range_order. intros Hp. rewrite Hp. apply elem_of_map_to_list.
Qed.

(** What an entry with its two parts declares. *)
Lemma declares_entry (K k v : string) :
  lacks "="%char K = true -> lacks "="%char k = true ->
  declares K (k ++ "=" ++ v) = if String.eqb k K then Some v else None.
Proof.
  intros HK Hk. unfold declares. rewrite (entry_named K k v HK Hk).
  destruct (String.eqb_spec k K) as [-> | Hne]; [| reflexivity].
  now rewrite <- append_assoc, drop_chars_app.
Qed.

(** One iteration of the first loop takes the value the entry declares. *)
Lemma scanImageEntry_declares (st : EnvState) (e : string) :
  path (scanImageEntry st e) = default (path st) (declares "PATH" e) /\
  ldLibraryPath (scanImageEntry st e) =
    default (ldLibraryPath st) (declares "LD_LIBRARY_PATH" e).
Proof.
  unfold scanImageEntry. destruct (SplitN_eq e) as [[k v] |] eqn:Hs.
  - pose proof (SplitN_eq_key e k v Hs) as Hk.
    apply SplitN_eq_inv in Hs. subst e.
    rewrite !declares_entry by (trivial; reflexivity).
    destruct (String.eqb k "PATH"), (String.eqb k "LD_LIBRARY_PATH");
      split; reflexivity.
  - unfold declares.
    rewrite (SplitN_eq_None_named e "PATH" eq_refl Hs).
    rewrite (SplitN_eq_None_named e "LD_LIBRARY_PATH" eq_refl Hs).
    split; reflexivity.
Qed.

(** The first loop finds the last PATH and the last LD_LIBRARY_PATH of the
    image ENV. *)
Lemma scan_lastDeclared (envs : list string) (st : EnvState) :
  path (fold_left scanImageEntry envs st) =
    default (path st) (lastDeclared "PATH" envs) /\
  ldLibraryPath (fold_left scanImageEntry envs st) =
    default (ldLibraryPath st) (lastDeclared "LD_LIBRARY_PATH" envs).
Proof.
  revert st. induction envs as [| e envs IH]; intros st;
    cbn [fold_left lastDeclared]; [split; reflexivity |].
  destruct (IH (scanImageEntry st e)) as [-> ->].
  destruct (scanImageEntry_declares st e) as [Hp Hl].
  split.
  - destruct (lastDeclared "PATH" envs); [reflexivity | exact Hp].
  - destruct (lastDeclared "LD_LIBRARY_PATH" envs); [reflexivity | exact Hl].
Qed.

(** The four variables after both loops, read off the two inputs. *)
Lemma envAfterLoops_fields (imageEnv : list string)
    (m : gmap string string) (kvs : list (string * string)) :
  range_order m kvs ->
  path (envAfterLoops imageEnv kvs) = basePath imageEnv m /\
  appendPath (envAfterLoops imageEnv kvs) = default "" (m !! "APPEND_PATH") /\
  prependPath (envAfterLoops imageEnv kvs) = default "" (m !! "PREPEND_PATH") /\
  ldLibraryPath (envAfterLoops imageEnv kvs) = baseLdLibraryPath imageEnv m.
Proof.
  intros Hord. pose proof (range_order_NoDup m kvs Hord) as Hnd.
  pose proof (range_order_map m kvs Hord) as Hmap.
  unfold envAfterLoops, basePath, baseLdLibraryPath.
  set (st0 := mkEnvState "" "" "" "" imageEnv).
  destruct (scan_fields imageEnv st0) as (_ & Ha & Hp).
  destruct (scan_lastDeclared imageEnv st0) as [Hpath Hld].
  repeat split.
  - rewrite (loop_field path "PATH") by
      (trivial; intros; apply apply_entry_fields).
    rewrite Hmap, Hpath. now destruct (m !! "PATH").
  - rewrite (loop_field appendPath "APPEND_PATH") by
      (trivial; intros; apply apply_entry_fields).
    now rewrite Hmap, Ha.
  - rewrite (loop_field prependPath "PREPEND_PATH") by
      (trivial; intros; apply apply_entry_fields).
    now rewrite Hmap, Hp.
  - rewrite (loop_field ldLibraryPath "LD_LIBRARY_PATH") by
      (trivial; intros; apply apply_entry_fields).
    rewrite Hmap, Hld. now destruct (m !! "LD_LIBRARY_PATH").
Qed.

Lemma envAfterLoops_genEnv_entries (imageEnv : list string)
    (kvs : list (string * string)) (e : string) :
  In e (genEnv (envAfterLoops imageEnv kvs)) ->
  In e imageEnv \/
  exists k v, (k, v) ∈ kvs /\ special_key k = false /\ e = k ++ "=" ++ v.
Proof.
  unfold envAfterLoops. intros H.
  apply apply_loop_entries in H as [H | H]; [left | now right].
  destruct (scan_fields imageEnv (mkEnvState "" "" "" "" imageEnv)) as (Hg & _).
  now rewrite Hg in H.
Qed.

Lemma keys_lack_eq_spec (m : gmap string string) (k v : string) :
  keys_lack_eq m = true -> m !! k = Some v -> lacks "="%char k = true.
Proof.
  unfold keys_lack_eq. rewrite forallb_forall. intros Hall Hk.
  apply (Hall (k, v)). apply list_elem_of_In. now apply elem_of_map_to_list.
Qed.

(** *** PATH *)

Lemma composePath_law (base a p : string) :
  composePath base a p =
    (if String.eqb p "" then "" else p ++ ":") ++ base ++
    (if String.eqb a "" then "" else ":" ++ a).
Proof.
  unfold composePath.
  destruct (String.eqb p ""), (String.eqb a "");
    cbn [String.append]; rewrite ?append_nil_r, ?append_assoc; reflexivity.
Qed.

(** The entries of the result: those of the image ENV, the writes of the
    runtime keys that are not special, the composed PATH and the ensured
    LD_LIBRARY_PATH. *)
Lemma getProcessEnv_ranged_entries (imageSpec : Image)
    (kvs : list (string * string)) (e : string) :
  let st := envAfterLoops (Env (Config imageSpec)) kvs in
  In e (getProcessEnv_ranged imageSpec kvs) ->
  e = "LD_LIBRARY_PATH=" ++ ensureLibs (ldLibraryPath st) \/
  e = "PATH=" ++ composePath (path st) (appendPath st) (prependPath st) \/
  In e (Env (Config imageSpec)) \/
  exists k v, (k, v) ∈ kvs /\ special_key k = false /\ e = k ++ "=" ++ v.
Proof.
  cbv zeta. unfold getProcessEnv_ranged. intros H.
  apply SetProcessEnv_entries in H as [-> | H]; [now left |].
  right.
  destruct (String.eqb (composePath _ _ _) "").
  - right. now apply envAfterLoops_genEnv_entries.
  - apply SetProcessEnv_entries in H as [-> | H]; [now left |].
    right. now apply envAfterLoops_genEnv_entries.
Qed.

(** *** The entries of one name *)

Lemma named_SetProcessEnv_same (k v : string) (env : list string) :
  named k (SetProcessEnv k v env) = (k ++ "=" ++ v) :: tl (named k env).
Proof.
  assert (Hself : HasPrefix (k ++ "=" ++ v) (k ++ "=") = true).
  { rewrite <- append_assoc. apply HasPrefix_app. }
  unfold named. induction env as [| e env IH]; cbn [SetProcessEnv List.filter].
  - now rewrite Hself.
  - destruct (HasPrefix e (k ++ "=")) eqn:He; cbn [List.filter].
    + now rewrite Hself.
    + now rewrite He, IH.
Qed.

Lemma named_SetProcessEnv_other (K k v : string) (env : list string) :
  lacks "="%char K = true -> lacks "="%char k = true -> k <> K ->
  named K (SetProcessEnv k v env) = named K env.
Proof.
  intros HK Hk Hne.
  assert (Hnew : forall x, HasPrefix (k ++ "=" ++ x) (K ++ "=") = false).
  { intros x. rewrite (entry_named K k x HK Hk). now apply String.eqb_neq. }
  unfold named. induction env as [| e env IH]; cbn [SetProcessEnv List.filter].
  - now rewrite Hnew.
  - destruct (HasPrefix e (k ++ "=")) eqn:He; cbn [List.filter].
    + rewrite Hnew. apply HasPrefix_split in He. rewrite append_assoc in He.
      rewrite He at 1. now rewrite Hnew.
    + now rewrite IH.
Qed.

(** One iteration of the second loop leaves the entries named [K] alone,
    unless it writes [K] itself. *)
Lemma apply_named_other (st : EnvState) (K k v : string) :
  lacks "="%char K = true -> lacks "="%char k = true ->
  special_key K = true \/ k <> K ->
  named K (genEnv (applyRuntimeEntry st (k, v))) = named K (genEnv st).
Proof.
  intros HK Hk Hor. destruct (special_key k) eqn:Hs.
  - now rewrite apply_special_genEnv.
  - rewrite (apply_nonspecial st k v Hs). cbn [genEnv].
    apply named_SetProcessEnv_other; trivial.
    destruct Hor as [HsK | Hne]; [| exact Hne]. intros ->. congruence.
Qed.

Lemma loop_named_unwritten (kvs : list (string * string)) (st : EnvState)
    (K : string) :
  lacks "="%char K = true ->
  Forall (fun kv => lacks "="%char (fst kv) = true) kvs ->
  special_key K = true \/ K ∉ kvs.*1 ->
  named K (genEnv (fold_left applyRuntimeEntry kvs st)) = named K (genEnv st).
Proof.
  intros HK. revert st. induction kvs as [| [k v] kvs IH]; intros st Hall Hor;
    cbn [fold_left]; [reflexivity |].
  apply Forall_cons in Hall as [Hk Hall]. cbn [fst] in Hk.
  rewrite fmap_cons in Hor. cbn [fst] in Hor.
  rewrite IH; trivial.
  - apply apply_named_other; trivial.
    destruct Hor as [HsK | Hnot]; [now left | right].
    intros ->. apply Hnot. now left.
  - destruct Hor as [HsK | Hnot]; [now left | right].
    intros Hin. apply Hnot. now right.
Qed.

Lemma loop_named_written (kvs : list (string * string)) (st : EnvState)
    (K v : string) :
  lacks "="%char K = true ->
  Forall (fun kv => lacks "="%char (fst kv) = true) kvs ->
  NoDup kvs.*1 -> special_key K = false -> (K, v) ∈ kvs ->
  named K (genEnv (fold_left applyRuntimeEntry kvs st)) =
    (K ++ "=" ++ v) :: tl (named K (genEnv st)).
Proof.
  intros HK. revert st.
  induction kvs as [| [k v'] kvs IH]; intros st Hall Hnd HsK Hin;
    cbn [fold_left].
  { now apply elem_of_nil in Hin. }
  apply Forall_cons in Hall as [Hk Hall]. cbn [fst] in Hk.
  rewrite fmap_cons in Hnd. cbn [fst] in Hnd.
  apply NoDup_cons in Hnd as [Hfresh Hnd].
  apply elem_of_cons in Hin as [[= <- <-] | Hin].
  - rewrite loop_named_unwritten by (trivial; now right).
    rewrite (apply_nonspecial st K v HsK). cbn [genEnv].
    apply named_SetProcessEnv_same.
  - rewrite IH; trivial. f_equal. f_equal.
    apply apply_named_other; trivial. right. intros ->.
    apply Hfresh. apply list_elem_of_fmap. now exists (K, v).
Qed.

(** The entries of each name in the result of [getProcessEnv]: those of the
    image ENV, the first of them overwritten by what is written under that
    name, which is appended when the image ENV has none. *)
Lemma getProcessEnv_named
    (rangeOf : gmap string string -> list (string * string))
    (imageSpec : Image) (m : gmap string string) (K : string) :
  range_policy rangeOf -> keys_lack_eq m = true ->
  lacks "="%char K = true ->
  let imageEnv := Env (Config imageSpec) in
  let final := composePath (basePath imageEnv m)
                 (default "" (m !! "APPEND_PATH"))
                 (default "" (m !! "PREPEND_PATH")) in
  named K (getProcessEnv rangeOf imageSpec m) =
    if String.eqb K "LD_LIBRARY_PATH" then
      ("LD_LIBRARY_PATH" ++ "=" ++ ensureLibs (baseLdLibraryPath imageEnv m))
        :: tl (named K imageEnv)
    else if String.eqb K "PATH" then
      if String.eqb final "" then named K imageEnv
      else ("PATH" ++ "=" ++ final) :: tl (named K imageEnv)
    else if special_key K then named K imageEnv
    else match m !! K with
         | Some v => (K ++ "=" ++ v) :: tl (named K imageEnv)
         | None => named K imageEnv
         end.
Proof.
  intros Hpol Hkeys HK. cbv zeta. unfold getProcessEnv.
  pose proof (Hpol m) as Hord. set (kvs := rangeOf m) in *.
  destruct (envAfterLoops_fields (Env (Config imageSpec)) m kvs Hord)
    as (Hpath & Happ & Hpre & Hld).
  pose proof (range_order_NoDup m kvs Hord) as Hnd.
  assert (Hall : Forall (fun kv => lacks "="%char (fst kv) = true) kvs).
  { apply Forall_forall. intros [k v] Hin. cbn [fst].
    apply (keys_lack_eq_spec m k v Hkeys).
    now apply (range_order_elem m kvs). }
  assert (Hgen : named K (genEnv (envAfterLoops (Env (Config imageSpec)) kvs)) =
                 if special_key K then named K (Env (Config imageSpec))
                 else match m !! K with
                      | Some v => (K ++ "=" ++ v)
                                    :: tl (named K (Env (Config imageSpec)))
                      | None => named K (Env (Config imageSpec))
                      end).
  { unfold envAfterLoops.
    destruct (scan_fields (Env (Config imageSpec))
                (mkEnvState "" "" "" "" (Env (Config imageSpec)))) as (Hg & _).
    cbn [genEnv] in Hg.
    destruct (special_key K) eqn:HsK.
    - rewrite loop_named_unwritten by (trivial; now left). now rewrite Hg.
    - destruct (m !! K) as [v |] eqn:Hm.
      + rewrite (loop_named_written kvs _ K v) by
          (trivial; now apply (range_order_elem m kvs)).
        now rewrite Hg.
      + rewrite loop_named_unwritten; [now rewrite Hg | trivial | trivial |].
        right. intros Hin. apply list_elem_of_fmap in Hin as ([k v] & -> & Hin).
        apply (range_order_elem m kvs k v Hord) in Hin. cbn [fst] in Hm.
        congruence. }
  unfold getProcessEnv_ranged. cbv zeta.
  rewrite Hpath, Happ, Hpre, Hld.
  set (final := composePath _ _ _).
  set (ld := ensureLibs _).
  set (gen := genEnv _) in *.
  destruct (String.eqb_spec K "LD_LIBRARY_PATH") as [-> | HneL].
  { rewrite named_SetProcessEnv_same. f_equal. f_equal.
    destruct (String.eqb final "").
    - exact Hgen.
    - rewrite named_SetProcessEnv_other by (trivial; discriminate).
      exact Hgen. }
  rewrite named_SetProcessEnv_other by (trivial; congruence).
  destruct (String.eqb_spec K "PATH") as [-> | HneP].
  { destruct (String.eqb final "").
    - exact Hgen.
    - rewrite named_SetProcessEnv_same. f_equal. f_equal. exact Hgen. }
  destruct (String.eqb final "").
  - exact Hgen.
  - rewrite named_SetProcessEnv_other by (trivial; congruence). exact Hgen.
Qed.

(** The last entry that declares a name is the one [lastDeclared] finds. *)
Lemma lastDeclared_last (k : string) (l1 : list string) (e : string)
    (l2 : list string) (v : string) :
  declares k e = Some v -> Forall (fun e' => declares k e' = None) l2 ->
  lastDeclared k (l1 ++ e :: l2) = Some v.
Proof.
  intros He Hl2.
  assert (Hnone : lastDeclared k l2 = None).
  { induction Hl2 as [| e' l2 He' _ IH]; cbn [lastDeclared];
      [reflexivity | now rewrite IH]. }
  induction l1 as [| e1 l1 IH]; cbn [app lastDeclared].
  - now rewrite Hnone.
  - now rewrite IH.
Qed.

Lemma lastDeclared_none (k : string) (l : list string) :
  Forall (fun e => declares k e = None) l -> lastDeclared k l = None.
Proof.
  induction 1 as [| e l He _ IH]; cbn [lastDeclared];
    [reflexivity | now rewrite IH].
Qed.

Example last_of_two_paths :
  lastDeclared "PATH" ["PATH=/a"; "X=1"; "PATH=/b"; "PATHS=/c"; "Y"]
  = Some "/b".
Proof. reflexivity. Qed.

(** C7 (as amended): for every image and runtime environment whose keys
    hold no "=", whatever the order of the range over the map: the final
    PATH is the base PATH (the runtime PATH, else the value of the last PATH
    entry of the image ENV, else empty) followed by ":" and APPEND_PATH when
    APPEND_PATH is not empty, and preceded by PREPEND_PATH and ":" when
    PREPEND_PATH is not empty, the base segment and the separators next to
    it being kept also when the base is empty. When this PATH is not empty
    it is written: it is the first entry named PATH of the result, in the
    place of the first PATH entry of the image ENV when there is one, the
    later PATH entries of the image staying behind it. When it is empty
    nothing is written: the entries named PATH are those of the image ENV.
    The entries named APPEND_PATH and PREPEND_PATH are those of the image
    ENV and no others: the runtime values of these names are never
    written. *)
Theorem c7_path_composition
    (rangeOf : gmap string string -> list (string * string))
    (imageSpec : Image) (runtimeEnv : gmap string string) :
  range_policy rangeOf ->
  keys_lack_eq runtimeEnv = true ->
  let imageEnv := Env (Config imageSpec) in
  let base := basePath imageEnv runtimeEnv in
  let a := default "" (runtimeEnv !! "APPEND_PATH") in
  let p := default "" (runtimeEnv !! "PREPEND_PATH") in
  let final := (if String.eqb p "" then "" else p ++ ":") ++ base ++
               (if String.eqb a "" then "" else ":" ++ a) in
  let out := getProcessEnv rangeOf imageSpec runtimeEnv in
  (final <> "" ->
     In ("PATH=" ++ final) out /\
     named "PATH" out = ("PATH=" ++ final) :: tl (named "PATH" imageEnv)) /\
  (final = "" -> named "PATH" out = named "PATH" imageEnv) /\
  named "APPEND_PATH" out = named "APPEND_PATH" imageEnv /\
  named "PREPEND_PATH" out = named "PREPEND_PATH" imageEnv.
Proof.
  intros Hpol Hkeys. cbv zeta.
  rewrite <- composePath_law.
  pose proof (getProcessEnv_named rangeOf imageSpec runtimeEnv "PATH"
                Hpol Hkeys eq_refl) as HP.
  pose proof (getProcessEnv_named rangeOf imageSpec runtimeEnv "APPEND_PATH"
                Hpol Hkeys eq_refl) as HA.
  pose proof (getProcessEnv_named rangeOf imageSpec runtimeEnv "PREPEND_PATH"
                Hpol Hkeys eq_refl) as HR.
  cbv zeta in HP, HA, HR.
  change (String.eqb "PATH" "LD_LIBRARY_PATH") with false in HP.
  change (String.eqb "PATH" "PATH") with true in HP.
  cbv beta iota in HP.
  split; [| split; [| split]].
  - intros Hne. apply String.eqb_neq in Hne. rewrite Hne in HP.
    split; [| exact HP].
    assert (Hin : In ("PATH=" ++ composePath (basePath (Env (Config imageSpec))
                                                 runtimeEnv)
                                   (default "" (runtimeEnv !! "APPEND_PATH"))
                                   (default "" (runtimeEnv !! "PREPEND_PATH")))
                     (named "PATH" (getProcessEnv rangeOf imageSpec runtimeEnv))).
    { rewrite HP. now left. }
    unfold named in Hin. apply filter_In in Hin as [Hin _]. exact Hin.
  - intros Heq. rewrite Heq in HP. exact HP.
  - exact HA.
  - exact HR.
Qed.

Lemma map_to_list_policy : range_policy map_to_list.
Proof. intros m. unfold range_order. reflexivity. Defined.

(** The design document's example: image PATH=/a, APPEND_PATH=/b and
    PREPEND_PATH=/c. *)
Lemma c7_path_composition_witness :
  let imageSpec := mkImage (mkImageConfig [] [] ["PATH=/a"]) in
  let runtimeEnv : gmap string string :=
    <["APPEND_PATH" := "/b"]> (<["PREPEND_PATH" := "/c"]> ∅) in
  let out := getProcessEnv map_to_list imageSpec runtimeEnv in
  ("/c:/a:/b" <> "" ->
     In "PATH=/c:/a:/b" out /\ named "PATH" out = ["PATH=/c:/a:/b"]) /\
  ("/c:/a:/b" = "" -> named "PATH" out = ["PATH=/a"]) /\
  named "APPEND_PATH" out = [] /\
  named "PREPEND_PATH" out = [].
Proof.
  exact (c7_path_composition map_to_list
           (mkImage (mkImageConfig [] [] ["PATH=/a"]))
           (<["APPEND_PATH" := "/b"]> (<["PREPEND_PATH" := "/c"]> ∅))
           map_to_list_policy eq_refl).
Defined.

(** An image ENV with two PATH entries and nothing else: the last one is
    the base, the first one is overwritten and the second one stays. *)
Example path_twice_in_image :
  getProcessEnv map_to_list
    (mkImage (mkImageConfig [] [] ["PATH=/a"; "HOME=/root"; "PATH=/b"]))
    (<["APPEND_PATH" := "/c"]> ∅)
  = ["PATH=/b:/c"; "HOME=/root"; "PATH=/b";
     "LD_LIBRARY_PATH=/.singularity.d/libs"].
Proof. vm_compute. reflexivity. Qed.

(** No PATH anywhere: none is written. *)
Example path_not_written :
  getProcessEnv map_to_list (mkImage (mkImageConfig [] [] ["HOME=/root"])) ∅
  = ["HOME=/root"; "LD_LIBRARY_PATH=/.singularity.d/libs"].
Proof. vm_compute. reflexivity. Qed.

Example path_append_example :
  getProcessEnv map_to_list (mkImage (mkImageConfig [] [] ["PATH=/a"]))
    (<["APPEND_PATH" := "/b"]> ∅)
  = ["PATH=/a:/b"; "LD_LIBRARY_PATH=/.singularity.d/libs"].
Proof. vm_compute. reflexivity. Qed.

Example path_append_prepend_example :
  getProcessEnv map_to_list (mkImage (mkImageConfig [] [] ["PATH=/a"]))
    (<["APPEND_PATH" := "/b"]> (<["PREPEND_PATH" := "/c"]> ∅))
  = ["PATH=/c:/a:/b"; "LD_LIBRARY_PATH=/.singularity.d/libs"].
Proof. vm_compute. reflexivity. Qed.

(** C7 as stated fails when the base PATH is empty: with no PATH anywhere
    and APPEND_PATH=/b the code writes PATH=:/b, keeping the separator of the
    empty segment, where the documented value is /b; and an APPEND_PATH
    entry of the image ENV stays in the result as it is. *)
Lemma c7_empty_base_counterexample :
  getProcessEnv map_to_list (mkImage (mkImageConfig [] [] []))
    (<["APPEND_PATH" := "/b"]> ∅)
  = ["PATH=:/b"; "LD_LIBRARY_PATH=/.singularity.d/libs"] /\
  documentedPath "" "" "/b" = "/b" /\
  getProcessEnv map_to_list
    (mkImage (mkImageConfig [] [] ["APPEND_PATH=/x"])) ∅
  = ["APPEND_PATH=/x"; "LD_LIBRARY_PATH=/.singularity.d/libs"].
Proof.
  split; [vm_compute; reflexivity |].
  split; vm_compute; reflexivity.
Qed.

(** *** LD_LIBRARY_PATH *)

Lemma apptainerLibs_shape :
  lacks ":"%char apptainerLibs = true /\ apptainerLibs <> "" /\
  occurrences apptainerLibs apptainerLibs = 1.
Proof. repeat split. discriminate. Qed.

Lemma ensureLibs_appended (ld : string) :
  occurrences ld apptainerLibs = 0 ->
  occurrences (TrimPrefix (ld ++ ":" ++ apptainerLibs) ":") apptainerLibs = 1.
Proof.
  destruct apptainerLibs_shape as (Hl & Hne & Hself). intros Hz.
  rewrite TrimPrefix_char. destruct ld as [| a ld].
  - exact Hself.
  - change (String a ld ++ ":" ++ apptainerLibs)
      with (String a (ld ++ String ":" apptainerLibs)).
    cbv beta iota.
    destruct (Ascii.eqb_spec a ":"%char) as [-> | Hne'].
    + rewrite (occurrences_across ":" ld apptainerLibs Hl Hne), Hself.
      rewrite (occurrences_skip ":" ld apptainerLibs Hl Hne) in Hz. lia.
    + change (String a (ld ++ String ":" apptainerLibs))
        with (String a ld ++ String ":" apptainerLibs).
      rewrite (occurrences_across ":" (String a ld) apptainerLibs Hl Hne), Hself.
      lia.
Qed.

Lemma ensureLibs_occurrences (ld : string) :
  occurrences (ensureLibs ld) apptainerLibs =
    Nat.max 1 (occurrences ld apptainerLibs).
Proof.
  unfold ensureLibs. destruct (Contains ld apptainerLibs) eqn:Hc.
  - apply Contains_occurrences in Hc. lia.
  - apply Contains_false_occurrences in Hc.
    rewrite (ensureLibs_appended ld Hc), Hc. reflexivity.
Qed.

Lemma ensureLibs_contains (ld : string) :
  Contains (ensureLibs ld) apptainerLibs = true.
Proof.
  apply Contains_occurrences. rewrite ensureLibs_occurrences. lia.
Qed.

Lemma ensureLibs_idempotent (ld : string) :
  ensureLibs (ensureLibs ld) = ensureLibs ld.
Proof.
  unfold ensureLibs at 1. now rewrite ensureLibs_contains.
Qed.

(** *** The directories a search path names *)

Lemma searchPath_cons (s : string) :
  searchPath s = hd "" (searchPath s) :: tl (searchPath s).
Proof.
  destruct s as [| a s]; cbn [searchPath]; [reflexivity |].
  destruct (Ascii.eqb a ":"); reflexivity.
Qed.

(** A colon between two search paths separates their directories. *)
Lemma searchPath_app (s t : string) :
  searchPath (s ++ ":" ++ t) = (searchPath s ++ searchPath t)%list.
Proof.
  induction s as [| a s IH].
  - reflexivity.
  - change (String a s ++ ":" ++ t) with (String a (s ++ ":" ++ t)).
    cbn [searchPath]. rewrite IH.
    destruct (Ascii.eqb a ":"); [reflexivity |].
    rewrite (searchPath_cons s). reflexivity.
Qed.

Lemma searchPath_hd (s : string) : HasPrefix s (hd "" (searchPath s)) = true.
Proof.
  induction s as [| a s IH]; cbn [searchPath]; [reflexivity |].
  destruct (Ascii.eqb a ":"); cbn [hd HasPrefix]; [reflexivity |].
  now rewrite Ascii.eqb_refl, IH.
Qed.

(** A directory the search path names occurs in its text. *)
Lemma searchPath_Contains (s d : string) :
  In d (searchPath s) -> Contains s d = true.
Proof.
  induction s as [| a s IH]; cbn [searchPath].
  - intros [<- | []]. reflexivity.
  - cbn [Contains]. destruct (Ascii.eqb a ":").
    + intros [<- | Hin]; [reflexivity |].
      rewrite (IH Hin). apply orb_true_r.
    + intros [<- | Hin].
      * cbn [HasPrefix]. now rewrite Ascii.eqb_refl, searchPath_hd.
      * rewrite IH; [apply orb_true_r |].
        rewrite searchPath_cons. now right.
Qed.

Lemma timesNamed_absent (s d : string) :
  Contains s d = false -> timesNamed d s = 0%nat.
Proof.
  intros Hc. unfold timesNamed.
  assert (Hno : forall l, (forall x, In x l -> x <> d) ->
                  List.filter (String.eqb d) l = []).
  { induction l as [| x l IHl]; intros Hl; cbn [List.filter]; [reflexivity |].
    destruct (String.eqb_spec d x) as [-> | _].
    - now contradiction (Hl x (or_introl eq_refl)).
    - apply IHl. intros y Hy. apply Hl. now right. }
  rewrite Hno; [reflexivity |].
  intros x Hx ->. apply searchPath_Contains in Hx. congruence.
Qed.

Lemma timesNamed_app (d s t : string) :
  timesNamed d (s ++ ":" ++ t) = (timesNamed d s + timesNamed d t)%nat.
Proof.
  unfold timesNamed. now rewrite searchPath_app, List.filter_app, length_app.
Qed.

Lemma timesNamed_present (s d : string) :
  In d (searchPath s) -> (1 <= timesNamed d s)%nat.
Proof.
  unfold timesNamed. intros Hin.
  assert (Hf : In d (List.filter (String.eqb d) (searchPath s))).
  { apply filter_In. split; [exact Hin | apply String.eqb_refl]. }
  destruct (List.filter (String.eqb d) (searchPath s)); [destruct Hf |].
  cbn [length]. lia.
Qed.

(** Appending the directory to a value that does not hold it names it
    once. *)
Lemma ensureLibs_appended_once (ld : string) :
  Contains ld apptainerLibs = false ->
  timesNamed apptainerLibs (TrimPrefix (ld ++ ":" ++ apptainerLibs) ":")
    = 1%nat.
Proof.
  intros Hc. rewrite TrimPrefix_char. destruct ld as [| a ld].
  - reflexivity.
  - change (String a ld ++ ":" ++ apptainerLibs)
      with (String a (ld ++ ":" ++ apptainerLibs)).
    cbv beta iota.
    destruct (Ascii.eqb_spec a ":"%char) as [-> | Hne].
    + rewrite timesNamed_app.
      assert (Hc' : Contains ld apptainerLibs = false).
      { cbn [Contains] in Hc. now apply orb_false_iff in Hc as [_ Hc]. }
      now rewrite (timesNamed_absent ld _ Hc').
    + change (String a (ld ++ ":" ++ apptainerLibs))
        with (String a ld ++ ":" ++ apptainerLibs).
      rewrite timesNamed_app. now rewrite (timesNamed_absent _ _ Hc).
Qed.

(** C8 (as amended): whatever LD_LIBRARY_PATH comes in (the runtime value,
    else the last one of the image ENV, else none), the result has an
    LD_LIBRARY_PATH entry with the ensured value. When the incoming value
    does not hold the text of the library directory (so when it is absent
    or empty), the directory is appended after a ":" (an empty value giving
    the directory alone) and the ensured value names it exactly once. When
    the incoming value names the directory as one of the directories between
    its colons, the value is left as it is: it names the directory at least
    once, and exactly once when it did so before. Ensuring the directory a
    second time changes nothing, whatever the value. *)
Theorem c8_ld_library_path
    (rangeOf : gmap string string -> list (string * string))
    (imageSpec : Image) (runtimeEnv : gmap string string) :
  range_policy rangeOf ->
  let ld := baseLdLibraryPath (Env (Config imageSpec)) runtimeEnv in
  let out := ensureLibs ld in
  In ("LD_LIBRARY_PATH=" ++ out) (getProcessEnv rangeOf imageSpec runtimeEnv) /\
  (Contains ld apptainerLibs = false ->
     out = TrimPrefix (ld ++ ":" ++ apptainerLibs) ":" /\
     In apptainerLibs (searchPath out) /\
     timesNamed apptainerLibs out = 1) /\
  (In apptainerLibs (searchPath ld) ->
     out = ld /\
     1 <= timesNamed apptainerLibs out /\
     (timesNamed apptainerLibs ld = 1 -> timesNamed apptainerLibs out = 1)) /\
  (ld = "" -> out = apptainerLibs) /\
  ensureLibs out = out.
Proof.
  intros Hpol. cbv zeta. unfold getProcessEnv.
  pose proof (Hpol runtimeEnv) as Hord.
  destruct (envAfterLoops_fields (Env (Config imageSpec)) runtimeEnv
              (rangeOf runtimeEnv) Hord) as (_ & _ & _ & Hld).
  rewrite <- Hld.
  set (ld := ldLibraryPath _).
  split.
  { unfold getProcessEnv_ranged. cbv zeta. fold ld.
    exact (SetProcessEnv_In "LD_LIBRARY_PATH" _ _). }
  split.
  { intros Hc. unfold ensureLibs. rewrite Hc.
    pose proof (ensureLibs_appended_once ld Hc) as Honce.
    split; [reflexivity |]. split; [| exact Honce].
    unfold timesNamed in Honce.
    destruct (List.filter (String.eqb apptainerLibs)
                (searchPath (TrimPrefix (ld ++ ":" ++ apptainerLibs) ":")))
      as [| x l] eqn:Hf; [discriminate Honce |].
    assert (Hx : In x (x :: l)) by now left.
    rewrite <- Hf in Hx. apply filter_In in Hx as [Hx Heq].
    apply String.eqb_eq in Heq. now subst x. }
  split.
  { intros Hin. pose proof (searchPath_Contains ld _ Hin) as Hc.
    unfold ensureLibs. rewrite Hc.
    split; [reflexivity |]. split; [| trivial].
    now apply timesNamed_present. }
  split; [intros ->; reflexivity |].
  apply ensureLibs_idempotent.
Qed.

Lemma c8_ld_library_path_witness :
  let imageSpec := mkImage (mkImageConfig [] [] []) in
  let runtimeEnv : gmap string string := <["LD_LIBRARY_PATH" := "/usr/lib"]> ∅ in
  let ld := "/usr/lib" in
  let out := "/usr/lib:/.singularity.d/libs" in
  In ("LD_LIBRARY_PATH=" ++ out) (getProcessEnv map_to_list imageSpec runtimeEnv) /\
  (Contains ld apptainerLibs = false ->
     out = TrimPrefix (ld ++ ":" ++ apptainerLibs) ":" /\
     In apptainerLibs (searchPath out) /\
     timesNamed apptainerLibs out = 1) /\
  (In apptainerLibs (searchPath ld) ->
     out = ld /\
     1 <= timesNamed apptainerLibs out /\
     (timesNamed apptainerLibs ld = 1 -> timesNamed apptainerLibs out = 1)) /\
  (ld = "" -> out = apptainerLibs) /\
  ensureLibs out = out.
Proof.
  exact (c8_ld_library_path map_to_list (mkImage (mkImageConfig [] [] []))
           (<["LD_LIBRARY_PATH" := "/usr/lib"]> ∅) map_to_list_policy).
Defined.

(** The three incoming values the design document names. *)
Example ld_absent :
  getProcessEnv map_to_list (mkImage (mkImageConfig [] [] [])) ∅
  = ["LD_LIBRARY_PATH=/.singularity.d/libs"].
Proof. vm_compute. reflexivity. Qed.

Example ld_empty :
  getProcessEnv map_to_list (mkImage (mkImageConfig [] [] []))
    (<["LD_LIBRARY_PATH" := ""]> ∅)
  = ["LD_LIBRARY_PATH=/.singularity.d/libs"].
Proof. vm_compute. reflexivity. Qed.

Example ld_present :
  getProcessEnv map_to_list (mkImage (mkImageConfig [] [] []))
    (<["LD_LIBRARY_PATH" := "/.singularity.d/libs:/opt/lib"]> ∅)
  = ["LD_LIBRARY_PATH=/.singularity.d/libs:/opt/lib"].
Proof. vm_compute. reflexivity. Qed.

(** C8 as stated fails for an incoming value that already names the
    directory twice: it is left as it is, so the result names the directory
    twice and not exactly once. *)
Lemma c8_twice_counterexample :
  getProcessEnv map_to_list (mkImage (mkImageConfig [] [] []))
    (<["LD_LIBRARY_PATH" := "/.singularity.d/libs:/.singularity.d/libs"]> ∅)
  = ["LD_LIBRARY_PATH=/.singularity.d/libs:/.singularity.d/libs"] /\
  searchPath "/.singularity.d/libs:/.singularity.d/libs"
  = [apptainerLibs; apptainerLibs] /\
  timesNamed apptainerLibs "/.singularity.d/libs:/.singularity.d/libs" = 2.
Proof. repeat split; vm_compute; reflexivity. Qed.

(** A value that holds the text of the directory inside another name
    passes the test of line 274 and is left as it is as well, although it
    does not name the directory. *)
Example ld_text_inside_another_name :
  getProcessEnv map_to_list (mkImage (mkImageConfig [] [] []))
    (<["LD_LIBRARY_PATH" := "/opt/.singularity.d/libs64"]> ∅)
  = ["LD_LIBRARY_PATH=/opt/.singularity.d/libs64"] /\
  timesNamed apptainerLibs "/opt/.singularity.d/libs64" = 0.
Proof. split; vm_compute; reflexivity. Qed.

(** *** The default variables of [getProcess] *)

Lemma keys_lack_eq_intro (m : gmap string string) :
  (forall k v, m !! k = Some v -> lacks "="%char k = true) ->
  keys_lack_eq m = true.
Proof.
  intros H. unfold keys_lack_eq. apply forallb_forall. intros [k v] Hin.
  apply list_elem_of_In, elem_of_map_to_list in Hin. exact (H k v Hin).
Qed.

Lemma last_char_app (s t : string) :
  t <> "" -> last_char (s ++ t) = last_char t.
Proof.
  intros Ht. induction s as [| a s IH]; [reflexivity |].
  change (String a s ++ t) with (String a (s ++ t)).
  cbn [last_char]. rewrite IH.
  destruct (s ++ t) eqn:E; [| reflexivity].
  destruct s; [| discriminate E]. cbn in E. now contradiction Ht.
Qed.

(** The two default keys are not among the special keys, whatever the
    prefix: they do not end in "H". *)
Lemma default_keys_not_special (prefix : string) :
  special_key (prefix ++ "CONTAINER") = false /\
  special_key (prefix ++ "NAME") = false.
Proof.
  assert (H : forall t K : string, t <> "" -> last_char t <> last_char K ->
              String.eqb (prefix ++ t) K = false).
  { intros t K Ht Hl. apply String.eqb_neq. intros E. apply Hl.
    rewrite <- E. symmetry. now apply last_char_app. }
  unfold special_key.
  split; rewrite !H; try reflexivity; try discriminate.
Qed.

Lemma default_keys_lack_eq (prefix : string) :
  lacks "="%char prefix = true ->
  lacks "="%char (prefix ++ "CONTAINER") = true /\
  lacks "="%char (prefix ++ "NAME") = true.
Proof.
  intros H. rewrite !lacks_app, H. split; reflexivity.
Qed.

Lemma defaultEnv_lookup (prefix image bundle : string) :
  defaultEnv prefix image bundle !! (prefix ++ "CONTAINER") = Some bundle /\
  defaultEnv prefix image bundle !! (prefix ++ "NAME") = Some image.
Proof.
  unfold defaultEnv. split.
  - rewrite lookup_insert_ne, lookup_insert_eq; [reflexivity |].
    intros E. apply String.app_inj in E. discriminate E.
  - apply lookup_insert_eq.
Qed.

Lemma defaultEnv_keys (prefix image bundle k v : string) :
  lacks "="%char prefix = true ->
  defaultEnv prefix image bundle !! k = Some v -> lacks "="%char k = true.
Proof.
  intros Hp. unfold defaultEnv.
  destruct (default_keys_lack_eq prefix Hp) as [Hc Hn].
  intros H. apply lookup_insert_Some in H as [[<- _] | [_ H]]; [exact Hn |].
  apply lookup_insert_Some in H as [[<- _] | [_ H]]; [exact Hc |].
  now rewrite lookup_empty in H.
Qed.

Lemma apptainerEnvMap_keys {Err : Type} (envprefix : string) (host : Host Err)
    (k v : string) :
  apptainerEnvMap envprefix host !! k = Some v -> lacks "="%char k = true.
Proof.
  unfold apptainerEnvMap.
  assert (H : forall (envs : list string) (m : gmap string string),
            (forall k v, m !! k = Some v -> lacks "="%char k = true) ->
            forall k v, fold_left (apptainerEnvEntry envprefix) envs m !! k = Some v ->
                        lacks "="%char k = true).
  { induction envs as [| e envs IH]; intros m Hm; cbn [fold_left]; [exact Hm |].
    apply IH. unfold apptainerEnvEntry.
    destruct (negb (HasPrefix e envprefix)); [exact Hm |].
    destruct (SplitN_eq e) as [[k0 v0] |] eqn:Hs; [| exact Hm].
    intros k' v' Hk'.
    apply lookup_insert_Some in Hk' as [[<- _] | [_ Hk']].
    - apply lacks_TrimPrefix. now apply (SplitN_eq_key e k0 v0).
    - now apply (Hm k' v'). }
  apply H. intros k' v' Hk'. now rewrite lookup_empty in Hk'.
Qed.

Lemma envFileMap_keys {Err : Type} (host : Host Err) (f k v : string) :
  fst (envFileMap host f) !! k = Some v -> lacks "="%char k = true.
Proof.
  unfold envFileMap.
  assert (H : forall (envs : list string) (m : gmap string string),
            (forall k v, m !! k = Some v -> lacks "="%char k = true) ->
            forall k v, fold_left envFileEntry envs m !! k = Some v ->
                        lacks "="%char k = true).
  { induction envs as [| e envs IH]; intros m Hm; cbn [fold_left]; [exact Hm |].
    apply IH. unfold envFileEntry.
    destruct (SplitN_eq e) as [[k0 v0] |] eqn:Hs; [| exact Hm].
    destruct (shell_artifact k0); [exact Hm |].
    intros k' v' Hk'.
    apply lookup_insert_Some in Hk' as [[<- _] | [_ Hk']].
    - now apply (SplitN_eq_key e k0 v0).
    - now apply (Hm k' v'). }
  destruct (ReadFile host f) as [content | e]; cbn [fst].
  - destruct (EvaluateEnv host content) as [env | e]; cbn [fst].
    + apply H. intros k' v' Hk'. now rewrite lookup_empty in Hk'.
    + now rewrite lookup_empty.
  - now rewrite lookup_empty.
Qed.

Lemma mergeMap_lookup (a b : gmap string string) (k : string) :
  mergeMap a b !! k =
    match b !! k with Some v => Some v | None => a !! k end.
Proof.
  unfold mergeMap. rewrite lookup_union.
  destruct (b !! k), (a !! k); reflexivity.
Qed.

(** A runtime binding whose key is not special is an entry of the result. *)
Lemma getProcessEnv_written
    (rangeOf : gmap string string -> list (string * string))
    (imageSpec : Image) (m : gmap string string) (k v : string) :
  range_policy rangeOf -> keys_lack_eq m = true ->
  m !! k = Some v -> special_key k = false ->
  In (k ++ "=" ++ v) (getProcessEnv rangeOf imageSpec m).
Proof.
  intros Hpol Hkeys Hk Hs. unfold getProcessEnv, getProcessEnv_ranged.
  cbv zeta. pose proof (Hpol m) as Hord. set (kvs := rangeOf m) in *.
  pose proof (keys_lack_eq_spec m k v Hkeys Hk) as Hlk.
  destruct (special_key_false k Hs) as (H1 & _ & _ & H4).
  assert (Hin : In (k ++ "=" ++ v)
                   (genEnv (envAfterLoops (Env (Config imageSpec)) kvs))).
  { unfold envAfterLoops. apply apply_loop_written; trivial.
    - now apply (range_order_NoDup m).
    - intros k' v' Hk'. apply (keys_lack_eq_spec m k' v' Hkeys).
      now apply (range_order_elem m kvs).
    - now apply (range_order_elem m kvs). }
  apply SetProcessEnv_other; trivial.
  destruct (String.eqb _ ""); [assumption |].
  apply SetProcessEnv_other; trivial.
Qed.

(** The runtime environment of [getProcess]: the value of each key is that
    of the highest source that binds it, and no key holds "=". *)
Lemma runtimeEnvOf_lookup {Err : Type} (prefix envprefix : string)
    (host : Host Err) (cfg : Options) (image bundle : string)
    (rtEnv : gmap string string) (k : string) :
  runtimeEnvOf prefix envprefix host cfg image bundle = inl rtEnv ->
  rtEnv !! k =
    match CfgEnv cfg !! k with
    | Some v => Some v
    | None =>
      match envFileBindings host cfg !! k with
      | Some v => Some v
      | None =>
        match apptainerEnvMap envprefix host !! k with
        | Some v => Some v
        | None => defaultEnv prefix image bundle !! k
        end
      end
    end.
Proof.
  unfold runtimeEnvOf, envFileBindings.
  destruct (String.eqb (EnvFile cfg) ""); cbn [negb].
  - intros [= <-]. rewrite !mergeMap_lookup, lookup_empty. reflexivity.
  - destruct (envFileMap host (EnvFile cfg)) as [e [err |]]; [discriminate |].
    intros [= <-]. rewrite !mergeMap_lookup. reflexivity.
Qed.

Lemma runtimeEnvOf_keys {Err : Type} (prefix envprefix : string)
    (host : Host Err) (cfg : Options) (image bundle : string)
    (rtEnv : gmap string string) :
  lacks "="%char prefix = true -> keys_lack_eq (CfgEnv cfg) = true ->
  runtimeEnvOf prefix envprefix host cfg image bundle = inl rtEnv ->
  keys_lack_eq rtEnv = true.
Proof.
  intros Hp Hcfg Hrt. apply keys_lack_eq_intro. intros k v Hk.
  rewrite (runtimeEnvOf_lookup prefix envprefix host cfg image bundle rtEnv k Hrt)
    in Hk.
  destruct (CfgEnv cfg !! k) as [v1 |] eqn:H1.
  { now apply (keys_lack_eq_spec (CfgEnv cfg) k v1). }
  destruct (envFileBindings host cfg !! k) as [v2 |] eqn:H2.
  { unfold envFileBindings in H2.
    destruct (String.eqb (EnvFile cfg) "").
    - now rewrite lookup_empty in H2.
    - now apply (envFileMap_keys host (EnvFile cfg) k v2). }
  destruct (apptainerEnvMap envprefix host !! k) as [v3 |] eqn:H3.
  { now apply (apptainerEnvMap_keys envprefix host k v3). }
  now apply (defaultEnv_keys prefix image bundle k v).
Qed.

(** C10 (as amended): [getProcess] starts the runtime environment from the
    two default variables, the container variable bound to the bundle path
    and the name variable bound to the image reference, below the three
    sources that are merged over them (prefixed variables, environment
    file, explicit overrides) and above the image ENV. Whenever it builds a
    process spec, each of the two is an entry of the final environment, with
    the value of the highest of the three sources that binds it, and with
    its default value when none does. That entry is the first entry of its
    name: it stands in the place of the first entry of that name of the
    image ENV when there is one, so the image ENV never decides the
    value. *)
Theorem c10_default_env_seeded {Err : Type} (prefix envprefix : string)
    (host : Host Err) (cfg : Options) (imgSpec : Image)
    (image bundle process : string) (args : list string) (p : ProcessSpec) :
  range_policy (rangeOf host) ->
  lacks "="%char prefix = true ->
  keys_lack_eq (CfgEnv cfg) = true ->
  getProcess prefix envprefix host cfg imgSpec image bundle process args
    = inl p ->
  let kc := prefix ++ "CONTAINER" in
  let kn := prefix ++ "NAME" in
  let imageEnv := Env (Config imgSpec) in
  defaultEnv prefix image bundle !! kc = Some bundle /\
  defaultEnv prefix image bundle !! kn = Some image /\
  In (kc ++ "=" ++ overridden envprefix host cfg kc bundle) (PEnv p) /\
  In (kn ++ "=" ++ overridden envprefix host cfg kn image) (PEnv p) /\
  named kc (PEnv p) =
    (kc ++ "=" ++ overridden envprefix host cfg kc bundle)
      :: tl (named kc imageEnv) /\
  named kn (PEnv p) =
    (kn ++ "=" ++ overridden envprefix host cfg kn image)
      :: tl (named kn imageEnv) /\
  (CfgEnv cfg !! kc = None -> envFileBindings host cfg !! kc = None ->
   apptainerEnvMap envprefix host !! kc = None ->
   In (kc ++ "=" ++ bundle) (PEnv p)) /\
  (CfgEnv cfg !! kn = None -> envFileBindings host cfg !! kn = None ->
   apptainerEnvMap envprefix host !! kn = None ->
   In (kn ++ "=" ++ image) (PEnv p)).
Proof.
  intros Hpol Hp Hcfg Hget. cbv zeta.
  destruct (defaultEnv_lookup prefix image bundle) as [Hdc Hdn].
  destruct (default_keys_not_special prefix) as [Hsc Hsn].
  destruct (default_keys_lack_eq prefix Hp) as [Hlc Hln].
  unfold getProcess in Hget.
  destruct (runtimeEnvOf prefix envprefix host cfg image bundle)
    as [rtEnv | err] eqn:Hrt; [| discriminate].
  destruct (getProcessCwd host cfg) as [cwd | err]; [| discriminate].
  injection Hget as <-. cbn [PEnv].
  pose proof (runtimeEnvOf_keys prefix envprefix host cfg image bundle rtEnv
                Hp Hcfg Hrt) as Hkeys.
  assert (Hvalue : forall k d, defaultEnv prefix image bundle !! k = Some d ->
            rtEnv !! k = Some (overridden envprefix host cfg k d)).
  { intros k d Hd.
    rewrite (runtimeEnvOf_lookup prefix envprefix host cfg image bundle rtEnv k Hrt).
    unfold overridden.
    destruct (CfgEnv cfg !! k); [reflexivity |].
    destruct (envFileBindings host cfg !! k); [reflexivity |].
    destruct (apptainerEnvMap envprefix host !! k); [reflexivity | exact Hd]. }
  assert (Hentry : forall k d, defaultEnv prefix image bundle !! k = Some d ->
            special_key k = false ->
            In (k ++ "=" ++ overridden envprefix host cfg k d)
               (getProcessEnv (rangeOf host) imgSpec rtEnv)).
  { intros k d Hd Hs. apply getProcessEnv_written; trivial. now apply Hvalue. }
  assert (Hnamed : forall k d, defaultEnv prefix image bundle !! k = Some d ->
            special_key k = false -> lacks "="%char k = true ->
            named k (getProcessEnv (rangeOf host) imgSpec rtEnv) =
              (k ++ "=" ++ overridden envprefix host cfg k d)
                :: tl (named k (Env (Config imgSpec)))).
  { intros k d Hd Hs Hl.
    pose proof (getProcessEnv_named (rangeOf host) imgSpec rtEnv k
                  Hpol Hkeys Hl) as H.
    cbv zeta in H. destruct (special_key_false k Hs) as (H1 & _ & _ & H4).
    apply String.eqb_neq in H1, H4. rewrite H1, H4, Hs, (Hvalue k d Hd) in H.
    exact H. }
  pose proof (Hentry _ _ Hdc Hsc) as Hc.
  pose proof (Hentry _ _ Hdn Hsn) as Hn.
  split; [exact Hdc |]. split; [exact Hdn |].
  split; [exact Hc |]. split; [exact Hn |].
  split; [now apply Hnamed |]. split; [now apply Hnamed |].
  split.
  - intros H1 H2 H3. unfold overridden in Hc. now rewrite H1, H2, H3 in Hc.
  - intros H1 H2 H3. unfold overridden in Hn. now rewrite H1, H2, H3 in Hn.
Qed.

Lemma c10_default_env_seeded_witness :
  exists p,
    getProcess "APPTAINER_" "APPTAINERENV_" sample_host sample_options
      (mkImage (mkImageConfig ["/bin/sh"] [] ["PATH=/bin"]))
      "docker://alpine" "/tmp/bundle" "" [] = inl p /\
    In "APPTAINER_CONTAINER=/tmp/bundle" (PEnv p) /\
    In "APPTAINER_NAME=docker://alpine" (PEnv p) /\
    named "APPTAINER_CONTAINER" (PEnv p) = ["APPTAINER_CONTAINER=/tmp/bundle"] /\
    named "APPTAINER_NAME" (PEnv p) = ["APPTAINER_NAME=docker://alpine"].
Proof.
  eexists. split; [vm_compute; reflexivity |].
  pose proof (c10_default_env_seeded "APPTAINER_" "APPTAINERENV_"
                sample_host sample_options
                (mkImage (mkImageConfig ["/bin/sh"] [] ["PATH=/bin"]))
                "docker://alpine" "/tmp/bundle" "" [] _
                map_to_list_policy eq_refl eq_refl eq_refl)
    as (_ & _ & Hc & Hn & Hnc & Hnn & _).
  split; [exact Hc |]. split; [exact Hn |]. split; [exact Hnc | exact Hnn].
Defined.

(** C10 as stated fails for an image that declares one of the two names:
    the image ENV is the lowest of the four documented sources, yet with no
    other source binding the name the default value is written over the
    value the image declares. The defaults are not at the lowest priority:
    they stand above the image ENV. *)
Lemma c10_image_env_counterexample :
  getProcess "APPTAINER_" "APPTAINERENV_" bare_host bare_options
    (mkImage (mkImageConfig ["/bin/sh"] []
                ["APPTAINER_NAME=fromimage"; "TERM=xterm"]))
    "docker://alpine" "/tmp/bundle" "" []
  = inl (mkProcess ["/bin/sh"] "/home/user"
           ["APPTAINER_NAME=docker://alpine"; "TERM=xterm";
            "APPTAINER_CONTAINER=/tmp/bundle";
            "LD_LIBRARY_PATH=/.singularity.d/libs"]
           (mkUser 1001 1001) false) /\
  apptainerEnvMap "APPTAINERENV_" bare_host = ∅ /\
  envFileBindings bare_host bare_options = ∅ /\
  CfgEnv bare_options = ∅.
Proof. repeat split; vm_compute; reflexivity. Qed.

Example sample_process_env :
  match getProcess "APPTAINER_" "APPTAINERENV_" sample_host sample_options
          (mkImage (mkImageConfig ["/bin/sh"] [] ["PATH=/bin"]))
          "docker://alpine" "/tmp/bundle" "" [] with
  | inl p =>
    Permutation (PEnv p)
      ["PATH=/bin"; "APPTAINER_CONTAINER=/tmp/bundle";
       "APPTAINER_NAME=docker://alpine"; "FOO=bar"; "BAZ=1";
       "LD_LIBRARY_PATH=/.singularity.d/libs"]
  | inr _ => False
  end.
Proof.
  vm_compute.
  repeat first [ apply Permutation_refl
               | apply perm_skip
               | eapply perm_trans; [apply perm_swap |] ].
Qed.

(** The image ENV is the starting environment and the runtime environment
    is written over it: a default variable replaces an entry of the same
    name that the image declares. *)
Example default_over_image_env :
  match getProcess "APPTAINER_" "APPTAINERENV_" sample_host sample_options
          (mkImage (mkImageConfig ["/bin/sh"] [] ["APPTAINER_NAME=fromimage"]))
          "docker://alpine" "/tmp/bundle" "" [] with
  | inl p =>
    In "APPTAINER_NAME=docker://alpine" (PEnv p) /\
    ~ In "APPTAINER_NAME=fromimage" (PEnv p)
  | inr _ => False
  end.
Proof.
  vm_compute. split.
  - now left.
  - intros H. repeat (destruct H as [H | H]; [discriminate H |]). exact H.
Qed.

End ProcessProps.

(* ===================================================================== *)
(** ** Properties of the CDI device injector *)
(* ===================================================================== *)

Module CDIProps.

Import CDI.
Local Open Scope string_scope.

(** *** Sorting by destination *)

Lemma insertMount_Permutation (m : Mount) (l : list Mount) :
  Permutation (insertMount m l) (m :: l).
Proof.
  induction l as [| x l IH]; cbn [insertMount].
  - apply Permutation_refl.
  - destruct (String.leb (Destination m) (Destination x)).
    + apply Permutation_refl.
    + apply perm_trans with (x :: m :: l).
      * now apply perm_skip.
      * apply perm_swap.
Qed.

Lemma sortMounts_Permutation (l : list Mount) :
  Permutation (sortMounts l) l.
Proof.
  induction l as [| m l IH]; cbn [sortMounts foldr].
  - apply Permutation_refl.
  - apply perm_trans with (m :: sortMounts l).
    + apply insertMount_Permutation.
    + now apply perm_skip.
Qed.

Lemma insertMount_HdRel (a m : Mount) (l : list Mount) :
  dest_le a m -> HdRel dest_le a l -> HdRel dest_le a (insertMount m l).
Proof.
  intros Ham Hl. destruct l as [| x l]; cbn [insertMount].
  - now constructor.
  - destruct (String.leb (Destination m) (Destination x)).
    + now constructor.
    + inversion Hl; subst. now constructor.
Qed.

Lemma insertMount_Sorted (m : Mount) (l : list Mount) :
  Sorted dest_le l -> Sorted dest_le (insertMount m l).
Proof.
  induction 1 as [| x l Hs IH Hhd]; cbn [insertMount].
  - repeat constructor.
  - destruct (String.leb (Destination m) (Destination x)) eqn:Hle.
    + constructor; [now constructor |]. now constructor.
    + constructor; [exact IH |].
      apply insertMount_HdRel; [| exact Hhd].
      unfold dest_le.
      destruct (String.leb_total (Destination m) (Destination x)) as [H | H];
        [congruence | exact H].
Qed.

Lemma sortMounts_Sorted (l : list Mount) : Sorted dest_le (sortMounts l).
Proof.
  induction l as [| m l IH]; cbn [sortMounts foldr].
  - constructor.
  - now apply insertMount_Sorted.
Qed.

(** Every mount comes before all the later ones, not only the next one. *)
Lemma sortMounts_StronglySorted (l : list Mount) :
  StronglySorted dest_le (sortMounts l).
Proof.
  apply Sorted_StronglySorted; [| apply sortMounts_Sorted].
  intros a b c Hab Hbc. unfold dest_le in *.
  now apply (GoStringsProps.leb_trans _ (Destination b)).
Qed.

(** *** Resolution *)

Lemma resolveDevices_all (reg : gmap string ContainerEdits) (names : list string)
    (s : Spec) :
  all_resolve reg names ->
  exists s', resolveDevices reg s names = (s', None) /\
             Mounts s' = (Mounts s ++ contributedMounts reg names)%list.
Proof.
  revert s. induction names as [| n names IH]; intros s Hall.
  - exists s. split; [reflexivity |].
    unfold contributedMounts. cbn. now rewrite app_nil_r.
  - apply Forall_cons in Hall as [[e He] Hall].
    destruct (IH (applyEdits s e) Hall) as (s' & Hres & Hm).
    exists s'. cbn [resolveDevices]. rewrite He. split; [exact Hres |].
    rewrite Hm. unfold contributedMounts. cbn [map concat applyEdits Mounts].
    rewrite He. now rewrite app_assoc.
Qed.

Lemma resolveDevices_unknown (reg : gmap string ContainerEdits)
    (names : list string) (s : Spec) :
  (exists n, In n names /\ reg !! n = None) ->
  exists s' n, resolveDevices reg s names = (s', Some (DeviceNotFound n)) /\
               In n names /\ reg !! n = None.
Proof.
  revert s. induction names as [| n0 names IH]; intros s (n & Hin & Hn).
  - destruct Hin.
  - cbn [resolveDevices]. destruct (reg !! n0) as [e |] eqn:H0.
    + destruct Hin as [-> | Hin]; [congruence |].
      destruct (IH (applyEdits s e)) as (s' & n' & Hres & Hin' & Hn').
      { now exists n. }
      exists s', n'. split; [exact Hres |]. split; [now right | exact Hn'].
    + exists s, n0. split; [reflexivity |]. split; [now left | exact H0].
Qed.

(** C4: a list with a name that does not resolve makes [addCDIDevices]
    return a device-not-found error for one of the unresolved names, also
    when the other names resolve; a list of names that all resolve returns
    no error. The function gives back one error value or none, and no other
    signal of partial success. *)
Theorem c4_unknown_name_fails (reg : gmap string ContainerEdits) (s : Spec)
    (names : list string) :
  ((exists n, In n names /\ reg !! n = None) ->
     exists s' n, addCDIDevices reg s names = (s', Some (DeviceNotFound n)) /\
                  In n names /\ reg !! n = None) /\
  (all_resolve reg names -> snd (addCDIDevices reg s names) = None).
Proof.
  unfold addCDIDevices. split.
  - intros Hbad.
    destruct (resolveDevices_unknown reg names s Hbad)
      as (s' & n & Hres & Hin & Hn).
    exists s', n. rewrite Hres. auto.
  - intros Hall.
    destruct (resolveDevices_all reg names s Hall) as (s' & Hres & _).
    rewrite Hres. reflexivity.
Qed.

(** The failing cases of the test. *)
Example invalid_name_among_valids :
  snd (addCDIDevices testRegistry minimalSpec
         ["apptainertesting.sylabs.io/device=tmpmountDevice17";
          "apptainertesting.sylabs.io/device=noSuchDevice";
          "apptainertesting.sylabs.io/device=tmpmountDevice1";
          "apptainertesting.sylabs.io/device=kmsgDevice"])
  = Some (DeviceNotFound "apptainertesting.sylabs.io/device=noSuchDevice").
Proof. vm_compute. reflexivity. Qed.

Example invalid_name_several :
  snd (addCDIDevices testRegistry minimalSpec
         ["apptainertesting.sylabs.io/device=noSuchDevice";
          "apptainertesting.sylabs.io/device=noSuchDeviceEither"])
  = Some (DeviceNotFound "apptainertesting.sylabs.io/device=noSuchDevice").
Proof. vm_compute. reflexivity. Qed.

(** C9: when every name resolves, [addCDIDevices] succeeds and leaves
    mounts that are sorted by destination (each mount's destination is at
    most that of every later mount) and are, as a multiset, the mounts
    the spec had followed by the mounts of each named device, so that mounts
    of equal destination from distinct devices all stay; the result is a
    function of the inputs. *)
Theorem c9_mounts_sorted (reg : gmap string ContainerEdits) (s : Spec)
    (names : list string) :
  all_resolve reg names ->
  exists s',
    addCDIDevices reg s names = (s', None) /\
    StronglySorted dest_le (Mounts s') /\
    Permutation (Mounts s') (Mounts s ++ contributedMounts reg names) /\
    length (Mounts s') =
      (length (Mounts s) + length (contributedMounts reg names))%nat /\
    (forall r, addCDIDevices reg s names = r -> r = (s', None)).
Proof.
  intros Hall.
  destruct (resolveDevices_all reg names s Hall) as (s1 & Hres & Hm).
  exists (mkSpec (ProcessEnv s1) (Devices s1) (sortMounts (Mounts s1))).
  assert (Hadd : addCDIDevices reg s names =
                 (mkSpec (ProcessEnv s1) (Devices s1) (sortMounts (Mounts s1)), None)).
  { unfold addCDIDevices. now rewrite Hres. }
  split; [exact Hadd |]. cbn [Mounts].
  split; [apply sortMounts_StronglySorted |].
  assert (Hperm : Permutation (sortMounts (Mounts s1))
                    (Mounts s ++ contributedMounts reg names)).
  { rewrite <- Hm. apply sortMounts_Permutation. }
  split; [exact Hperm |].
  split.
  - rewrite (Permutation_length Hperm). apply length_app.
  - intros r <-. exact Hadd.
Qed.

Lemma c9_mounts_sorted_witness :
  exists s',
    addCDIDevices testRegistry minimalSpec
      ["apptainertesting.sylabs.io/device=tmpmountDevice17";
       "apptainertesting.sylabs.io/device=kmsgDevice";
       "apptainertesting.sylabs.io/device=tmpmountDevice1"] = (s', None) /\
    StronglySorted dest_le (Mounts s') /\
    Permutation (Mounts s')
      (Mounts minimalSpec ++
       contributedMounts testRegistry
         ["apptainertesting.sylabs.io/device=tmpmountDevice17";
          "apptainertesting.sylabs.io/device=kmsgDevice";
          "apptainertesting.sylabs.io/device=tmpmountDevice1"]) /\
    length (Mounts s') =
      (length (Mounts minimalSpec) +
       length (contributedMounts testRegistry
         ["apptainertesting.sylabs.io/device=tmpmountDevice17";
          "apptainertesting.sylabs.io/device=kmsgDevice";
          "apptainertesting.sylabs.io/device=tmpmountDevice1"]))%nat /\
    (forall r,
       addCDIDevices testRegistry minimalSpec
         ["apptainertesting.sylabs.io/device=tmpmountDevice17";
          "apptainertesting.sylabs.io/device=kmsgDevice";
          "apptainertesting.sylabs.io/device=tmpmountDevice1"] = r ->
       r = (s', None)).
Proof.
  apply (c9_mounts_sorted testRegistry minimalSpec).
  repeat (apply Forall_cons; split; [eexists; reflexivity |]).
  apply Forall_nil_2.
Defined.

(** The mounts of the test case ValidMixedDevices, in the order the test
    expects after [sort.Sort]. *)
Example valid_mixed_devices_mounts :
  Mounts (fst (addCDIDevices testRegistry minimalSpec
                 ["apptainertesting.sylabs.io/device=tmpmountDevice17";
                  "apptainertesting.sylabs.io/device=kmsgDevice";
                  "apptainertesting.sylabs.io/device=tmpmountDevice1"]))
  = [ tmpMount "/tmpmount1" ["ro"];
      tmpMount "/tmpmount13" ["rw"];
      tmpMount "/tmpmount17" ["r"];
      tmpMount "/tmpmount3" ["rbind"; "nosuid"; "nodev"];
      tmpMount "/tmpmountforkmsg" ["rw"] ].
Proof. vm_compute. reflexivity. Qed.

Example valid_tmp_devices_mounts :
  Mounts (fst (addCDIDevices testRegistry minimalSpec
                 ["apptainertesting.sylabs.io/device=tmpmountDevice17";
                  "apptainertesting.sylabs.io/device=tmpmountDevice1"]))
  = [ tmpMount "/tmpmount1" ["ro"];
      tmpMount "/tmpmount13" ["rw"];
      tmpMount "/tmpmount17" ["r"];
      tmpMount "/tmpmount3" ["rbind"; "nosuid"; "nodev"] ].
Proof. vm_compute. reflexivity. Qed.

(** Naming a device twice contributes its mounts twice: equal destinations
    stay distinct entries in this model. *)
Example repeated_destination_kept :
  Mounts (fst (addCDIDevices testRegistry minimalSpec
                 ["apptainertesting.sylabs.io/device=tmpmountDevice17";
                  "apptainertesting.sylabs.io/device=tmpmountDevice17"]))
  = [ tmpMount "/tmpmount17" ["r"]; tmpMount "/tmpmount17" ["r"] ].
Proof. vm_compute. reflexivity. Qed.

End CDIProps.

(* ===================================================================== *)
(** ** Properties of the lifecycle driver *)
(* ===================================================================== *)

Module LifecycleProps.

Import Lifecycle.
Local Open Scope string_scope.

Section DeleteFacts.

Context {Err : Type}.
Variable env : Surroundings Err.
Variable containerID : string.
Variable w : World.
Variable runc : string.
Hypothesis Hbin : FindBin env "runc" = inl runc.

Let exec : Call := RuncExec runc (runcArgs env containerID).

(** A failed run of the runtime ends the operation at once. *)
Lemma OciDelete_runc_failed (e : Err) :
  RuncRun env runc (runcArgs env containerID) = Some e ->
  OciDelete env containerID w = (record exec w, Some (WhileCallingRuncDelete e)).
Proof.
  intros Hrun. unfold OciDelete. rewrite Hbin. cbv zeta. now rewrite Hrun.
Qed.

Lemma OciDelete_stateDir_failed (e : Err) :
  RuncRun env runc (runcArgs env containerID) = None ->
  stateDir env containerID = inr e ->
  OciDelete env containerID w = (record exec w, Some (WhileComputingStateDir e)).
Proof.
  intros Hrun Hsd. unfold OciDelete. rewrite Hbin. cbv zeta.
  now rewrite Hrun, Hsd.
Qed.

Lemma resolved_link (targetExists : string -> bool) (path bundle : string)
    (w0 : World) :
  resolved targetExists path w0 = Some bundle <->
  symlinks w0 !! path = Some bundle /\ targetExists bundle = true.
Proof.
  unfold resolved. destruct (symlinks w0 !! path) as [t |].
  - destruct (targetExists t) eqn:Ht; split.
    + intros [= <-]. auto.
    + intros [[= <-] _]. reflexivity.
    + discriminate.
    + intros [[= <-] Hb]. congruence.
  - split; [discriminate | intros [H _]; discriminate H].
Qed.

(** The link is missing or dangles: the operation ends after the attempt
    to resolve it. *)
Lemma OciDelete_unresolved (sd : string) :
  RuncRun env runc (runcArgs env containerID) = None ->
  stateDir env containerID = inl sd ->
  resolved (TargetExists env) (Join env sd (bundleLink env)) w = None ->
  OciDelete env containerID w =
    (record (EvalSymlinks (Join env sd (bundleLink env))) (record exec w),
     Some (WhileFindingBundleDir (Join env sd (bundleLink env)))).
Proof.
  intros Hrun Hsd Hlink. unfold OciDelete. rewrite Hbin. cbv zeta.
  rewrite Hrun, Hsd. unfold evalSymlinks.
  change (resolved (TargetExists env) (Join env sd (bundleLink env))
            (record (RuncExec runc (runcArgs env containerID)) w))
    with (resolved (TargetExists env) (Join env sd (bundleLink env)) w).
  now rewrite Hlink.
Qed.

(** The link resolves but cannot be removed: the operation ends after the
    attempt to remove it, the link and the lock being as they were. *)
Lemma OciDelete_remove_refused (sd bundle : string) :
  RuncRun env runc (runcArgs env containerID) = None ->
  stateDir env containerID = inl sd ->
  resolved (TargetExists env) (Join env sd (bundleLink env)) w = Some bundle ->
  RemoveRefused env (Join env sd (bundleLink env)) = true ->
  let link := Join env sd (bundleLink env) in
  OciDelete env containerID w =
    (mkWorld (symlinks w) (locks w)
       (calls w ++ [exec; EvalSymlinks link; Remove link])%list,
     Some (WhileRemovingBundleSymlink link)).
Proof.
  intros Hrun Hsd Hres Href. cbv zeta. unfold OciDelete. rewrite Hbin. cbv zeta.
  rewrite Hrun, Hsd. unfold evalSymlinks.
  change (resolved (TargetExists env) (Join env sd (bundleLink env))
            (record (RuncExec runc (runcArgs env containerID)) w))
    with (resolved (TargetExists env) (Join env sd (bundleLink env)) w).
  rewrite Hres. apply resolved_link in Hres as [Hlink _].
  unfold osRemove. cbn [symlinks record]. rewrite Hlink, Href.
  unfold record; cbn [symlinks locks calls]. rewrite <- !app_assoc. reflexivity.
Qed.

(** After a successful run, the link resolving and its removal not being
    refused: the link is resolved, then removed, then the lock of the bundle
    is released. *)
Lemma OciDelete_bookkeeping (sd bundle : string) :
  RuncRun env runc (runcArgs env containerID) = None ->
  stateDir env containerID = inl sd ->
  resolved (TargetExists env) (Join env sd (bundleLink env)) w = Some bundle ->
  RemoveRefused env (Join env sd (bundleLink env)) = false ->
  let link := Join env sd (bundleLink env) in
  let trace := (calls w ++ [exec; EvalSymlinks link; Remove link;
                            ReleaseBundle bundle])%list in
  OciDelete env containerID w =
    if decide (bundle ∈ locks w)
    then (mkWorld (delete link (symlinks w)) (locks w ∖ {[bundle]}) trace, None)
    else (mkWorld (delete link (symlinks w)) (locks w) trace,
          Some (ReleaseBundleFailed bundle)).
Proof.
  intros Hrun Hsd Hres Href. cbv zeta. unfold OciDelete. rewrite Hbin. cbv zeta.
  rewrite Hrun, Hsd. unfold evalSymlinks.
  change (resolved (TargetExists env) (Join env sd (bundleLink env))
            (record (RuncExec runc (runcArgs env containerID)) w))
    with (resolved (TargetExists env) (Join env sd (bundleLink env)) w).
  rewrite Hres. apply resolved_link in Hres as [Hlink _].
  unfold osRemove. cbn [symlinks record]. rewrite Hlink, Href.
  unfold releaseBundle. cbn [symlinks locks calls record].
  destruct (decide (bundle ∈ locks w)); unfold record;
    cbn [symlinks locks calls]; rewrite <- !app_assoc; reflexivity.
Qed.

(** The ways [OciDelete] can end once the runtime has been found. *)
Lemma OciDelete_after_FindBin :
  let r := OciDelete env containerID w in
  (exists e, RuncRun env runc (runcArgs env containerID) = Some e /\
     r = (record exec w, Some (WhileCallingRuncDelete e))) \/
  (RuncRun env runc (runcArgs env containerID) = None /\
   ((exists e, stateDir env containerID = inr e /\
       r = (record exec w, Some (WhileComputingStateDir e))) \/
    (exists sd, stateDir env containerID = inl sd /\
     let link := Join env sd (bundleLink env) in
     ((resolved (TargetExists env) link w = None /\
       r = (record (EvalSymlinks link) (record exec w),
            Some (WhileFindingBundleDir link))) \/
      (exists bundle,
         symlinks w !! link = Some bundle /\
         TargetExists env bundle = true /\
         ((RemoveRefused env link = true /\
           r = (mkWorld (symlinks w) (locks w)
                  (calls w ++ [exec; EvalSymlinks link; Remove link])%list,
                Some (WhileRemovingBundleSymlink link))) \/
          (RemoveRefused env link = false /\
           let trace := (calls w ++ [exec; EvalSymlinks link; Remove link;
                                     ReleaseBundle bundle])%list in
           (((bundle ∈ locks w) /\
             r = (mkWorld (delete link (symlinks w)) (locks w ∖ {[bundle]})
                    trace, None)) \/
            ((bundle ∉ locks w) /\
             r = (mkWorld (delete link (symlinks w)) (locks w) trace,
                  Some (ReleaseBundleFailed bundle))))))))))).
Proof.
  cbv zeta.
  destruct (RuncRun env runc (runcArgs env containerID)) as [e |] eqn:Hrun.
  { left. exists e. split; [reflexivity |]. now apply OciDelete_runc_failed. }
  right. split; [reflexivity |].
  destruct (stateDir env containerID) as [sd | e] eqn:Hsd.
  2:{ left. exists e. split; [reflexivity |].
      now apply OciDelete_stateDir_failed. }
  right. exists sd. split; [reflexivity |].
  destruct (resolved (TargetExists env) (Join env sd (bundleLink env)) w)
    as [bundle |] eqn:Hres.
  2:{ left. split; [reflexivity |]. now apply OciDelete_unresolved. }
  right. exists bundle.
  pose proof (proj1 (resolved_link _ _ _ _) Hres) as [Hlink Hex].
  split; [exact Hlink |]. split; [exact Hex |].
  destruct (RemoveRefused env (Join env sd (bundleLink env))) eqn:Href.
  - left. split; [reflexivity |].
    exact (OciDelete_remove_refused sd bundle Hrun Hsd Hres Href).
  - right. split; [reflexivity |].
    pose proof (OciDelete_bookkeeping sd bundle Hrun Hsd Hres Href) as H.
    cbv zeta in H. rewrite H.
    destruct (decide (bundle ∈ locks w)); [left | right]; split; trivial.
Qed.

End DeleteFacts.

(** Splits a goal along the ways [OciDelete] can end, the runtime being
    found. *)
Ltac after_FindBin env id w runc Hbin :=
  let H := fresh "Hcase" in
  pose proof (OciDelete_after_FindBin env id w runc Hbin) as H;
  cbv zeta in H;
  destruct H as [(e & Hrun & Hr)
                | (Hrun &
                   [(e & Hsd & Hr)
                   | (sd & Hsd &
                      [(Hres & Hr)
                      | (bundle & Hlink & Hex &
                         [(Href & Hr)
                         | (Href & [(Hlock & Hr) | (Hlock & Hr)])])])])].

(** C5: [OciDelete] first runs the runtime's delete with the fixed state
    root as root argument. When that run fails, it returns the error of the
    run and has touched neither the bundle link nor the lock. Any further
    call is made only after a successful run; then, the state directory
    being found, the calls that follow are, in this order, the resolution of
    the bundle link, the removal of the link and the release of the lock of
    the bundle, each made only when the one before it succeeded, and nothing
    is changed before the removal has succeeded. When the link resolves and
    its removal is not refused, all three are made, the link is gone, and the
    lock, when held, is released without error. *)
Theorem c5_delete_order {Err : Type} (env : Surroundings Err)
    (containerID : string) (w : World) (runc : string) :
  FindBin env "runc" = inl runc ->
  let args := ["--root"; RuncStateDir env; "delete"; containerID] in
  let exec := RuncExec runc args in
  let result := OciDelete env containerID w in
  (exists rest, calls (fst result) = (calls w ++ exec :: rest)%list) /\
  (forall e, RuncRun env runc args = Some e ->
     snd result = Some (WhileCallingRuncDelete e) /\
     symlinks (fst result) = symlinks w /\
     locks (fst result) = locks w /\
     calls (fst result) = (calls w ++ [exec])%list) /\
  (forall rest, calls (fst result) = (calls w ++ exec :: rest)%list ->
     rest <> [] -> RuncRun env runc args = None) /\
  (RuncRun env runc args = None ->
   forall sd, stateDir env containerID = inl sd ->
     let link := Join env sd (bundleLink env) in
     (exists rest,
        calls (fst result) = (calls w ++ exec :: rest)%list /\
        ((rest = [EvalSymlinks link] /\
          snd result = Some (WhileFindingBundleDir link) /\
          symlinks (fst result) = symlinks w /\ locks (fst result) = locks w) \/
         (rest = [EvalSymlinks link; Remove link] /\
          snd result = Some (WhileRemovingBundleSymlink link) /\
          symlinks (fst result) = symlinks w /\ locks (fst result) = locks w) \/
         (exists bundle,
            symlinks w !! link = Some bundle /\
            rest = [EvalSymlinks link; Remove link; ReleaseBundle bundle] /\
            symlinks (fst result) = delete link (symlinks w) /\
            (((bundle ∈ locks w) /\ snd result = None /\
              locks (fst result) = locks w ∖ {[bundle]}) \/
             ((bundle ∉ locks w) /\
              snd result = Some (ReleaseBundleFailed bundle) /\
              locks (fst result) = locks w))))) /\
     (forall bundle,
        symlinks w !! link = Some bundle ->
        TargetExists env bundle = true ->
        RemoveRefused env link = false ->
        calls (fst result) =
          (calls w ++ [exec; EvalSymlinks link; Remove link;
                       ReleaseBundle bundle])%list /\
        symlinks (fst result) = delete link (symlinks w) /\
        (bundle ∈ locks w ->
           snd result = None /\ locks (fst result) = locks w ∖ {[bundle]}))).
Proof.
  intros Hbin. cbv zeta.
  change ["--root"; RuncStateDir env; "delete"; containerID]
    with (runcArgs env containerID).
  split; [| split; [| split]].
  - after_FindBin env containerID w runc Hbin; rewrite Hr;
      cbn [fst calls record]; rewrite <- ?app_assoc; eexists; reflexivity.
  - intros e0 Hrun0.
    rewrite (OciDelete_runc_failed env containerID w runc Hbin e0 Hrun0).
    repeat split.
  - intros rest Hcalls Hrest.
    destruct (RuncRun env runc (runcArgs env containerID)) as [e0 |] eqn:Hrun0;
      [| reflexivity].
    rewrite (OciDelete_runc_failed env containerID w runc Hbin e0 Hrun0)
      in Hcalls.
    cbn [fst calls record] in Hcalls.
    apply app_inv_head in Hcalls. injection Hcalls as <-.
    now contradiction Hrest.
  - intros Hrun0 sd0 Hsd0.
    after_FindBin env containerID w runc Hbin;
      try (rewrite Hrun0 in Hrun; discriminate Hrun);
      rewrite Hsd0 in Hsd; try discriminate Hsd; injection Hsd as <-;
      rewrite Hr; cbn [fst snd calls symlinks locks record];
      rewrite <- ?app_assoc; cbn [app].
    + split.
      * eexists. split; [reflexivity |]. left. repeat split.
      * intros b Hb Hexb Hrefb.
        assert (Some b = None) as Habs; [| discriminate Habs].
        rewrite <- Hres. symmetry. apply resolved_link. now split.
    + split.
      * eexists. split; [reflexivity |]. right. left. repeat split.
      * intros b Hb Hexb Hrefb. congruence.
    + split.
      * eexists. split; [reflexivity |]. right. right. exists bundle.
        repeat split; trivial. left. repeat split; trivial.
      * intros b Hb Hexb Hrefb. rewrite Hlink in Hb. injection Hb as <-.
        repeat split; trivial.
    + split.
      * eexists. split; [reflexivity |]. right. right. exists bundle.
        repeat split; trivial. right. repeat split; trivial.
      * intros b Hb Hexb Hrefb. rewrite Hlink in Hb. injection Hb as <-.
        repeat split; trivial; intros; contradiction.
Qed.

Lemma c5_delete_order_witness :
  OciDelete sample_surroundings "c1" sample_world =
    (mkWorld
       (delete "/run/apptainer-oci/state/c1/bundle" (symlinks sample_world))
       (locks sample_world ∖ {["/tmp/bundle1"]})
       [ RuncExec "/usr/bin/runc" ["--root"; "/run/apptainer-oci"; "delete"; "c1"];
         EvalSymlinks "/run/apptainer-oci/state/c1/bundle";
         Remove "/run/apptainer-oci/state/c1/bundle";
         ReleaseBundle "/tmp/bundle1" ],
     None).
Proof.
  pose proof (c5_delete_order sample_surroundings "c1" sample_world
                "/usr/bin/runc" eq_refl) as (_ & _ & _ & Hok).
  destruct (Hok eq_refl "/run/apptainer-oci/state/c1" eq_refl) as [_ Hfull].
  destruct (Hfull "/tmp/bundle1" eq_refl eq_refl eq_refl)
    as (Hcalls & Hlinks & Hlock).
  destruct Hlock as [Herr Hlocks]; [vm_compute; reflexivity |].
  destruct (OciDelete sample_surroundings "c1" sample_world) as [[sl lk cs] err].
  cbn [fst snd calls symlinks locks] in *. now subst.
Defined.

(** A failed run for the container "broken": the world is the same but for
    the recorded call. *)
Example delete_broken_container :
  OciDelete sample_surroundings "broken" sample_world =
    (mkWorld (symlinks sample_world) (locks sample_world)
       [ RuncExec "/usr/bin/runc"
           ["--root"; "/run/apptainer-oci"; "delete"; "broken"] ],
     Some (WhileCallingRuncDelete "exit status 1")).
Proof. reflexivity. Qed.

(** A bundle that is gone: the link dangles, the operation ends with the
    error of the resolution and the link and the lock stay. *)
Example delete_dangling_link :
  OciDelete sample_surroundings "stale" stale_world =
    (mkWorld (symlinks stale_world) (locks stale_world)
       [ RuncExec "/usr/bin/runc"
           ["--root"; "/run/apptainer-oci"; "delete"; "stale"];
         EvalSymlinks "/run/apptainer-oci/state/stale/bundle" ],
     Some (WhileFindingBundleDir "/run/apptainer-oci/state/stale/bundle")).
Proof. reflexivity. Qed.

(** A link that cannot be removed: the operation ends with the error of
    the removal, before the lock is released. *)
Example delete_unremovable_link :
  OciDelete sample_surroundings "pinned" stale_world =
    (mkWorld (symlinks stale_world) (locks stale_world)
       [ RuncExec "/usr/bin/runc"
           ["--root"; "/run/apptainer-oci"; "delete"; "pinned"];
         EvalSymlinks "/run/apptainer-oci/state/pinned/bundle";
         Remove "/run/apptainer-oci/state/pinned/bundle" ],
     Some (WhileRemovingBundleSymlink "/run/apptainer-oci/state/pinned/bundle")).
Proof. reflexivity. Qed.

End LifecycleProps.

(* ===================================================================== *)
(** ** Further properties of the id mapper *)
(* ===================================================================== *)

Module IDMapExtra.

Import IDMap IDMapProps.
Local Open Scope Z_scope.

Ltac host_cases :=
  repeat match goal with
  | |- context [in_host_range ?c ?r] =>
      let H := fresh "Hin" in
      destruct (in_host_range c r) eqn:H;
      [ apply in_host_range_spec in H
      | apply not_true_iff_false in H; rewrite in_host_range_spec in H ];
      cbn [ContainerID HostID Size] in H
  end.

(** In both branches the host side of the mapping is [[0, size]]. *)
Lemma reverseMap_host_union (id size : Z) :
  is_uint32 id -> is_uint32 size -> 0 < size ->
  forall h, host_covers (reverseMap id size) h <-> 0 <= h < size + 1.
Proof.
  intros Hid Hsz Hpos h. pose proof Hid as [Hid0 _].
  destruct (Z.lt_ge_cases id size) as [Hlt | Hge].
  - rewrite reverseMap_lt by assumption. unfold host_covers. split.
    + intros (r & Hr & Hh). apply in_host_range_spec in Hh.
      cbn [In] in Hr. destruct Hr as [<- | [<- | [<- | []]]];
        cbn [HostID Size] in Hh; lia.
    + intros Hh.
      destruct (Z.eq_dec h 0) as [-> | Hnz].
      * exists (mkMapping id 0 1). split; [cbn; auto |].
        apply in_host_range_spec. cbn. lia.
      * destruct (Z.le_gt_cases h id) as [Hle | Hgt].
        -- exists (mkMapping 0 1 id). split; [cbn; auto |].
           apply in_host_range_spec. cbn. lia.
        -- exists (mkMapping (id + 1) (id + 1) (size - id)).
           split; [cbn; auto |]. apply in_host_range_spec. cbn. lia.
  - rewrite reverseMap_ge by assumption. unfold host_covers. split.
    + intros (r & Hr & Hh). apply in_host_range_spec in Hh.
      cbn [In] in Hr. destruct Hr as [<- | [<- | []]];
        cbn [HostID Size] in Hh; lia.
    + intros Hh.
      destruct (Z.eq_dec h 0) as [-> | Hnz].
      * exists (mkMapping id 0 1). split; [cbn; auto |].
        apply in_host_range_spec. cbn. lia.
      * exists (mkMapping 0 1 size). split; [cbn; auto |].
        apply in_host_range_spec. cbn. lia.
Qed.

(** X1: with both subordinate ranges found and of at least 65536 ids, the
    host side of the uid mapping and of the gid mapping is the same in both
    branches: the host-side ranges are pairwise disjoint and their union is
    [[0, size]], the [size + 1] ids of the user namespace the runtime is
    started from. *)
Theorem x1_host_side_is_whole_namespace {E : Type}
    (G : IDFile -> Z -> LinuxIDMapping + E) (uid gid : Z)
    (ru rg : LinuxIDMapping) :
  is_uint32 uid -> is_uint32 gid ->
  is_uint32 (Size ru) -> is_uint32 (Size rg) ->
  G SubUIDFile uid = inl ru -> G SubGIDFile uid = inl rg ->
  65536 <= Size ru -> 65536 <= Size rg ->
  exists um gm,
    getReverseUserMaps G uid gid = (um, gm, None) /\
    host_disjoint um /\ host_disjoint gm /\
    (forall h, host_covers um h <-> 0 <= h < Size ru + 1) /\
    (forall h, host_covers gm h <-> 0 <= h < Size rg + 1).
Proof.
  intros Huid Hgid Hru Hrg Hu Hg Hsu Hsg.
  exists (reverseMap uid (Size ru)), (reverseMap gid (Size rg)).
  split; [now apply getReverseUserMaps_ok |].
  split; [now apply reverseMap_host_disjoint |].
  split; [now apply reverseMap_host_disjoint |].
  split; apply reverseMap_host_union; trivial; lia.
Qed.

Lemma x1_host_side_is_whole_namespace_witness :
  exists um gm,
    getReverseUserMaps sample_registry 1001 70000 = (um, gm, None) /\
    host_disjoint um /\ host_disjoint gm /\
    (forall h, host_covers um h <-> 0 <= h < 65536 + 1) /\
    (forall h, host_covers gm h <-> 0 <= h < 65536 + 1).
Proof.
  apply (x1_host_side_is_whole_namespace sample_registry 1001 70000
           (mkMapping 0 100000 65536) (mkMapping 0 100000 65536));
    try reflexivity; unfold is_uint32, uint32_modulus; simpl; lia.
Defined.

(** What a container id decodes to, for one mapping. *)
Lemma reverseMap_decode (id size c : Z) :
  is_uint32 id -> is_uint32 size -> 0 < size ->
  decode (reverseMap id size) id = Some 0 /\
  (0 <= c < id -> c < size -> decode (reverseMap id size) c = Some (c + 1)) /\
  (id < c <= size -> decode (reverseMap id size) c = Some c) /\
  (c < 0 \/ (size < c /\ c <> id) \/ size <= c < id ->
     decode (reverseMap id size) c = None).
Proof.
  intros Hid Hsz Hpos. pose proof Hid as [Hid0 _].
  destruct (Z.lt_ge_cases id size) as [Hlt | Hge].
  - rewrite reverseMap_lt by assumption. cbn [decode].
    repeat split; intros; range_cases; cbn [HostID ContainerID];
      first [ lia | f_equal; lia ].
  - rewrite reverseMap_ge by assumption. cbn [decode].
    repeat split; intros; range_cases; cbn [HostID ContainerID];
      first [ lia | f_equal; lia ].
Qed.

(** X2: with both subordinate ranges found and of at least 65536 ids, the
    uid mapping sends the container id equal to the host uid to host id 0
    (the user itself in the namespace the runtime is started from), every
    smaller container id [c] below the range size to host id [c + 1], every
    larger container id up to the range size to itself, and no other
    container id anywhere. *)
Theorem x2_decode_uid_map {E : Type}
    (G : IDFile -> Z -> LinuxIDMapping + E) (uid gid : Z)
    (ru rg : LinuxIDMapping) :
  is_uint32 uid -> is_uint32 (Size ru) ->
  G SubUIDFile uid = inl ru -> G SubGIDFile uid = inl rg ->
  65536 <= Size ru -> 65536 <= Size rg ->
  let um := fst (fst (getReverseUserMaps G uid gid)) in
  decode um uid = Some 0 /\
  (forall c, 0 <= c < uid -> c < Size ru -> decode um c = Some (c + 1)) /\
  (forall c, uid < c <= Size ru -> decode um c = Some c) /\
  (forall c, c < 0 \/ (Size ru < c /\ c <> uid) \/ Size ru <= c < uid ->
     decode um c = None).
Proof.
  intros Huid Hru Hu Hg Hsu Hsg. cbv zeta.
  rewrite (getReverseUserMaps_ok G uid gid ru rg Hu Hg Hsu Hsg). cbn [fst].
  assert (Hpos : 0 < Size ru) by lia.
  split; [apply (reverseMap_decode uid (Size ru) 0 Huid Hru Hpos) |].
  split; [intros c; apply (reverseMap_decode uid (Size ru) c Huid Hru Hpos) |].
  split; intros c; apply (reverseMap_decode uid (Size ru) c Huid Hru Hpos).
Qed.

Lemma x2_decode_uid_map_witness :
  let um := fst (fst (getReverseUserMaps sample_registry 1001 1001)) in
  decode um 1001 = Some 0 /\
  (forall c, 0 <= c < 1001 -> c < 65536 -> decode um c = Some (c + 1)) /\
  (forall c, 1001 < c <= 65536 -> decode um c = Some c) /\
  (forall c, c < 0 \/ (65536 < c /\ c <> 1001) \/ 65536 <= c < 1001 ->
     decode um c = None).
Proof.
  apply (x2_decode_uid_map sample_registry 1001 1001
           (mkMapping 0 100000 65536) (mkMapping 0 100000 65536));
    try reflexivity; unfold is_uint32, uint32_modulus; simpl; lia.
Defined.

Lemma reverseMap_fits (id size : Z) :
  is_uint32 id -> is_uint32 size ->
  Forall range_fits (reverseMap id size) /\
  (0 < id -> 0 < size -> Forall (fun r => 0 < Size r) (reverseMap id size)).
Proof.
  intros Hid Hsz.
  destruct (Z.lt_ge_cases id size) as [Hlt | Hge];
    [rewrite reverseMap_lt by assumption | rewrite reverseMap_ge by assumption];
    unfold is_uint32 in Hid, Hsz; rewrite uint32_modulus_value in Hid, Hsz;
    (split; [| intros Hpos Hspos]);
    repeat (apply Forall_cons; split);
    try apply Forall_nil_2;
    unfold range_fits, is_uint32; rewrite ?uint32_modulus_value;
    cbn [ContainerID HostID Size]; lia.
Qed.

(** X3: the mappings [getReverseUserMaps] returns never overflow: every
    field of every range is a [uint32] value and neither the container side
    nor the host side of a range runs past the last [uint32] id, so no
    addition or subtraction of the function wraps around; and when the host
    uid and gid are not 0 no range is empty. *)
Theorem x3_ranges_fit_uint32 {E : Type}
    (G : IDFile -> Z -> LinuxIDMapping + E) (uid gid : Z)
    (ru rg : LinuxIDMapping) :
  is_uint32 uid -> is_uint32 gid ->
  is_uint32 (Size ru) -> is_uint32 (Size rg) ->
  G SubUIDFile uid = inl ru -> G SubGIDFile uid = inl rg ->
  65536 <= Size ru -> 65536 <= Size rg ->
  exists um gm,
    getReverseUserMaps G uid gid = (um, gm, None) /\
    Forall range_fits um /\ Forall range_fits gm /\
    (0 < uid -> Forall (fun r => 0 < Size r) um) /\
    (0 < gid -> Forall (fun r => 0 < Size r) gm).
Proof.
  intros Huid Hgid Hru Hrg Hu Hg Hsu Hsg.
  exists (reverseMap uid (Size ru)), (reverseMap gid (Size rg)).
  split; [now apply getReverseUserMaps_ok |].
  destruct (reverseMap_fits uid (Size ru) Huid Hru) as [Hfu Hnu].
  destruct (reverseMap_fits gid (Size rg) Hgid Hrg) as [Hfg Hng].
  repeat split; trivial; intros Hpos; [apply Hnu | apply Hng]; lia.
Qed.

Lemma x3_ranges_fit_uint32_witness :
  exists um gm,
    getReverseUserMaps sample_registry 1001 4294967295 = (um, gm, None) /\
    Forall range_fits um /\ Forall range_fits gm /\
    (0 < 1001 -> Forall (fun r => 0 < Size r) um) /\
    (0 < 4294967295 -> Forall (fun r => 0 < Size r) gm).
Proof.
  apply (x3_ranges_fit_uint32 sample_registry 1001 4294967295
           (mkMapping 0 100000 65536) (mkMapping 0 100000 65536));
    try reflexivity; unfold is_uint32, uint32_modulus; simpl; lia.
Defined.

(** X4: [getReverseUserMaps] returns no error exactly when the subuid and
    the subgid range of the user are both found and both have at least 65536
    ids; whenever it returns an error both mappings are nil; and a failed
    subuid lookup is returned as it is, whatever the subgid registry holds. *)
Theorem x4_success_condition {E : Type}
    (G : IDFile -> Z -> LinuxIDMapping + E) (uid gid : Z) :
  (snd (getReverseUserMaps G uid gid) = None <->
   exists ru rg, G SubUIDFile uid = inl ru /\ G SubGIDFile uid = inl rg /\
                 65536 <= Size ru /\ 65536 <= Size rg) /\
  (snd (getReverseUserMaps G uid gid) <> None ->
   fst (getReverseUserMaps G uid gid) = ([], [])) /\
  (forall e, G SubUIDFile uid = inr e ->
   getReverseUserMaps G uid gid = ([], [], Some (LookupFailed e))).
Proof.
  unfold getReverseUserMaps.
  destruct (G SubUIDFile uid) as [ru | e] eqn:Hu.
  2:{ split; [| split]; cbn [fst snd].
      - split; [discriminate | intros (ru & rg & H & _); discriminate H].
      - reflexivity.
      - intros e' [= <-]. reflexivity. }
  destruct (Z.ltb_spec (Size ru) 65536) as [Hsu | Hsu].
  { split; [| split]; cbn [fst snd].
    - split; [discriminate |].
      intros (ru' & rg & [= <-] & _ & H & _). lia.
    - reflexivity.
    - intros e [=]. }
  destruct (G SubGIDFile uid) as [rg | e] eqn:Hg.
  2:{ split; [| split]; cbn [fst snd].
      - split; [discriminate | intros (ru' & rg & _ & H & _); discriminate H].
      - reflexivity.
      - intros e' [=]. }
  destruct (Z.ltb_spec (Size rg) 65536) as [Hsg | Hsg].
  { split; [| split]; cbn [fst snd].
    - split; [discriminate |].
      intros (ru' & rg' & _ & [= <-] & _ & H). lia.
    - reflexivity.
    - intros e [=]. }
  split; [| split]; cbn [fst snd].
  - split; [| reflexivity]. intros _. exists ru, rg. auto.
  - intros H. now contradiction H.
  - intros e [=].
Qed.

End IDMapExtra.

(* ===================================================================== *)
(** ** Further properties of the process spec builder *)
(* ===================================================================== *)

Module ProcessExtra.

Import GoStrings GoStringsProps Process ProcessProps.
Local Open Scope string_scope.
Local Arguments Ascii.eqb : simpl never.
Local Arguments String.eqb : simpl never.

(** *** Arguments *)

(** X5: [getProcessArgs] returns an empty argv exactly when there is no
    process string, no trailing argument, no image entrypoint and no image
    cmd: only then has the container nothing to run. *)
Theorem x5_empty_argv (imageSpec : Image) (process : string)
    (args : list string) :
  getProcessArgs imageSpec process args = [] <->
  process = "" /\ args = [] /\
  Entrypoint (Config imageSpec) = [] /\ Cmd (Config imageSpec) = [].
Proof.
  unfold getProcessArgs.
  destruct (String.eqb_spec process "") as [-> | Hp]; cbn [negb].
  - destruct args as [| a args]; cbn [length Nat.ltb Nat.leb].
    + split.
      * intros H. apply app_eq_nil in H as [He Hc]. auto.
      * intros (_ & _ & -> & ->). reflexivity.
    + split.
      * intros H. apply app_eq_nil in H as [_ H]. discriminate H.
      * intros (_ & H & _). discriminate H.
  - destruct args as [| a args]; cbn [length Nat.ltb Nat.leb];
      (split; [discriminate | intros (H & _); now contradiction Hp]).
Qed.

(** *** Maps built by folding bindings over a list *)

Section FoldBindings.

Variable b : string -> option (string * string).

Let step (m : gmap string string) (e : string) : gmap string string :=
  match b e with
  | Some (k, v) => <[k := v]> m
  | None => m
  end.

Let silent (k : string) (l : list string) : Prop :=
  Forall (fun e' => forall v', b e' <> Some (k, v')) l.

Lemma fold_bindings_lookup (l : list string) (m0 : gmap string string)
    (k v : string) :
  fold_left step l m0 !! k = Some v <->
  last_binding b l k v \/ (m0 !! k = Some v /\ silent k l).
Proof.
  revert m0. induction l as [| e l IH]; intros m0; cbn [fold_left].
  - split.
    + intros H. right. split; [exact H | constructor].
    + intros [(l1 & e & l2 & H & _) | [H _]]; [| exact H].
      now destruct l1.
  - rewrite IH. unfold last_binding, silent. split.
    + intros [(l1 & e0 & l2 & -> & Hb & Hs) | [Hm Hs]].
      * left. exists (e :: l1), e0, l2. auto.
      * unfold step in Hm. destruct (b e) as [[k' v'] |] eqn:He.
        -- destruct (decide (k' = k)) as [-> | Hne].
           ++ rewrite lookup_insert_eq in Hm. injection Hm as ->.
              left. exists [], e, l. auto.
           ++ rewrite lookup_insert_ne in Hm by assumption.
              right. split; [exact Hm |]. constructor; [| exact Hs].
              intros v0 E. rewrite He in E. injection E as E _.
              now contradiction Hne.
        -- right. split; [exact Hm |]. constructor; [| exact Hs].
           intros v0 E. rewrite He in E. discriminate E.
    + intros [(l1 & e0 & l2 & Hl & Hb & Hs) | [Hm Hs]].
      * destruct l1 as [| e1 l1]; cbn [app] in Hl; injection Hl as <- ->.
        -- right. split; [| exact Hs]. unfold step. rewrite Hb.
           apply lookup_insert_eq.
        -- left. exists l1, e0, l2. auto.
      * apply Forall_cons in Hs as [He Hs]. right. split; [| exact Hs].
        unfold step. destruct (b e) as [[k' v'] |] eqn:Hbe; [| exact Hm].
        rewrite lookup_insert_ne; [exact Hm |].
        intros ->. now apply (He v').
Qed.

Lemma fold_bindings_from_empty (l : list string) (k v : string) :
  fold_left step l ∅ !! k = Some v <-> last_binding b l k v.
Proof.
  rewrite fold_bindings_lookup. split; [| now left].
  intros [H | [H _]]; [exact H | now rewrite lookup_empty in H].
Qed.

End FoldBindings.

(** *** [apptainerEnvMap] and [envFileMap] *)

Lemma apptainerEnvEntry_binding (envprefix : string)
    (m : gmap string string) (e : string) :
  apptainerEnvEntry envprefix m e =
    match prefixedBinding envprefix e with
    | Some (k, v) => <[k := v]> m
    | None => m
    end.
Proof.
  unfold apptainerEnvEntry, prefixedBinding.
  destruct (HasPrefix e envprefix); cbn [negb]; [| reflexivity].
  now destruct (SplitN_eq e) as [[k0 v] |].
Qed.

Lemma envFileEntry_binding (m : gmap string string) (e : string) :
  envFileEntry m e =
    match fileBinding e with
    | Some (k, v) => <[k := v]> m
    | None => m
    end.
Proof.
  unfold envFileEntry, fileBinding.
  destruct (SplitN_eq e) as [[k v] |]; [| reflexivity].
  now destruct (shell_artifact k).
Qed.

Lemma fold_left_pointwise {A B : Type} (f g : A -> B -> A) (l : list B) (a : A) :
  (forall x y, f x y = g x y) -> fold_left f l a = fold_left g l a.
Proof.
  intros H. revert a. induction l as [| y l IH]; intros a; cbn [fold_left].
  - reflexivity.
  - now rewrite H, IH.
Qed.

(** A prefixed variable [prefix ++ k ++ "=" ++ v] binds [k] to [v]. *)
Lemma prefixedBinding_join (envprefix k v : string) :
  lacks "="%char (envprefix ++ k) = true ->
  prefixedBinding envprefix (envprefix ++ k ++ "=" ++ v) = Some (k, v).
Proof.
  intros Hl. unfold prefixedBinding. rewrite HasPrefix_app.
  rewrite <- append_assoc, (SplitN_eq_join (envprefix ++ k) v Hl).
  now rewrite TrimPrefix_app.
Qed.

(** X6: [apptainerEnvMap] binds [k] to [v] exactly when the last variable
    of the calling environment that names [k] behind the prefix binds it to
    [v]: only variables that start with the prefix and hold an "=" count,
    the prefix is stripped from the name, the value is everything after the
    first "=", and a later variable wins over an earlier one. In particular
    a variable [prefix ++ k ++ "=" ++ v] at the end of the environment binds
    [k] to [v], and an environment without prefixed variables gives the
    empty map. *)
Theorem x6_prefixed_variables {Err : Type} (envprefix : string)
    (host : Host Err) :
  (forall k v,
     apptainerEnvMap envprefix host !! k = Some v <->
     last_binding (prefixedBinding envprefix) (Environ host) k v) /\
  (forall l k v,
     Environ host = (l ++ [(envprefix ++ k ++ "=" ++ v)%string])%list ->
     lacks "="%char (envprefix ++ k) = true ->
     apptainerEnvMap envprefix host !! k = Some v) /\
  (Forall (fun e => HasPrefix e envprefix = false) (Environ host) ->
   apptainerEnvMap envprefix host = ∅).
Proof.
  assert (Hiff : forall k v,
            apptainerEnvMap envprefix host !! k = Some v <->
            last_binding (prefixedBinding envprefix) (Environ host) k v).
  { intros k v. unfold apptainerEnvMap.
    rewrite (fold_left_pointwise _ _ _ _ (apptainerEnvEntry_binding envprefix)).
    apply fold_bindings_from_empty. }
  split; [exact Hiff |]. split.
  - intros l k v Henv Hl. apply Hiff. exists l, (envprefix ++ k ++ "=" ++ v), [].
    split; [exact Henv |]. split; [now apply prefixedBinding_join | constructor].
  - intros Hnone. apply map_eq. intros k. rewrite lookup_empty.
    destruct (apptainerEnvMap envprefix host !! k) as [v |] eqn:Hk; [| reflexivity].
    apply Hiff in Hk as (l1 & e & l2 & Henv & Hb & _).
    rewrite Henv in Hnone. apply Forall_app in Hnone as [_ Hnone].
    apply Forall_cons in Hnone as [He _].
    unfold prefixedBinding in Hb. rewrite He in Hb. discriminate Hb.
Qed.

Example prefixed_variable_of_sample_host :
  apptainerEnvMap "APPTAINERENV_" sample_host = <["FOO" := "bar"]> ∅.
Proof. vm_compute. reflexivity. Qed.

(** X7: [envFileMap] never binds one of the six names the shell
    interpreter sets by itself (GID, HOME, IFS, OPTIND, PWD, UID); when it
    returns an error the map it returns is empty, and a file that cannot be
    read gives the could-not-read error naming the file; when the file is
    read and evaluated, there is no error and the map binds [k] to [v]
    exactly when the last line of the evaluated output that names [k] (and
    is not one of the six names) binds it to [v]. *)
Theorem x7_env_file_map {Err : Type} (host : Host Err) (f : string) :
  (forall k, shell_artifact k = true -> fst (envFileMap host f) !! k = None) /\
  (snd (envFileMap host f) <> None -> fst (envFileMap host f) = ∅) /\
  (forall e, ReadFile host f = inr e ->
     envFileMap host f = (∅, Some (CouldNotReadEnvFile f e))) /\
  (forall content env,
     ReadFile host f = inl content -> EvaluateEnv host content = inl env ->
     snd (envFileMap host f) = None /\
     forall k v, fst (envFileMap host f) !! k = Some v <->
                 last_binding fileBinding env k v).
Proof.
  assert (Hiff : forall env k v,
            fold_left envFileEntry env ∅ !! k = Some v <->
            last_binding fileBinding env k v).
  { intros env k v.
    rewrite (fold_left_pointwise _ _ _ _ envFileEntry_binding).
    apply fold_bindings_from_empty. }
  unfold envFileMap. split; [| split; [| split]].
  - intros k Hart.
    destruct (ReadFile host f) as [content | e]; cbn [fst];
      [| apply lookup_empty].
    destruct (EvaluateEnv host content) as [env | e]; cbn [fst];
      [| apply lookup_empty].
    destruct (fold_left envFileEntry env ∅ !! k) as [v |] eqn:Hk; [| reflexivity].
    apply Hiff in Hk as (l1 & e & l2 & _ & Hb & _).
    unfold fileBinding in Hb. destruct (SplitN_eq e) as [[k' v'] |]; [| discriminate].
    destruct (shell_artifact k') eqn:Ha; [discriminate |].
    injection Hb as -> _. congruence.
  - destruct (ReadFile host f) as [content | e]; cbn [fst snd]; [| reflexivity].
    destruct (EvaluateEnv host content) as [env | e]; cbn [fst snd];
      [| reflexivity].
    intros H. now contradiction H.
  - intros e ->. reflexivity.
  - intros content env -> ->. cbn [fst snd]. split; [reflexivity |].
    apply Hiff.
Qed.

(** *** [getProcess] *)

(** X8: in every process spec [getProcess] builds, a variable that is not
    one of the four special names has the value of the highest source that
    binds it: an explicit override wins over the environment file, which
    wins over a prefixed variable of the calling environment, which wins
    over the defaults. *)
Theorem x8_source_precedence {Err : Type} (prefix envprefix : string)
    (host : Host Err) (cfg : Options) (imgSpec : Image)
    (image bundle process : string) (args : list string) (p : ProcessSpec) :
  range_policy (rangeOf host) ->
  lacks "="%char prefix = true ->
  keys_lack_eq (CfgEnv cfg) = true ->
  getProcess prefix envprefix host cfg imgSpec image bundle process args
    = inl p ->
  forall k v,
    special_key k = false ->
    sourceValue prefix envprefix host cfg image bundle k = Some v ->
    In (k ++ "=" ++ v) (PEnv p).
Proof.
  intros Hpol Hp Hcfg Hget k v Hs Hv.
  unfold getProcess in Hget.
  destruct (runtimeEnvOf prefix envprefix host cfg image bundle)
    as [rtEnv | err] eqn:Hrt; [| discriminate].
  destruct (getProcessCwd host cfg) as [cwd | err]; [| discriminate].
  injection Hget as <-. cbn [PEnv].
  apply getProcessEnv_written; trivial.
  - now apply (runtimeEnvOf_keys prefix envprefix host cfg image bundle).
  - rewrite (runtimeEnvOf_lookup prefix envprefix host cfg image bundle rtEnv k Hrt).
    exact Hv.
Qed.

Lemma x8_source_precedence_witness :
  exists p,
    getProcess "APPTAINER_" "APPTAINERENV_" sample_host
      (mkOptions "" (<["FOO" := "override"]> ∅) true)
      (mkImage (mkImageConfig ["/bin/sh"] [] ["FOO=image"]))
      "docker://alpine" "/tmp/bundle" "" [] = inl p /\
    In "FOO=override" (PEnv p).
Proof.
  eexists. split; [vm_compute; reflexivity |].
  exact (x8_source_precedence "APPTAINER_" "APPTAINERENV_" sample_host
           (mkOptions "" (<["FOO" := "override"]> ∅) true)
           (mkImage (mkImageConfig ["/bin/sh"] [] ["FOO=image"]))
           "docker://alpine" "/tmp/bundle" "" [] _
           map_to_list_policy eq_refl eq_refl eq_refl
           "FOO" "override" eq_refl eq_refl).
Defined.

Lemma getProcess_inv {Err : Type} (prefix envprefix : string)
    (host : Host Err) (cfg : Options) (imgSpec : Image)
    (image bundle process : string) (args : list string) (p : ProcessSpec) :
  getProcess prefix envprefix host cfg imgSpec image bundle process args
    = inl p ->
  exists rtEnv cwd,
    runtimeEnvOf prefix envprefix host cfg image bundle = inl rtEnv /\
    getProcessCwd host cfg = inl cwd /\
    p = mkProcess (getProcessArgs imgSpec process args) cwd
          (getProcessEnv (rangeOf host) imgSpec rtEnv)
          (getProcessUser host cfg) (getProcessTerminal host).
Proof.
  unfold getProcess.
  destruct (runtimeEnvOf prefix envprefix host cfg image bundle)
    as [rtEnv | err]; [| discriminate].
  destruct (getProcessCwd host cfg) as [cwd | err]; [| discriminate].
  intros [= <-]. now exists rtEnv, cwd.
Qed.

Lemma runtimeEnvOf_ok_iff {Err : Type} (prefix envprefix : string)
    (host : Host Err) (cfg : Options) (image bundle : string) :
  (exists rtEnv, runtimeEnvOf prefix envprefix host cfg image bundle = inl rtEnv)
  <-> EnvFile cfg = "" \/ snd (envFileMap host (EnvFile cfg)) = None.
Proof.
  unfold runtimeEnvOf.
  destruct (String.eqb_spec (EnvFile cfg) "") as [Hf | Hf]; cbn [negb].
  - split; [now left | eauto].
  - destruct (envFileMap host (EnvFile cfg)) as [em [err |]]; cbn [snd].
    + split; [intros [rt H]; discriminate H |].
      intros [H | H]; [now contradiction Hf | discriminate H].
    + split; [now right | eauto].
Qed.

Lemma getProcessCwd_ok_iff {Err : Type} (host : Host Err) (cfg : Options) :
  (exists cwd, getProcessCwd host cfg = inl cwd) <->
  Fakeroot cfg = true \/ exists dir, CurrentOriginalDir host = inl dir.
Proof.
  unfold getProcessCwd. destruct (Fakeroot cfg).
  - split; [now left | eauto].
  - destruct (CurrentOriginalDir host) as [dir | e].
    + split; [right; eauto | eauto].
    + split; [intros [cwd H]; discriminate H |].
      intros [H | [dir H]]; discriminate H.
Qed.

(** X9: [getProcess] builds a process spec exactly when the environment
    file, if one is named, is read and evaluated without error, and the
    home directory of the user is found unless fakeroot is set; with
    fakeroot the spec has uid 0, gid 0 and working directory /root whatever
    the host user, and without it the host uid and gid and the home
    directory of the user. *)
Theorem x9_process_built_when {Err : Type} (prefix envprefix : string)
    (host : Host Err) (cfg : Options) (imgSpec : Image)
    (image bundle process : string) (args : list string) :
  let result :=
    getProcess prefix envprefix host cfg imgSpec image bundle process args in
  ((exists p, result = inl p) <->
   (EnvFile cfg = "" \/ snd (envFileMap host (EnvFile cfg)) = None) /\
   (Fakeroot cfg = true \/ exists dir, CurrentOriginalDir host = inl dir)) /\
  (forall p, result = inl p -> Fakeroot cfg = true ->
     PUser p = mkUser 0 0 /\ PCwd p = "/root") /\
  (forall p dir, result = inl p -> Fakeroot cfg = false ->
     CurrentOriginalDir host = inl dir ->
     PUser p = mkUser (Getuid host) (Getgid host) /\ PCwd p = dir).
Proof.
  cbv zeta. split; [| split].
  - rewrite <- (runtimeEnvOf_ok_iff prefix envprefix host cfg image bundle).
    rewrite <- (getProcessCwd_ok_iff host cfg). split.
    + intros [p Hp]. apply getProcess_inv in Hp as (rt & cwd & Hrt & Hcwd & _).
      eauto.
    + intros [[rt Hrt] [cwd Hcwd]]. unfold getProcess. rewrite Hrt, Hcwd. eauto.
  - intros p Hp Hfr. apply getProcess_inv in Hp as (rt & cwd & _ & Hcwd & ->).
    unfold getProcessCwd, getProcessUser in *. rewrite Hfr in *.
    injection Hcwd as <-. split; reflexivity.
  - intros p dir Hp Hfr Hdir.
    apply getProcess_inv in Hp as (rt & cwd & _ & Hcwd & ->).
    unfold getProcessCwd, getProcessUser in *. rewrite Hfr, Hdir in *.
    injection Hcwd as <-. split; reflexivity.
Qed.

(** *** Image variables that are not overridden *)

(** An entry that starts with a name free of "=" followed by "=" splits at
    that name. *)
Lemma HasPrefix_key_SplitN (k e : string) :
  lacks "="%char k = true -> HasPrefix e (k ++ "=") = true ->
  exists v, SplitN_eq e = Some (k, v).
Proof.
  revert e. induction k as [| a k IH]; intros [| c e] Hl Hp;
    cbn [HasPrefix String.append] in Hp; try discriminate.
  - change ("" ++ "=") with "=" in Hp. cbn [HasPrefix] in Hp.
    apply andb_true_iff in Hp as [Hc _]. cbn [SplitN_eq]. rewrite Hc. eauto.
  - change (String a k ++ "=") with (String a (k ++ "=")) in Hp.
    cbn [HasPrefix] in Hp. apply andb_true_iff in Hp as [Hca Hp].
    apply Ascii.eqb_eq in Hca. subst c.
    cbn [lacks] in Hl. apply andb_true_iff in Hl as [Ha Hl].
    apply negb_true_iff in Ha.
    destruct (IH e Hl Hp) as [v Hv]. cbn [SplitN_eq]. rewrite Ha, Hv. eauto.
Qed.

(** X10: [getProcessEnv] keeps every entry of the image ENV that nothing
    overrides: an entry without "=", and an entry whose name is neither PATH
    nor LD_LIBRARY_PATH and is not bound by the runtime environment (or is
    APPEND_PATH or PREPEND_PATH, which are never written), is an entry of
    the result. *)
Theorem x10_image_entries_kept
    (rangeOf : gmap string string -> list (string * string))
    (imageSpec : Image) (runtimeEnv : gmap string string) (e : string) :
  range_policy rangeOf ->
  keys_lack_eq runtimeEnv = true ->
  In e (Env (Config imageSpec)) ->
  (forall k v, SplitN_eq e = Some (k, v) ->
     k <> "PATH" /\ k <> "LD_LIBRARY_PATH" /\
     (special_key k = true \/ runtimeEnv !! k = None)) ->
  In e (getProcessEnv rangeOf imageSpec runtimeEnv).
Proof.
  intros Hpol Hkeys Hin Hfree. unfold getProcessEnv, getProcessEnv_ranged.
  cbv zeta. pose proof (Hpol runtimeEnv) as Hord.
  set (kvs := rangeOf runtimeEnv) in *.
  assert (Hnot : forall k, lacks "="%char k = true ->
            HasPrefix e (k ++ "=") = true ->
            k <> "PATH" /\ k <> "LD_LIBRARY_PATH" /\
            (special_key k = true \/ runtimeEnv !! k = None)).
  { intros k Hl Hp. destruct (HasPrefix_key_SplitN k e Hl Hp) as [v Hv].
    exact (Hfree k v Hv). }
  assert (Hgen : In e (genEnv (envAfterLoops (Env (Config imageSpec)) kvs))).
  { unfold envAfterLoops.
    assert (Hkeep : forall (l : list (string * string)) (st : EnvState),
              In e (genEnv st) ->
              (forall k v, (k, v) ∈ l -> (k, v) ∈ kvs) ->
              In e (genEnv (fold_left applyRuntimeEntry l st))).
    { induction l as [| [k v] l IHl]; intros st Hst Hsub; cbn [fold_left];
        [exact Hst |].
      apply IHl.
      - destruct (special_key k) eqn:Hs.
        + now rewrite apply_special_genEnv.
        + rewrite apply_nonspecial by assumption. cbn [genEnv].
          apply SetProcessEnv_preserve; [exact Hst |].
          destruct (HasPrefix e (k ++ "=")) eqn:Hp; [| reflexivity].
          assert (Hk : runtimeEnv !! k = Some v).
          { apply (range_order_elem runtimeEnv kvs); [exact Hord |].
            apply Hsub. apply list_elem_of_here. }
          destruct (Hnot k (keys_lack_eq_spec runtimeEnv k v Hkeys Hk) Hp)
            as (_ & _ & [H | H]); congruence.
      - intros k' v' H. apply Hsub. now apply list_elem_of_further. }
    apply Hkeep; [| auto].
    destruct (scan_fields (Env (Config imageSpec))
                (mkEnvState "" "" "" "" (Env (Config imageSpec)))) as [-> _].
    exact Hin. }
  apply SetProcessEnv_preserve.
  - destruct (String.eqb _ ""); [exact Hgen |].
    apply SetProcessEnv_preserve; [exact Hgen |].
    destruct (HasPrefix e ("PATH" ++ "=")) eqn:Hp; [| reflexivity].
    destruct (Hnot "PATH" eq_refl Hp) as (H & _). now contradiction H.
  - destruct (HasPrefix e ("LD_LIBRARY_PATH" ++ "=")) eqn:Hp; [| reflexivity].
    destruct (Hnot "LD_LIBRARY_PATH" eq_refl Hp) as (_ & H & _).
    now contradiction H.
Qed.

Lemma x10_image_entries_kept_witness :
  In "TERM=xterm"
     (getProcessEnv map_to_list
        (mkImage (mkImageConfig [] [] ["PATH=/bin"; "TERM=xterm"]))
        (<["FOO" := "bar"]> ∅)).
Proof.
  apply (x10_image_entries_kept map_to_list
           (mkImage (mkImageConfig [] [] ["PATH=/bin"; "TERM=xterm"]))
           (<["FOO" := "bar"]> ∅) "TERM=xterm" map_to_list_policy).
  - reflexivity.
  - right. now left.
  - intros k v [= <- _]. repeat split; try discriminate. now right.
Defined.

(** *** The order of the range over the runtime map *)

Lemma entry_other_key (k v k' : string) :
  lacks "="%char k = true -> lacks "="%char k' = true -> k <> k' ->
  HasPrefix (k ++ "=" ++ v) (k' ++ "=") = false.
Proof.
  intros Hk Hk' Hne.
  destruct (HasPrefix (k ++ "=" ++ v) (k' ++ "=")) eqn:H; [| reflexivity].
  contradiction Hne. now apply (key_prefix_inj k k' v).
Qed.

Lemma two_keys (e k k' : string) :
  lacks "="%char k = true -> lacks "="%char k' = true ->
  HasPrefix e (k ++ "=") = true -> HasPrefix e (k' ++ "=") = true -> k = k'.
Proof.
  intros Hk Hk' H H'.
  destruct (HasPrefix_key_SplitN k e Hk H) as [v Hv].
  destruct (HasPrefix_key_SplitN k' e Hk' H') as [v' Hv'].
  congruence.
Qed.

(** A write puts its entry in place of the first entry of that name. *)
Lemma SetProcessEnv_Permutation (k v : string) (env : list string) :
  Permutation (SetProcessEnv k v env) ((k ++ "=" ++ v) :: dropEntry k env).
Proof.
  induction env as [| e env IH]; cbn [SetProcessEnv dropEntry].
  - apply Permutation_refl.
  - destruct (HasPrefix e (k ++ "=")).
    + apply Permutation_refl.
    + apply perm_trans with (e :: (k ++ "=" ++ v) :: dropEntry k env).
      * now apply perm_skip.
      * apply perm_swap.
Qed.

Lemma dropEntry_SetProcessEnv (k v k' : string) (env : list string) :
  lacks "="%char k = true -> lacks "="%char k' = true -> k <> k' ->
  dropEntry k' (SetProcessEnv k v env) = SetProcessEnv k v (dropEntry k' env).
Proof.
  intros Hk Hk' Hne. induction env as [| e env IH].
  - cbn [SetProcessEnv dropEntry].
    now rewrite (entry_other_key k v k' Hk Hk' Hne).
  - cbn [SetProcessEnv dropEntry].
    destruct (HasPrefix e (k ++ "=")) eqn:H; destruct (HasPrefix e (k' ++ "=")) eqn:H'.
    + contradiction Hne. now apply (two_keys e).
    + cbn [SetProcessEnv dropEntry].
      now rewrite (entry_other_key k v k' Hk Hk' Hne), H.
    + cbn [dropEntry]. now rewrite H'.
    + cbn [SetProcessEnv dropEntry]. now rewrite H, H', IH.
Qed.

Lemma dropEntry_comm (k k' : string) (env : list string) :
  lacks "="%char k = true -> lacks "="%char k' = true -> k <> k' ->
  dropEntry k (dropEntry k' env) = dropEntry k' (dropEntry k env).
Proof.
  intros Hk Hk' Hne. induction env as [| e env IH]; [reflexivity |].
  cbn [dropEntry].
  destruct (HasPrefix e (k ++ "=")) eqn:H; destruct (HasPrefix e (k' ++ "=")) eqn:H'.
  - contradiction Hne. now apply (two_keys e).
  - cbn [dropEntry]. now rewrite H.
  - cbn [dropEntry]. now rewrite H'.
  - cbn [dropEntry]. now rewrite H, H', IH.
Qed.

Lemma keptEntries_SetProcessEnv (kvs : list (string * string))
    (k v : string) (env : list string) :
  lacks "="%char k = true ->
  Forall (fun kv => lacks "="%char (fst kv) = true /\ fst kv <> k) kvs ->
  keptEntries kvs (SetProcessEnv k v env) =
    SetProcessEnv k v (keptEntries kvs env).
Proof.
  intros Hk. revert env. induction kvs as [| kv kvs IH]; intros env Hall;
    [reflexivity |].
  apply Forall_cons in Hall as [[Hl Hne] Hall].
  unfold keptEntries in *. cbn [fold_left].
  rewrite dropEntry_SetProcessEnv; auto.
Qed.

Lemma keptEntries_dropEntry (kvs : list (string * string))
    (k : string) (env : list string) :
  lacks "="%char k = true ->
  Forall (fun kv => lacks "="%char (fst kv) = true /\ fst kv <> k) kvs ->
  dropEntry k (keptEntries kvs env) = keptEntries kvs (dropEntry k env).
Proof.
  intros Hk. revert env. induction kvs as [| kv kvs IH]; intros env Hall;
    [reflexivity |].
  apply Forall_cons in Hall as [[Hl Hne] Hall].
  unfold keptEntries in *. cbn [fold_left].
  rewrite IH by assumption. f_equal. apply dropEntry_comm; auto.
Qed.

Lemma clean_bindings_cons (kv : string * string)
    (kvs : list (string * string)) :
  clean_bindings (kv :: kvs) ->
  lacks "="%char (fst kv) = true /\ clean_bindings kvs /\
  Forall (fun kv' => lacks "="%char (fst kv') = true /\ fst kv' <> fst kv) kvs.
Proof.
  intros [Hnd Hl]. rewrite fmap_cons in Hnd.
  apply NoDup_cons in Hnd as [Hfresh Hnd].
  apply Forall_cons in Hl as [Hk Hl].
  split; [exact Hk |]. split; [now split |].
  apply Forall_forall. intros kv' Hin. split.
  - rewrite Forall_forall in Hl. now apply Hl.
  - intros Heq. apply Hfresh. rewrite <- Heq.
    apply list_elem_of_fmap. now exists kv'.
Qed.

Lemma clean_bindings_Permutation (kvs kvs' : list (string * string)) :
  Permutation kvs kvs' -> clean_bindings kvs -> clean_bindings kvs'.
Proof.
  intros Hp [Hnd Hl]. split.
  - now rewrite <- Hp.
  - now rewrite <- Hp.
Qed.

(** What a sequence of clean writes leaves: the entries it does not
    overwrite, and one entry per write. *)
Lemma writeAll_Permutation (kvs : list (string * string))
    (env : list string) :
  clean_bindings kvs ->
  Permutation (writeAll kvs env) (keptEntries kvs env ++ map entryOf kvs).
Proof.
  revert env. induction kvs as [| [k v] kvs IH]; intros env Hc.
  - unfold writeAll, keptEntries. cbn. now rewrite app_nil_r.
  - apply clean_bindings_cons in Hc as (Hk & Hc & Hothers). cbn [fst] in *.
    change (writeAll ((k, v) :: kvs) env)
      with (writeAll kvs (SetProcessEnv k v env)).
    change (keptEntries ((k, v) :: kvs) env)
      with (keptEntries kvs (dropEntry k env)).
    rewrite (IH _ Hc), keptEntries_SetProcessEnv by assumption.
    rewrite SetProcessEnv_Permutation, keptEntries_dropEntry by assumption.
    cbn [map]. change (entryOf (k, v)) with (k ++ "=" ++ v).
    apply Permutation_middle.
Qed.

Lemma keptEntries_order (kvs kvs' : list (string * string)) :
  Permutation kvs kvs' -> clean_bindings kvs ->
  forall env, keptEntries kvs env = keptEntries kvs' env.
Proof.
  induction 1 as [| x l l' Hp IH | x y l | l l' l'' Hp1 IH1 Hp2 IH2];
    intros Hc env.
  - reflexivity.
  - apply clean_bindings_cons in Hc as (_ & Hc & _).
    unfold keptEntries in *. cbn [fold_left]. now apply IH.
  - apply clean_bindings_cons in Hc as (Hy & Hc & Hothers).
    apply Forall_cons in Hothers as [[Hx Hne] _].
    unfold keptEntries. cbn [fold_left]. f_equal.
    apply dropEntry_comm; auto.
  - rewrite IH1 by assumption. apply IH2.
    now apply (clean_bindings_Permutation l).
Qed.

(** Clean writes made in another order leave the same entries. *)
Lemma writeAll_order (kvs kvs' : list (string * string)) (env : list string) :
  Permutation kvs kvs' -> clean_bindings kvs ->
  Permutation (writeAll kvs env) (writeAll kvs' env).
Proof.
  intros Hp Hc.
  rewrite (writeAll_Permutation kvs env Hc).
  rewrite (writeAll_Permutation kvs' env (clean_bindings_Permutation _ _ Hp Hc)).
  rewrite (keptEntries_order kvs kvs' Hp Hc env).
  apply Permutation_app_head. now apply Permutation_map.
Qed.

Lemma genEnv_after_loop (kvs : list (string * string)) (st : EnvState) :
  genEnv (fold_left applyRuntimeEntry kvs st) =
    writeAll (List.filter (fun kv => negb (special_key (fst kv))) kvs) (genEnv st).
Proof.
  revert st. induction kvs as [| [k v] kvs IH]; intros st; [reflexivity |].
  cbn [fold_left List.filter fst]. rewrite IH.
  destruct (special_key k) eqn:Hs; cbn [negb].
  - now rewrite apply_special_genEnv.
  - rewrite apply_nonspecial by assumption. reflexivity.
Qed.

(** [getProcessEnv] is the image ENV with its writes made in order. *)
Lemma getProcessEnv_ranged_writes (imageSpec : Image)
    (kvs : list (string * string)) :
  getProcessEnv_ranged imageSpec kvs =
    writeAll (writesOf imageSpec kvs) (Env (Config imageSpec)).
Proof.
  unfold getProcessEnv_ranged, writesOf, writeAll. cbv zeta.
  rewrite !fold_left_app. cbn [fold_left fst snd].
  fold (writeAll (List.filter (fun kv => negb (special_key (fst kv))) kvs)
          (Env (Config imageSpec))).
  assert (Hg : genEnv (envAfterLoops (Env (Config imageSpec)) kvs) =
               writeAll (List.filter (fun kv => negb (special_key (fst kv))) kvs)
                        (Env (Config imageSpec))).
  { unfold envAfterLoops. rewrite genEnv_after_loop. f_equal.
    now destruct (scan_fields (Env (Config imageSpec))
                    (mkEnvState "" "" "" "" (Env (Config imageSpec)))) as [-> _]. }
  rewrite <- Hg.
  now destruct (String.eqb _ "").
Qed.

Lemma filter_Permutation (f : string * string -> bool)
    (l l' : list (string * string)) :
  Permutation l l' -> Permutation (List.filter f l) (List.filter f l').
Proof.
  induction 1 as [| x l l' Hp IH | x y l | l l' l'' Hp1 IH1 Hp2 IH2];
    cbn [List.filter].
  - apply Permutation_refl.
  - destruct (f x); [now apply perm_skip | exact IH].
  - destruct (f x), (f y); try apply Permutation_refl. apply perm_swap.
  - now apply perm_trans with (List.filter f l').
Qed.

Lemma filter_keys_NoDup (f : string * string -> bool)
    (l : list (string * string)) :
  NoDup l.*1 -> NoDup (List.filter f l).*1.
Proof.
  induction l as [| x l IH]; intros Hnd; [exact Hnd |].
  rewrite fmap_cons in Hnd. apply NoDup_cons in Hnd as [Hfresh Hnd].
  cbn [List.filter]. destruct (f x); [| now apply IH].
  rewrite fmap_cons. apply NoDup_cons. split; [| now apply IH].
  intros Hin. apply Hfresh.
  apply list_elem_of_fmap in Hin as (y & Hy & Hin).
  apply list_elem_of_In, filter_In in Hin as [Hin _].
  apply list_elem_of_fmap. exists y. split; [exact Hy |].
  now apply list_elem_of_In.
Qed.

Lemma writesOf_clean (imageSpec : Image) (m : gmap string string)
    (kvs : list (string * string)) :
  range_order m kvs -> keys_lack_eq m = true ->
  clean_bindings (writesOf imageSpec kvs).
Proof.
  intros Hord Hkeys. unfold writesOf. cbv zeta.
  set (F := List.filter (fun kv => negb (special_key (fst kv))) kvs).
  set (tail := ((if String.eqb _ "" then _ else _) ++ _)%list).
  assert (HF : forall kv, kv ∈ F ->
            special_key (fst kv) = false /\ lacks "="%char (fst kv) = true).
  { intros [k v] Hin. apply list_elem_of_In, filter_In in Hin as [Hin Hs].
    cbn [fst] in *. apply negb_true_iff in Hs. split; [exact Hs |].
    apply (keys_lack_eq_spec m k v Hkeys).
    apply (range_order_elem m kvs); [exact Hord |]. now apply list_elem_of_In. }
  assert (Htail : forall kv, kv ∈ tail ->
            special_key (fst kv) = true /\ lacks "="%char (fst kv) = true).
  { intros kv Hin. unfold tail in Hin.
    destruct (String.eqb _ ""); cbn [app] in Hin;
      repeat (apply elem_of_cons in Hin as [-> | Hin]; [now split |]);
      now apply elem_of_nil in Hin. }
  split.
  - rewrite fmap_app. apply NoDup_app. split; [| split].
    + apply filter_keys_NoDup. now apply (range_order_NoDup m).
    + intros k Hk Hk'.
      apply list_elem_of_fmap in Hk as (kv & -> & Hkv).
      apply list_elem_of_fmap in Hk' as (kv' & Heq & Hkv').
      destruct (HF kv Hkv) as [Hs _]. destruct (Htail kv' Hkv') as [Hs' _].
      congruence.
    + unfold tail. destruct (String.eqb _ ""); cbn [app fmap list_fmap fst].
      * apply NoDup_singleton.
      * apply NoDup_cons. split; [| apply NoDup_singleton].
        intros Hin. apply list_elem_of_singleton in Hin. discriminate Hin.
  - apply Forall_app. split; apply Forall_forall; intros kv Hin.
    + now apply HF.
    + now apply Htail.
Qed.

Lemma writesOf_Permutation (imageSpec : Image) (m : gmap string string)
    (kvs kvs' : list (string * string)) :
  range_order m kvs -> range_order m kvs' ->
  Permutation (writesOf imageSpec kvs) (writesOf imageSpec kvs').
Proof.
  intros Hord Hord'. unfold writesOf. cbv zeta.
  destruct (envAfterLoops_fields (Env (Config imageSpec)) m kvs Hord)
    as (-> & -> & -> & ->).
  destruct (envAfterLoops_fields (Env (Config imageSpec)) m kvs' Hord')
    as (-> & -> & -> & ->).
  apply Permutation_app_tail. apply filter_Permutation.
  unfold range_order in *. now rewrite Hord, Hord'.
Qed.

(** X11: the order in which Go ranges over the runtime map does not change
    what [getProcessEnv] returns beyond the order of its entries: for a
    runtime environment whose keys hold no "=", the results under any two
    orders are permutations of each other. *)
Theorem x11_range_order_irrelevant
    (rangeOf rangeOf' : gmap string string -> list (string * string))
    (imageSpec : Image) (runtimeEnv : gmap string string) :
  range_policy rangeOf -> range_policy rangeOf' ->
  keys_lack_eq runtimeEnv = true ->
  Permutation (getProcessEnv rangeOf imageSpec runtimeEnv)
              (getProcessEnv rangeOf' imageSpec runtimeEnv).
Proof.
  intros Hpol Hpol' Hkeys. unfold getProcessEnv.
  rewrite !getProcessEnv_ranged_writes.
  apply writeAll_order.
  - apply (writesOf_Permutation imageSpec runtimeEnv); [apply Hpol | apply Hpol'].
  - apply (writesOf_clean imageSpec runtimeEnv); [apply Hpol | exact Hkeys].
Qed.

Lemma reversed_policy : range_policy (fun m => rev (map_to_list m)).
Proof. intros m. unfold range_order. symmetry. apply Permutation_rev. Defined.

Lemma x11_range_order_irrelevant_witness :
  Permutation
    (getProcessEnv map_to_list
       (mkImage (mkImageConfig [] [] ["TERM=xterm"]))
       (<["A" := "1"]> (<["B" := "2"]> ∅)))
    (getProcessEnv (fun m => rev (map_to_list m))
       (mkImage (mkImageConfig [] [] ["TERM=xterm"]))
       (<["A" := "1"]> (<["B" := "2"]> ∅))).
Proof.
  apply (x11_range_order_irrelevant map_to_list
           (fun m => rev (map_to_list m))
           (mkImage (mkImageConfig [] [] ["TERM=xterm"]))
           (<["A" := "1"]> (<["B" := "2"]> ∅))
           map_to_list_policy reversed_policy).
  reflexivity.
Defined.

(** The two orders of the witness do give different lists. *)
Example range_orders_differ :
  getProcessEnv map_to_list
    (mkImage (mkImageConfig [] [] ["TERM=xterm"]))
    (<["A" := "1"]> (<["B" := "2"]> ∅)) <>
  getProcessEnv (fun m => rev (map_to_list m))
    (mkImage (mkImageConfig [] [] ["TERM=xterm"]))
    (<["A" := "1"]> (<["B" := "2"]> ∅)).
Proof. vm_compute. discriminate. Qed.

End ProcessExtra.

(* ===================================================================== *)
(** ** Further properties of the lifecycle driver *)
(* ===================================================================== *)

Module LifecycleExtra.

Import Lifecycle LifecycleProps.
Local Open Scope string_scope.

(** The ways [OciDelete] can end. *)
Lemma OciDelete_cases {Err : Type} (env : Surroundings Err)
    (containerID : string) (w : World) :
  let r := OciDelete env containerID w in
  (exists e, FindBin env "runc" = inr e /\ r = (w, Some (FindBinFailed e))) \/
  (exists runc, FindBin env "runc" = inl runc /\
   let exec := RuncExec runc (runcArgs env containerID) in
   ((exists e, r = (record exec w, Some (WhileCallingRuncDelete e))) \/
    (exists e, r = (record exec w, Some (WhileComputingStateDir e))) \/
    (exists sd, stateDir env containerID = inl sd /\
     let link := Join env sd (bundleLink env) in
     ((resolved (TargetExists env) link w = None /\
       r = (record (EvalSymlinks link) (record exec w),
            Some (WhileFindingBundleDir link))) \/
      (exists bundle, symlinks w !! link = Some bundle /\
       ((r = (mkWorld (symlinks w) (locks w)
                (calls w ++ [exec; EvalSymlinks link; Remove link])%list,
              Some (WhileRemovingBundleSymlink link))) \/
        let trace := (calls w ++ [exec; EvalSymlinks link; Remove link;
                                  ReleaseBundle bundle])%list in
        (((bundle ∈ locks w) /\
          r = (mkWorld (delete link (symlinks w)) (locks w ∖ {[bundle]}) trace,
               None)) \/
         ((bundle ∉ locks w) /\
          r = (mkWorld (delete link (symlinks w)) (locks w) trace,
               Some (ReleaseBundleFailed bundle)))))))))).
Proof.
  cbv zeta.
  destruct (FindBin env "runc") as [runc | e] eqn:Hbin.
  2:{ left. exists e. split; [reflexivity |].
      unfold OciDelete. now rewrite Hbin. }
  right. exists runc. split; [reflexivity |].
  after_FindBin env containerID w runc Hbin.
  - left. now exists e.
  - right. left. now exists e.
  - right. right. exists sd. split; [exact Hsd |]. left. now split.
  - right. right. exists sd. split; [exact Hsd |]. right. exists bundle.
    split; [exact Hlink |]. now left.
  - right. right. exists sd. split; [exact Hsd |]. right. exists bundle.
    split; [exact Hlink |]. right. left. now split.
  - right. right. exists sd. split; [exact Hsd |]. right. exists bundle.
    split; [exact Hlink |]. right. right. now split.
Qed.

Ltac delete_cases env id w :=
  let H := fresh "Hcase" in
  pose proof (OciDelete_cases env id w) as H; cbv zeta in H;
  destruct H as [(e & Hbin & Hr)
                | (runc & Hbin &
                   [(e & Hr)
                   | [(e & Hr)
                     | (sd & Hsd &
                        [(Hres & Hr)
                        | (bundle & Hlink &
                           [Hr | [(Hlock & Hr) | (Hlock & Hr)]])])]])].

(** X12: whenever [OciDelete] returns an error, no lock has been released;
    the links are untouched as well unless the error is the failed release
    of the bundle lock, in which case the bundle link has already been
    removed although the operation failed; and when the runtime binary is
    not found nothing at all has happened. *)
Theorem x12_delete_error_state {Err : Type} (env : Surroundings Err)
    (containerID : string) (w : World) (err : DeleteError Err) :
  snd (OciDelete env containerID w) = Some err ->
  let w' := fst (OciDelete env containerID w) in
  locks w' = locks w /\
  ((forall b, err <> ReleaseBundleFailed b) -> symlinks w' = symlinks w) /\
  (forall b, err = ReleaseBundleFailed b ->
     (b ∉ locks w) /\
     exists sd, stateDir env containerID = inl sd /\
       symlinks w !! Join env sd (bundleLink env) = Some b /\
       symlinks w' = delete (Join env sd (bundleLink env)) (symlinks w)) /\
  (forall e, err = FindBinFailed e -> w' = w).
Proof.
  cbv zeta. delete_cases env containerID w; rewrite Hr; cbn [fst snd];
    intros Herr; (first [discriminate Herr | injection Herr as <-]);
    cbn [locks symlinks record];
    repeat split; trivial; try discriminate.
  - intros Hno. now contradiction (Hno bundle).
  - match goal with
    | H : ReleaseBundleFailed _ = ReleaseBundleFailed _ |- _ =>
        injection H as <-
    end. exact Hlock.
  - match goal with
    | H : ReleaseBundleFailed _ = ReleaseBundleFailed _ |- _ =>
        injection H as <-
    end. exists sd. auto.
Qed.

Lemma x12_delete_error_state_witness :
  let w' := fst (OciDelete sample_surroundings "broken" sample_world) in
  locks w' = locks sample_world /\
  ((forall b, WhileCallingRuncDelete "exit status 1" <> ReleaseBundleFailed b) ->
   symlinks w' = symlinks sample_world) /\
  (forall b, WhileCallingRuncDelete "exit status 1" = ReleaseBundleFailed b ->
     (b ∉ locks sample_world) /\
     exists sd, stateDir sample_surroundings "broken" = inl sd /\
       symlinks sample_world !! Join sample_surroundings sd
                                  (bundleLink sample_surroundings) = Some b /\
       symlinks w' = delete (Join sample_surroundings sd
                               (bundleLink sample_surroundings))
                            (symlinks sample_world)) /\
  (forall e, WhileCallingRuncDelete "exit status 1" = FindBinFailed e ->
     w' = sample_world).
Proof.
  exact (x12_delete_error_state sample_surroundings "broken" sample_world
           (WhileCallingRuncDelete "exit status 1") eq_refl).
Defined.

(** X13: [OciDelete] acquires no lock and creates no link; it leaves every
    link but the bundle link of the container as it is, and the only lock it
    can release is the lock of the bundle that link points to. *)
Theorem x13_delete_frame {Err : Type} (env : Surroundings Err)
    (containerID : string) (w : World) :
  let w' := fst (OciDelete env containerID w) in
  (forall b, b ∈ locks w' -> b ∈ locks w) /\
  (forall p t, symlinks w' !! p = Some t -> symlinks w !! p = Some t) /\
  (forall sd p, stateDir env containerID = inl sd ->
     p <> Join env sd (bundleLink env) ->
     symlinks w' !! p = symlinks w !! p) /\
  (forall b, b ∈ locks w -> b ∉ locks w' ->
     exists sd, stateDir env containerID = inl sd /\
                symlinks w !! Join env sd (bundleLink env) = Some b).
Proof.
  cbv zeta. delete_cases env containerID w; rewrite Hr;
    cbn [fst locks symlinks record]; repeat split; trivial;
    try (intros; contradiction).
  - intros b Hb. apply elem_of_difference in Hb as [Hb _]. exact Hb.
  - intros p t Hp. apply lookup_delete_Some in Hp as [_ Hp]. exact Hp.
  - intros sd' p Hsd' Hp. rewrite Hsd in Hsd'. injection Hsd' as <-.
    now apply lookup_delete_ne.
  - intros b Hb Hnot. exists sd. split; [exact Hsd |].
    destruct (decide (b = bundle)) as [-> | Hne]; [exact Hlink |].
    contradiction Hnot. apply elem_of_difference. split; [exact Hb |].
    now apply not_elem_of_singleton.
  - intros p t Hp. apply lookup_delete_Some in Hp as [_ Hp]. exact Hp.
  - intros sd' p Hsd' Hp. rewrite Hsd in Hsd'. injection Hsd' as <-.
    now apply lookup_delete_ne.
Qed.

(** X14: a delete that succeeded cannot be repeated: on the world it
    leaves, another [OciDelete] of the same container always returns an
    error, whatever the runtime answers this time, because the bundle link
    is gone; and that second call changes no link and no lock. *)
Theorem x14_delete_not_repeatable {Err : Type} (env env' : Surroundings Err)
    (containerID : string) (w : World) :
  snd (OciDelete env containerID w) = None ->
  stateDir env' containerID = stateDir env containerID ->
  (forall sd, Join env' sd (bundleLink env') = Join env sd (bundleLink env)) ->
  let w1 := fst (OciDelete env containerID w) in
  snd (OciDelete env' containerID w1) <> None /\
  symlinks (fst (OciDelete env' containerID w1)) = symlinks w1 /\
  locks (fst (OciDelete env' containerID w1)) = locks w1.
Proof.
  intros Hok Hsame Hjoin. cbv zeta.
  assert (Hgone : exists sd, stateDir env containerID = inl sd /\
            symlinks (fst (OciDelete env containerID w))
              !! Join env sd (bundleLink env) = None).
  { delete_cases env containerID w; rewrite Hr in Hok |- *;
      cbn [fst snd] in *; try discriminate Hok.
    exists sd. split; [exact Hsd |]. cbn [symlinks]. apply lookup_delete_eq. }
  destruct Hgone as (sd0 & Hsd0 & Hgone).
  set (w1 := fst (OciDelete env containerID w)) in *.
  delete_cases env' containerID w1; rewrite Hr; cbn [fst snd symlinks locks record].
  all: try (split; [discriminate | split; reflexivity]).
  all: rewrite Hsame, Hsd0 in Hsd; injection Hsd as <-;
    rewrite Hjoin, Hgone in Hlink; discriminate Hlink.
Qed.

Lemma x14_delete_not_repeatable_witness :
  let w1 := fst (OciDelete sample_surroundings "c1" sample_world) in
  snd (OciDelete sample_surroundings "c1" w1) <> None /\
  symlinks (fst (OciDelete sample_surroundings "c1" w1)) = symlinks w1 /\
  locks (fst (OciDelete sample_surroundings "c1" w1)) = locks w1.
Proof.
  apply (x14_delete_not_repeatable sample_surroundings sample_surroundings
           "c1" sample_world).
  - vm_compute. reflexivity.
  - reflexivity.
  - intros sd. reflexivity.
Defined.

End LifecycleExtra.

(* ===================================================================== *)
(** ** Properties of the action commands *)
(* ===================================================================== *)

Module ActionsProps.

Import GoStrings Actions.
Local Open Scope string_scope.
Local Arguments String.eqb : simpl never.

Section Handlers.

Context {Err : Type}.
Variable svc : Services Err.

Lemma pulled_image (h : Handler) (pullFrom : string) (st st' : State)
    (image : string) :
  pulled svc h pullFrom st = Returned (st', inl image) ->
  one_pull svc pullFrom st st' image.
Proof.
  unfold pulled. destruct (pull svc h pullFrom (flags st)) as [i | e] eqn:Hp;
    intros H; [| discriminate H].
  injection H as <- <-. repeat split. exists h, []. auto.
Qed.

Lemma after_one_effect (e : Effect) (pullFrom : string) (st st' : State)
    (image : string) :
  not_a_pull e ->
  one_pull svc pullFrom (did e st) st' image ->
  one_pull svc pullFrom st st' image.
Proof.
  intros He (Hf & Hen & h & pre & Heff & Hpre & Hp). cbn in Hf, Hen, Heff, Hp.
  repeat split; trivial.
  exists h, (e :: pre). split; [| split; [now constructor | exact Hp]].
  rewrite Heff, <- !app_assoc. reflexivity.
Qed.

Lemma credentials_not_a_pull : not_a_pull DockerCredentials.
Proof. intros h u. discriminate. Qed.

Lemma config_not_a_pull (u : string) : not_a_pull (LibraryClientConfig u).
Proof. intros h u'. discriminate. Qed.

Lemma handleOCI_image (pullFrom : string) (st st' : State) (image : string) :
  handleOCI svc pullFrom st = Returned (st', inl image) ->
  one_pull svc pullFrom st st' image.
Proof.
  unfold handleOCI. destruct (makeDockerCredentials svc); [discriminate |].
  intros H. apply pulled_image in H.
  exact (after_one_effect _ _ _ _ _ credentials_not_a_pull H).
Qed.

Lemma handleOras_image (pullFrom : string) (st st' : State) (image : string) :
  handleOras svc pullFrom st = Returned (st', inl image) ->
  one_pull svc pullFrom st st' image.
Proof.
  unfold handleOras. destruct (makeDockerCredentials svc); [discriminate |].
  intros H. apply pulled_image in H.
  exact (after_one_effect _ _ _ _ _ credentials_not_a_pull H).
Qed.

Lemma handleLibrary_image (pullFrom : string) (st st' : State)
    (image : string) :
  handleLibrary svc pullFrom st = Returned (st', inl image) ->
  one_pull svc pullFrom st st' image.
Proof.
  unfold handleLibrary.
  destruct (normalizeLibraryRef svc pullFrom) as [host | e]; [| discriminate].
  cbv zeta.
  destruct (getLibraryClientConfig svc _); [discriminate |].
  intros H. apply pulled_image in H.
  exact (after_one_effect _ _ _ _ _ (config_not_a_pull _) H).
Qed.

Lemma dispatch_image (t pullFrom : string) (st st' : State) (image : string) :
  dispatch svc t pullFrom st = Returned (st', inl image) ->
  one_pull svc pullFrom st st' image.
Proof.
  unfold dispatch.
  destruct (String.eqb t (Library svc)); [apply handleLibrary_image |].
  destruct (String.eqb t (Oras svc)); [apply handleOras_image |].
  destruct (String.eqb t (Shub svc)); [apply pulled_image |].
  destruct (String.eqb t (IsSupported svc t)); [apply handleOCI_image |].
  destruct (String.eqb t (HTTP svc)); [apply pulled_image |].
  destruct (String.eqb t (HTTPS svc)); [apply pulled_image | discriminate].
Qed.

End Handlers.

(** X15: [replaceURIWithImage] leaves a bare file name or an instance
    reference alone, with no cache handle made and nothing fetched. For any
    other first argument it never returns with the argument unreplaced: when
    it returns, exactly one pull was made, of that very argument, and the
    image it gave (behind "oci-sif:" under the OCI runtime) has taken the
    place of the argument; the other arguments, their number, the flags and
    the environment are as they were. *)
Theorem x15_replace_uri {Err : Type} (svc : Services Err) (st : State)
    (a0 : string) (rest : list string) :
  let t := fst (Split svc a0) in
  let out := replaceURIWithImage svc st (a0 :: rest) in
  (t = "instance" \/ t = "" -> out = Returned (st, a0 :: rest)) /\
  (t <> "instance" -> t <> "" ->
   forall st' args', out = Returned (st', args') ->
     flags st' = flags st /\ environ st' = environ st /\
     exists h pre image,
       effects st' =
         (effects st ++ NewCacheHandle (disableCache (flags st)) :: pre
                     ++ [Pull h a0])%list /\
       Forall not_a_pull pre /\
       pull svc h a0 (flags st) = inl image /\
       args' = (if ociRuntime (flags st) then "oci-sif:" ++ image else image)
                 :: rest).
Proof.
  cbv zeta. unfold replaceURIWithImage. split.
  - intros [-> | ->]; [reflexivity |].
    now destruct (String.eqb "" "instance").
  - intros Hi He st' args'.
    apply String.eqb_neq in Hi, He. rewrite Hi, He. cbn [orb].
    destruct (cacheNew svc (environ st) (disableCache (flags st)))
      as [[|] | e]; try discriminate.
    destruct (dispatch svc _ a0 _) as [[st2 [image | err]] | r |] eqn:Hd;
      try discriminate.
    intros [= <- <-].
    apply dispatch_image in Hd as (Hf & Hen & h & pre & Heff & Hpre & Hp).
    cbn [flags environ effects did] in *.
    rewrite Hf. repeat split; trivial.
    exists h, pre, image. rewrite Heff, <- app_assoc. auto.
Qed.

Example docker_uri_replaced :
  replaceURIWithImage sample_services sample_state
    ["docker://alpine"; "echo"; "hi"]
  = Returned
      (mkState sample_flags (environ sample_state)
         [NewCacheHandle false; DockerCredentials; Pull HOCI "docker://alpine"],
       ["oci-sif:/cache/image.sif"; "echo"; "hi"]).
Proof. vm_compute. reflexivity. Qed.

Example local_image_untouched :
  replaceURIWithImage sample_services sample_state ["image.sif"; "echo"]
  = Returned (sample_state, ["image.sif"; "echo"]).
Proof. vm_compute. reflexivity. Qed.

(** Whatever [replaceURIWithImage] does when it returns, it keeps the
    flags, the environment and all arguments but the first. *)
Lemma replaceURIWithImage_keeps {Err : Type} (svc : Services Err)
    (st st' : State) (args args' : list string) :
  replaceURIWithImage svc st args = Returned (st', args') ->
  flags st' = flags st /\ environ st' = environ st /\
  length args' = length args /\ tl args' = tl args.
Proof.
  destruct args as [| a0 rest]; [discriminate |].
  unfold replaceURIWithImage.
  destruct (String.eqb _ "instance" || String.eqb _ "").
  { intros [= <- <-]. auto. }
  destruct (cacheNew svc (environ st) (disableCache (flags st)))
    as [[|] | e]; try discriminate.
  destruct (dispatch svc _ a0 _) as [[st2 [image | err]] | r |] eqn:Hd;
    try discriminate.
  intros [= <- <-].
  apply dispatch_image in Hd as (Hf & Hen & _).
  cbn [flags environ did] in *. auto.
Qed.

Lemma hostname_set (h : string) :
  (0 <? String.length h)%nat = negb (String.eqb h "").
Proof. now destruct h. Qed.

(** X16: when [actionPreRun] returns, USER_PATH is the PATH of the caller
    followed by ":" and the default path, IMAGE_ARG is the first argument
    as it was given (also when the argument itself has been replaced by a
    fetched image), and no other variable has changed; with --compat the
    five flags contain-all, writable-tmpfs, no-init, no-umask and no-eval
    are set, without it they are as they were; the UTS namespace flag is set
    when a hostname is given and otherwise as it was; the user, net, pid
    and ipc namespace flags are never touched, and the arguments after the
    first are as they were. *)
Theorem x16_pre_run_inference {Err : Type} (svc : Services Err)
    (st st' : State) (args args' : list string) :
  actionPreRun svc st args = Returned (st', args') ->
  let f := flags st in
  let f' := flags st' in
  environ st' !! "USER_PATH" = Some (Getenv st "PATH" ++ ":" ++ defaultPath) /\
  environ st' !! "IMAGE_ARG" = head args /\
  (forall k, k <> "USER_PATH" -> k <> "IMAGE_ARG" ->
     environ st' !! k = environ st !! k) /\
  (isCompat f = true ->
     isContainAll f' = true /\ isWritableTmpfs f' = true /\
     noInit f' = true /\ noUmask f' = true /\ noEval f' = true) /\
  (isCompat f = false ->
     isContainAll f' = isContainAll f /\
     isWritableTmpfs f' = isWritableTmpfs f /\
     noInit f' = noInit f /\ noUmask f' = noUmask f /\ noEval f' = noEval f) /\
  utsNamespace f' = utsNamespace f || negb (String.eqb (hostname f) "") /\
  userNamespace f' = userNamespace f /\ netNamespace f' = netNamespace f /\
  pidNamespace f' = pidNamespace f /\ ipcNamespace f' = ipcNamespace f /\
  length args' = length args /\ tl args' = tl args.
Proof.
  unfold actionPreRun. destruct args as [| a0 rest]; [discriminate |].
  cbv zeta. intros H.
  apply replaceURIWithImage_keeps in H as (Hf & Hen & Hlen & Htl).
  cbn [flags environ setFlags Setenv] in Hf, Hen.
  rewrite Hf, Hen. clear Hf Hen.
  split; [| split; [| split]].
  - rewrite lookup_insert_ne by discriminate. apply lookup_insert_eq.
  - apply lookup_insert_eq.
  - intros k H1 H2. now rewrite !lookup_insert_ne by congruence.
  - unfold inferFlags. rewrite hostname_set.
    destruct (flags st) as [c ca wt ni nu ne h uts us net pid ipc oci nh dc].
    cbn [isCompat hostname].
    destruct c; cbn [hostname]; destruct (String.eqb h ""); cbn [negb];
      cbn; repeat split; trivial; try discriminate;
      rewrite ?orb_true_r, ?orb_false_r; trivial.
Qed.

Lemma x16_pre_run_inference_witness :
  exists st' args',
    actionPreRun sample_services sample_state ["docker://alpine"; "sh"]
      = Returned (st', args') /\
    environ st' !! "USER_PATH" = Some ("/usr/bin:" ++ defaultPath) /\
    environ st' !! "IMAGE_ARG" = Some "docker://alpine" /\
    args' = ["oci-sif:/cache/image.sif"; "sh"] /\
    isContainAll (flags st') = true /\ utsNamespace (flags st') = false.
Proof.
  eexists. eexists. split; [vm_compute; reflexivity |].
  pose proof (x16_pre_run_inference sample_services sample_state _
                ["docker://alpine"; "sh"] _ eq_refl)
    as (Hu & Hi & _ & Hc & _ & Huts & _).
  split; [exact Hu |]. split; [exact Hi |]. split; [reflexivity |].
  split; [apply Hc; reflexivity | exact Huts].
Defined.

End ActionsProps.
